(** * pyFAI full pixel splitting: [splitPixelFull.pyx]

    A shallow embedding of the Cython kernel [src/splitPixelFull.pyx]
    (functions [fullSplit1D] and [fullSplit2D] with their helpers) and the
    properties of the azimuthal-integration specification checked on it.

    The kernel computes on C doubles.  The embedding is written once, over an
    interface [Arith] of the arithmetic the source uses, and read twice:
    - [ArithQ]: exact rational arithmetic, for the properties the
      specification states "assuming exact arithmetic";
    - [ArithF64]: IEEE-754 binary64 (Rocq's primitive floats), for what the
      compiled code computes, including infinities and NaN.

    C-level undefined behaviour ([boundscheck(False)] indexing outside an
    array, a double to int conversion that does not fit) is an explicit
    outcome of the model, as are the Python exceptions raised before the
    [nogil] loops, those of [numpy.zeros] included: the allocator is a
    parameter of the model ([Memory]). *)

From Stdlib Require Import ZArith QArith Qabs Qround Floats List Bool Lia Lqa.
Import ListNotations.

Set Implicit Arguments.

(* ================================================================== *)
(** * Outcomes: results, Python exceptions, undefined behaviour *)
(* ================================================================== *)

Inductive exn : Type :=
| AssertionError
| OverflowError
| ValueError
| TypeError
| MemoryError.

Inductive ub : Type :=
| OutOfBounds      (* index outside an array, bounds checks disabled *)
| IntCast          (* <int> of a double that is not a finite int *)
| PolyOverflow.    (* more than 8 vertices in a MyPoly *)

Inductive outcome (A : Type) : Type :=
| Ok (a : A)
| Raise (e : exn)
| Undefined (u : ub).

Arguments Ok {A} a.
Arguments Raise {A} e.
Arguments Undefined {A} u.

Definition bind {A B : Type} (m : outcome A) (k : A -> outcome B) : outcome B :=
  match m with
  | Ok a => k a
  | Raise e => Raise e
  | Undefined u => Undefined u
  end.

Declare Scope outcome_scope.
Delimit Scope outcome_scope with outcome.
Notation "x <- m ;; k" := (bind m (fun x => k))
  (at level 61, m at next level, right associativity) : outcome_scope.
Notation "' p <- m ;; k" := (bind m (fun x => match x with p => k end))
  (at level 61, p pattern, m at next level, right associativity) : outcome_scope.
Open Scope outcome_scope.

(** [assert c] *)
Definition assert (c : bool) : outcome unit :=
  if c then Ok tt else Raise AssertionError.

(** A [for] loop over a list of indices, threading the loop state. *)
Fixpoint for_each {I S : Type} (body : S -> I -> outcome S) (l : list I) (s : S)
  : outcome S :=
  match l with
  | [] => Ok s
  | i :: l' => s' <- body s i ;; for_each body l' s'
  end.

(** [range(lo, hi)] on C ints. *)
Definition zrange (lo hi : Z) : list Z :=
  map (fun k => lo + Z.of_nat k)%Z (seq 0 (Z.to_nat (hi - lo))).

(* ================================================================== *)
(** * Memory *)
(* ================================================================== *)

(** The allocator behind numpy: [grants n] tells whether a request of [n]
    bytes succeeds. *)
Class Memory : Type := { grants : Z -> bool }.

(** The allocation of a new numpy array of the given shape, with items of
    [itemsize] bytes, on a 64-bit build: [ValueError] for a negative
    dimension and for an array whose size in bytes exceeds the largest
    [npy_intp], [MemoryError] when the allocator refuses the request (numpy
    asks for one byte at least). *)
Definition allocate `{Memory} (itemsize : Z) (shape : list Z) : outcome unit :=
  if existsb (fun n => n <? 0)%Z shape then Raise ValueError
  else
    let nbytes := (itemsize * fold_right Z.mul 1 shape)%Z in
    if (2 ^ 63 <=? nbytes)%Z then Raise ValueError
    else if grants (Z.max 1 nbytes) then Ok tt
    else Raise MemoryError.

(** An allocator that grants every request. *)
Definition ample : Memory := {| grants := fun _ => true |}.

(* ================================================================== *)
(** * The arithmetic of the kernel *)
(* ================================================================== *)

Class Arith (F : Type) : Type := {
  of_int : Z -> F;               (* <double> n *)
  half : F;                      (* 0.5 *)
  epsilon : F;                   (* 1e-10 *)
  eps32 : F;                     (* numpy.finfo(numpy.float32).eps *)
  eps64 : F;                     (* numpy.finfo(numpy.float64).eps *)
  M_PI : F;                      (* libc.math.M_PI *)
  add : F -> F -> F;
  sub : F -> F -> F;
  mul : F -> F -> F;
  div : F -> F -> F;             (* C division: cdivision(True) *)
  fabs : F -> F;
  lt : F -> F -> bool;           (* a < b *)
  le : F -> F -> bool;           (* a <= b *)
  eq : F -> F -> bool;           (* a == b *)
  floor_int : F -> option Z;     (* <int> floor(x); None where C leaves it undefined *)
  scratch_dim : Z -> Z -> Z      (* <int> (1.5*sqrt(size)/bins) *)
}.

Declare Scope arith_scope.
Delimit Scope arith_scope with A.
Notation "a + b" := (add a b) : arith_scope.
Notation "a - b" := (sub a b) : arith_scope.
Notation "a * b" := (mul a b) : arith_scope.
Notation "a / b" := (div a b) : arith_scope.
Notation "a <? b" := (lt a b) : arith_scope.
Notation "a <=? b" := (le a b) : arith_scope.
Notation "a >? b" := (lt b a) : arith_scope.
Notation "a >=? b" := (le b a) : arith_scope.
Notation "a =? b" := (eq a b) : arith_scope.
Notation "a !=? b" := (negb (eq a b)) (at level 70, no associativity) : arith_scope.
Open Scope arith_scope.

Definition int32_min : Z := - 2 ^ 31.
Definition int32_max : Z := 2 ^ 31 - 1.
Definition fits_int (z : Z) : bool := ((int32_min <=? z) && (z <=? int32_max))%Z.

(** ** Exact rational arithmetic *)

Definition Qlt_bool (a b : Q) : bool := negb (Qle_bool b a).

Definition Qfloor_int (x : Q) : option Z :=
  let z := Qfloor x in if fits_int z then Some z else None.

(** The binary64 value of [M_PI] is 884279719003555 / 2^48. *)
Definition M_PI_Q : Q := 884279719003555 # 281474976710656.

#[global] Instance ArithQ : Arith Q := {|
  of_int := inject_Z;
  half := 1 # 2;
  epsilon := 1 # 10000000000;
  eps32 := 1 # 8388608;
  eps64 := 1 # 4503599627370496;
  M_PI := M_PI_Q;
  add := Qplus;
  sub := Qminus;
  mul := Qmult;
  div := Qdiv;
  fabs := Qabs;
  lt := Qlt_bool;
  le := Qle_bool;
  eq := Qeq_bool;
  floor_int := Qfloor_int;
  scratch_dim := fun size bins => (Z.sqrt (9 * size) / (2 * bins))%Z
|}.

(** ** IEEE-754 binary64 *)

Definition f64_of_int (z : Z) : float :=
  match z with
  | Z0 => 0%float
  | Zpos _ => PrimFloat.of_uint63 (Uint63.of_Z z)
  | Zneg p => PrimFloat.opp (PrimFloat.of_uint63 (Uint63.of_Z (Zpos p)))
  end.

(** The mathematical floor of a finite double. *)
Definition f64_floor (x : float) : option Z :=
  match Prim2SF x with
  | S754_zero _ => Some 0%Z
  | S754_finite s m e =>
      let v := if s then Zneg m else Zpos m in
      Some (if (0 <=? e)%Z then v * 2 ^ e else v / 2 ^ (- e))%Z
  | S754_infinity _ => None
  | S754_nan => None
  end.

Definition f64_floor_int (x : float) : option Z :=
  match f64_floor x with
  | Some z => if fits_int z then Some z else None
  | None => None
  end.

Definition f64_scratch_dim (size bins : Z) : Z :=
  let x := PrimFloat.div
             (PrimFloat.mul 0x1.8p+0%float (PrimFloat.sqrt (f64_of_int size)))
             (f64_of_int bins) in
  match Prim2SF x with
  | S754_finite s m e =>       (* C truncates towards zero *)
      let q := (if (0 <=? e)%Z then Zpos m * 2 ^ e else Zpos m / 2 ^ (- e))%Z in
      if s then (- q)%Z else q
  | _ => 0%Z
  end.

#[global] Instance ArithF64 : Arith float := {|
  of_int := f64_of_int;
  half := 0x1p-1%float;
  epsilon := 0x1.b7cdfd9d7bdbbp-34%float;
  eps32 := 0x1p-23%float;
  eps64 := 0x1p-52%float;
  M_PI := 0x1.921fb54442d18p+1%float;
  add := PrimFloat.add;
  sub := PrimFloat.sub;
  mul := PrimFloat.mul;
  div := PrimFloat.div;
  fabs := PrimFloat.abs;
  lt := PrimFloat.ltb;
  le := PrimFloat.leb;
  eq := PrimFloat.eqb;
  floor_int := f64_floor_int;
  scratch_dim := f64_scratch_dim
|}.

(* ================================================================== *)
(** * Helpers of the kernel *)
(* ================================================================== *)

Section Kernel.

Context {F : Type} `{Arith F}.

Definition zero : F := of_int 0.     (* 0.0 *)
Definition onef : F := of_int 1.     (* cdef double onef = 1.0 *)
Definition pi : F := M_PI.
Definition piover2 : F := pi * half.

(** C promotes the result of a comparison to the int 0 or 1. *)
Definition b2z (b : bool) : Z := if b then 1%Z else 0%Z.

(** [min(a, b, c, d)] and [max(a, b, c, d)] on doubles. *)
Definition min2 (a b : F) : F := if b <? a then b else a.
Definition max2 (a b : F) : F := if b >? a then b else a.
Definition min4 (a b c d : F) : F := min2 (min2 (min2 a b) c) d.
Definition max4 (a b c d : F) : F := max2 (max2 (max2 a b) c) d.

(** [area4]: area of the quadrilateral ABCD, 1/2 * (AC ^ BD). *)
Definition area4 (a0 a1 b0 b1 c0 c1 d0 d1 : F) : F :=
  half * fabs (((c0 - a0) * (d1 - b1)) - ((c1 - a1) * (d0 - b0))).

Record Function : Type := { slope : F; intersect : F }.

(** [integrate]: integral of the line AB from A0 to B0. *)
Definition integrate (A0 B0 : F) (AB : Function) : F :=
  if A0 =? B0 then zero
  else slope AB * (B0 * B0 - A0 * A0) * half + intersect AB * (B0 - A0).

(** [getBinNr]: the (fractional) bin number of a point. *)
Definition getBinNr (x0 pos0_min dpos : F) : F :=
  (x0 - pos0_min) / dpos.

(** [getBin1Nr]: the bin number on the azimuthal axis; [var] is the result
    of [foo] stored in a double, tested by [if var:]. *)
Definition getBin1Nr (x0 pos0_min delta : F) (var : F) : F :=
  if var !=? zero then
    if x0 >=? zero then (x0 - pos0_min) / delta
    else (x0 + of_int 2 * pi - pos0_min) / delta
  else (x0 - pos0_min) / delta.

Record MyPoint : Type := { i_ : F; j_ : F }.

Definition ComputeIntersection0 (S E : MyPoint) (clipEdge : F) : MyPoint :=
  {| i_ := clipEdge;
     j_ := (j_ E - j_ S) * (clipEdge - i_ S) / (i_ E - i_ S) + j_ S |}.

Definition ComputeIntersection1 (S E : MyPoint) (clipEdge : F) : MyPoint :=
  {| i_ := (i_ E - i_ S) * (clipEdge - j_ S) / (j_ E - j_ S) + i_ S;
     j_ := clipEdge |}.

Definition point_and_line (x0 y0 x1 y1 x y : F) : Z :=
  let tmp := (y - y0) * (x1 - x0) - (x - x0) * (y1 - y0) in
  (b2z (tmp >? zero)%A - b2z (tmp <? zero)%A)%Z.

(** [-piover2]. *)
Definition neg_piover2 : F := zero - piover2.

(** [foo]: safeguard for a pixel crossing from -pi to pi. *)
Definition foo (A B C D : F) : bool :=
  ((A >? piover2) && (B >? piover2) && (C <? neg_piover2) && (D <? neg_piover2)) ||
  ((A <? neg_piover2) && (B <? neg_piover2) && (C >? piover2) && (D >? piover2)) ||
  ((A >? piover2) && (B <? neg_piover2) && (C >? piover2) && (D <? neg_piover2)) ||
  ((A <? neg_piover2) && (B >? piover2) && (C <? neg_piover2) && (D >? piover2)) ||
  ((A >? piover2) && (B <? neg_piover2) && (C <? neg_piover2) && (D >? piover2)) ||
  ((A <? neg_piover2) && (B >? piover2) && (C >? piover2) && (D <? neg_piover2)).

End Kernel.

Arguments Function : clear implicits.
Arguments MyPoint : clear implicits.

(* ================================================================== *)
(** * Arrays *)
(* ================================================================== *)

(** [l[n] = v] on an index inside the array. *)
Fixpoint upd {A : Type} (n : nat) (v : A) (l : list A) : list A :=
  match l, n with
  | [], _ => []
  | _ :: t, O => v :: t
  | x :: t, S n' => x :: upd n' v t
  end.

Definition in_bounds (k len : Z) : bool := ((0 <=? k) && (k <? len))%Z.

(** The array of [n] items equal to [v]. *)
Definition full {A : Type} (n : Z) (v : A) : list A := repeat v (Z.to_nat n).

(** A two-dimensional numpy array, as the list of its rows. *)
Definition array2 (A : Type) : Type := list (list A).

(** The array of [n0] rows of [n1] items equal to [v]. *)
Definition full2 {A : Type} (n0 n1 : Z) (v : A) : array2 A :=
  repeat (repeat v (Z.to_nat n1)) (Z.to_nat n0).

(** [numpy.zeros((n0, n1), dtype=numpy.int8)] *)
Definition zeros2_int8 `{Memory} (n0 n1 : Z) : outcome (array2 Z) :=
  _ <- allocate 1 [n0; n1] ;;
  Ok (full2 n0 n1 0%Z).

Definition rows {A : Type} (a : array2 A) : Z := Z.of_nat (length a).
Definition cols {A : Type} (a : array2 A) : Z :=
  match a with [] => 0%Z | r :: _ => Z.of_nat (length r) end.

(** [a[i, j]] with [boundscheck(False)] and [wraparound(False)]: defined
    only for [0 <= i < rows] and [0 <= j < cols]. *)
Definition get2 {A : Type} (a : array2 A) (i j : Z) (dflt : A) : outcome A :=
  if in_bounds i (rows a) && in_bounds j (cols a)
  then Ok (nth (Z.to_nat j) (nth (Z.to_nat i) a []) dflt)
  else Undefined OutOfBounds.

(** [a[i, j] = v] *)
Definition set2 {A : Type} (a : array2 A) (i j : Z) (v : A) : outcome (array2 A) :=
  if in_bounds i (rows a) && in_bounds j (cols a)
  then Ok (upd (Z.to_nat i) (upd (Z.to_nat j) v (nth (Z.to_nat i) a [])) a)
  else Undefined OutOfBounds.

(* ================================================================== *)
(** * Inputs and outputs *)
(* ================================================================== *)

(** [pos] after [pos.reshape((-1, 4, 2))]: one entry per pixel, four corners
    A, B, C, D, each a pair (pos0, pos1).  The assertions on [pos.shape[1]],
    [pos.shape[2]] and [pos.ndim] hold by typing. *)
Record corner (F : Type) : Type := { c0 : F; c1 : F }.
Record pixel (F : Type) : Type :=
  { cornerA : corner F; cornerB : corner F; cornerC : corner F; cornerD : corner F }.

(** The optional arguments; [None] is Python's [None].  [mask] is the int8
    array the docstring asks for. *)
Record options (F : Type) : Type := {
  pos0Range : option (list F);
  pos1Range : option (list F);
  dummy : option F;
  delta_dummy : option F;
  mask : option (list Z);
  dark : option (list F);
  flat : option (list F);
  solidangle : option (list F);
  polarization : option (list F)
}.

(** One accumulation of the pixel loop:
    [outCount[bin] += dcount; outData[bin] += ddata]. *)
Record deposit (F : Type) : Type := { bin : Z; dcount : F; ddata : F }.

(** The same for the 2D arrays, at [bin0, bin1]. *)
Record deposit2 (F : Type) : Type :=
  { dbin0 : Z; dbin1 : Z; dcount2 : F; ddata2 : F }.

Section Common.

Context {F : Type} `{Arith F} {M : Memory}.

(** ** Arrays *)

(** [a[k] += v] with [boundscheck(False)] and [wraparound(False)]. *)
Definition add_at (a : list F) (k : Z) (v : F) : outcome (list F) :=
  if in_bounds k (Z.of_nat (length a))
  then Ok (upd (Z.to_nat k) (nth (Z.to_nat k) a zero + v) a)
  else Undefined OutOfBounds.

(** [numpy.zeros(n, dtype=numpy.float64)] *)
Definition zeros (n : Z) : outcome (list F) :=
  _ <- allocate 8 [n] ;;
  Ok (full n zero).

(** [numpy.zeros((n0, n1), dtype=numpy.float64)] *)
Definition zeros2 (n0 n1 : Z) : outcome (array2 F) :=
  _ <- allocate 8 [n0; n1] ;;
  Ok (full2 n0 n1 zero).

(** [numpy.linspace(start, stop, num)]: for [num > 1] the samples
    [k*step + start] with [step = (stop - start) / (num - 1)], the last one
    set to [stop]; a single sample is [0*(stop - start) + start]. *)
Definition linspace (start stop : F) (num : Z) : list F :=
  let div_ := (num - 1)%Z in
  let delta := stop - start in
  map (fun k =>
         if (0 <? div_)%Z then
           if (k =? num - 1)%Z then stop
           else of_int k * (delta / of_int div_) + start
         else of_int k * delta + start)
      (zrange 0 num).

(** ** Ranges *)

Definition seq_min (l : list F) : option F :=
  match l with [] => None | x :: t => Some (fold_left min2 t x) end.
Definition seq_max (l : list F) : option F :=
  match l with [] => None | x :: t => Some (fold_left max2 t x) end.

(** [pos[:, :, 0]] and [pos[:, :, 1]], flattened. *)
Definition column (sel : corner F -> F) (pos : list (pixel F)) : list F :=
  flat_map (fun p => [sel (cornerA p); sel (cornerB p); sel (cornerC p); sel (cornerD p)]) pos.

(** The (minimum, inclusive maximum) of an axis: from the range argument
    when it has at least two elements, from the data otherwise; [given]
    tells which.  The minimum of an empty array raises [ValueError]. *)
Definition axis_range (r : option (list F)) (sel : corner F -> F) (pos : list (pixel F))
  : outcome (F * F * bool) :=
  let from_data :=
    match seq_min (column sel pos), seq_max (column sel pos) with
    | Some lo, Some hi => Ok (lo, hi, false)
    | _, _ => Raise ValueError
    end in
  match r with
  | Some l =>
      if (1 <? length l)%nat then
        match seq_min l, seq_max l with
        | Some lo, Some hi => Ok (lo, hi, true)
        | _, _ => Raise ValueError
        end
      else from_data
  | None => from_data
  end.

(** The range locals of both entry points.  [eps] is
    [numpy.finfo(numpy.float32).eps] in [fullSplit1D] and
    [numpy.finfo(numpy.float64).eps] in [fullSplit2D]. *)
Record bounds : Type := {
  pos0_min : F; pos0_maxin : F; pos0_max : F;
  pos1_min : F; pos1_maxin : F; pos1_max : F;
  do_pos1 : bool
}.

Definition ranges (eps : F) (pos : list (pixel F)) (o : options F) : outcome bounds :=
  '(lo0, hi0, _) <- axis_range (pos0Range o) (@c0 F) pos ;;
  '(lo1, hi1, given1) <- axis_range (pos1Range o) (@c1 F) pos ;;
  Ok {| pos0_min := lo0; pos0_maxin := hi0; pos0_max := hi0 * (onef + eps);
        pos1_min := lo1; pos1_maxin := hi1; pos1_max := hi1 * (onef + eps);
        do_pos1 := given1 |}.

(** [dpos = (pos0_max - pos0_min) / (<double> bins)] *)
Definition bin_width (lo hi : F) (bins : Z) : F := (hi - lo) / of_int bins.

(** The bin centres: [numpy.linspace(pos_min + 0.5 * delta,
    pos_maxin - 0.5 * delta, bins)]. *)
Definition centers (lo hi_in delta : F) (bins : Z) : list F :=
  linspace (lo + half * delta) (hi_in - half * delta) bins.

(** ** Dummy, mask and corrections *)

(** (check_dummy, cdummy, cddummy) *)
Definition dummy_setup (o : options F) : bool * F * F :=
  match dummy o, delta_dummy o with
  | Some d, Some dd => (true, d, dd)
  | Some d, None => (true, d, zero)
  | None, _ => (false, zero, zero)
  end.

(** [assert a.size == size] for an optional array. *)
Definition assert_size {A : Type} (a : option (list A)) (size : nat) : outcome unit :=
  match a with
  | Some l => assert (length l =? size)%nat
  | None => Ok tt
  end.

(** [(check_mask) and (cmask[idx])] *)
Definition masked (o : options F) (idx : nat) : bool :=
  match mask o with
  | Some cmask => negb (nth idx cmask 0 =? 0)%Z
  | None => false
  end.

(** [check_dummy and ((cddummy == 0.0 and data == cdummy) or
     (cddummy != 0.0 and fabs(data - cdummy) <= cddummy))] *)
Definition dummy_match (d : bool * F * F) (data : F) : bool :=
  let '(check_dummy, cdummy, cddummy) := d in
  check_dummy &&
  (((cddummy =? zero) && (data =? cdummy)) ||
   ((cddummy !=? zero) && (fabs (data - cdummy) <=? cddummy))).

(** The per-pixel corrections, in the order of the source. *)
Definition corrected (o : options F) (idx : nat) (data : F) : F :=
  let data := match dark o with Some cdark => data - nth idx cdark zero | None => data end in
  let data := match flat o with Some cflat => data / nth idx cflat zero | None => data end in
  let data := match polarization o with
              | Some cpol => data / nth idx cpol zero | None => data end in
  match solidangle o with Some csa => data / nth idx csa zero | None => data end.

(** [<int> floor(x)] *)
Definition to_int (x : F) : outcome Z :=
  match floor_int x with
  | Some z => Ok z
  | None => Undefined IntCast
  end.

(** ** The line-integral scheme shared by the 1D code and its 2D copies *)

(** The line through (A0, A1) and (B0, B1) as [slope], [intersect]. *)
Definition line_through (A0 A1 B0 B1 : F) : Function F :=
  let s := (B1 - A1) / (B0 - A0) in
  {| slope := s; intersect := A1 - s * A0 |}.

(** [(A0<=bin0)*(A0<=(bin0+1))*bin0 + (A0>bin0)*(A0<=(bin0+1))*A0
     + (A0>bin0)*(A0>(bin0+1))*(bin0+1)] *)
Definition lim (A0 : F) (bin0 : Z) : F :=
  let le_lo := b2z (A0 <=? of_int bin0) in
  let gt_lo := b2z (A0 >? of_int bin0) in
  let le_hi := b2z (A0 <=? of_int (bin0 + 1)) in
  let gt_hi := b2z (A0 >? of_int (bin0 + 1)) in
  of_int (le_lo * le_hi * bin0) + of_int (gt_lo * le_hi) * A0
  + of_int (gt_lo * gt_hi * (bin0 + 1)).

(** The signed area of the pixel inside column [bin0] (local index). *)
Definition partial_area (A0 B0 C0 D0 : F) (AB BC CD DA : Function F) (bin0 : Z) : F :=
  let A_lim := lim A0 bin0 in
  let B_lim := lim B0 bin0 in
  let C_lim := lim C0 bin0 in
  let D_lim := lim D0 bin0 in
  integrate A_lim B_lim AB + integrate B_lim C_lim BC
  + integrate C_lim D_lim CD + integrate D_lim A_lim DA.

End Common.

Arguments bounds : clear implicits.

(* ================================================================== *)
(** * [fullSplit1D] *)
(* ================================================================== *)

Section FullSplit1D.

Context {F : Type} `{Arith F} {M : Memory}.

Definition default_corner : corner F := {| c0 := zero; c1 := zero |}.
Definition default_pixel : pixel F :=
  {| cornerA := default_corner; cornerB := default_corner;
     cornerC := default_corner; cornerD := default_corner |}.

(** The two [continue] tests that open the body of the 1D pixel loop: the
    mask first, then the dummy value. *)
Definition skip1D (o : options F) (cdata : list F) (idx : nat) : bool :=
  if masked o idx then true
  else
    let data := nth idx cdata zero in
    if dummy_match (dummy_setup o) data then true else false.

(** The accumulations of the split path, for the translated corners. *)
Definition split1D (A0 A1 B0 B1 C0 C1 D0 D1 : F) (data : F) (bin0_min bin0_max : Z)
  : list (deposit F) :=
  let AB := line_through A0 A1 B0 B1 in
  let BC := line_through B0 B1 C0 C1 in
  let CD := line_through C0 C1 D0 D1 in
  let DA := line_through D0 D1 A0 A1 in
  let areaPixel := area4 A0 A1 B0 B1 C0 C1 D0 D1 in
  let oneOverPixelArea := onef / areaPixel in
  map (fun bin =>
         let bin0 := (bin - bin0_min)%Z in
         let partialArea := partial_area A0 B0 C0 D0 AB BC CD DA bin0 in
         let tmp := fabs partialArea * oneOverPixelArea in
         {| bin := bin; dcount := tmp; ddata := data * tmp |})
      (zrange bin0_min (bin0_max + 1)).

(** The body of the pixel loop, as the list of accumulations it performs. *)
Definition pixel1D (o : options F) (cdata : list F) (cpos : list (pixel F))
    (bins : Z) (pos0_min dpos : F) (check_pos1 : bool) (pos1_min pos1_maxin : F)
    (idx : nat) : outcome (list (deposit F)) :=
  if skip1D o cdata idx then Ok [] else
  let data := nth idx cdata zero in
  let p := nth idx cpos default_pixel in
  let A0 := getBinNr (c0 (cornerA p)) pos0_min dpos in
  let A1 := c1 (cornerA p) in
  let B0 := getBinNr (c0 (cornerB p)) pos0_min dpos in
  let B1 := c1 (cornerB p) in
  let C0 := getBinNr (c0 (cornerC p)) pos0_min dpos in
  let C1 := c1 (cornerC p) in
  let D0 := getBinNr (c0 (cornerD p)) pos0_min dpos in
  let D1 := c1 (cornerD p) in
  let min0 := min4 A0 B0 C0 D0 in
  let max0 := max4 A0 B0 C0 D0 in
  if (max0 <? zero) || (min0 >=? of_int bins) then Ok [] else
  if check_pos1 &&
     (let min1 := min4 A1 B1 C1 D1 in
      let max1 := max4 A1 B1 C1 D1 in
      (max1 <? pos1_min) || (min1 >? pos1_maxin))
  then Ok [] else
  let data := corrected o idx data in
  bin0_min <- to_int min0 ;;
  bin0_max <- to_int max0 ;;
  if (bin0_min =? bin0_max)%Z then
    (* All pixel is within a single bin *)
    Ok [ {| bin := bin0_min; dcount := onef; ddata := data |} ]
  else
    let A0 := A0 - of_int bin0_min in
    let B0 := B0 - of_int bin0_min in
    let C0 := C0 - of_int bin0_min in
    let D0 := D0 - of_int bin0_min in
    Ok (split1D A0 A1 B0 B1 C0 C1 D0 D1 data bin0_min bin0_max).

(** [outCount[bin] += tmp; outData[bin] += data * tmp] *)
Definition accumulate (acc : list F * list F) (d : deposit F) : outcome (list F * list F) :=
  let '(outCount, outData) := acc in
  outCount <- add_at outCount (bin d) (dcount d) ;;
  outData <- add_at outData (bin d) (ddata d) ;;
  Ok (outCount, outData).

(** The final loop: [outMerge[i] = outData[i] / outCount[i]] where
    [outCount[i] > epsilon], [cdummy] elsewhere. *)
Definition merge (bins : Z) (outData outCount : list F) (cdummy : F) (outMerge : list F)
  : list F :=
  fold_left
    (fun outMerge i =>
       if nth i outCount zero >? epsilon
       then upd i (nth i outData zero / nth i outCount zero) outMerge
       else upd i cdummy outMerge)
    (seq 0 (Z.to_nat bins)) outMerge.

(** [fullSplit1D(pos, weights, bins, pos0Range, ..., polarization)], returning
    [(outPos, outMerge, outData, outCount)]. *)
Definition fullSplit1D (pos : list (pixel F)) (weights : list F) (bins : Z)
    (o : options F) : outcome (list F * list F * list F * list F) :=
  (* size_t bins *)
  if ((bins <? 0) || (2 ^ 64 <=? bins))%Z then Raise OverflowError else
  let size := length weights in
  _ <- assert (length pos =? size)%nat ;;
  _ <- assert (1 <? bins)%Z ;;
  let cpos := pos in
  let cdata := weights in
  outData <- zeros bins ;;
  outCount <- zeros bins ;;
  outMerge <- zeros bins ;;
  let check_pos1 := false in      (* never assigned: the source sets do_pos1 *)
  r <- ranges eps32 pos o ;;
  let dpos := bin_width (pos0_min r) (pos0_max r) bins in
  let outPos := centers (pos0_min r) (pos0_maxin r) dpos bins in
  let '(check_dummy, cdummy, cddummy) := dummy_setup o in
  _ <- assert_size (mask o) size ;;
  _ <- assert_size (dark o) size ;;
  _ <- assert_size (flat o) size ;;
  _ <- assert_size (polarization o) size ;;
  _ <- assert_size (solidangle o) size ;;
  '(outCount, outData) <-
     for_each
       (fun acc idx =>
          ds <- pixel1D o cdata cpos bins (pos0_min r) dpos check_pos1
                        (pos1_min r) (pos1_maxin r) idx ;;
          for_each accumulate ds acc)
       (seq 0 size) (outCount, outData) ;;
  let outMerge := merge bins outData outCount cdummy outMerge in
  Ok (outPos, outMerge, outData, outCount).

End FullSplit1D.


(* ================================================================== *)
(** * [fullSplit2D] *)
(* ================================================================== *)

(** The [bins] argument: a 2-tuple of ints or one int. *)
Inductive bins_arg : Type :=
| BinsPair (b0 b1 : Z)
| BinsInt (b : Z).

(** [try: all_bins0, all_bins1 = tuple(bins)
     except: all_bins0 = all_bins1 = <int> bins]: a tuple whose entries do
    not fit a C int ends in [<int>] of a tuple. *)
Definition parse_bins (b : bins_arg) : outcome (Z * Z) :=
  match b with
  | BinsPair b0 b1 => if fits_int b0 && fits_int b1 then Ok (b0, b1) else Raise TypeError
  | BinsInt b => if fits_int b then Ok (b, b) else Raise OverflowError
  end.

(** [if all_bins0 <= 0: all_bins0 = 1] *)
Definition at_least_one (all_bins : Z) : Z :=
  if (all_bins <=? 0)%Z then 1%Z else all_bins.

Section FullSplit2D.

Context {F : Type} `{Arith F} {M : Memory}.

(** The two [continue] tests that open the body of the 2D pixel loop: the
    dummy value first, then the mask. *)
Definition skip2D (o : options F) (cdata : list F) (idx : nat) : bool :=
  let data := nth idx cdata zero in
  if dummy_match (dummy_setup o) data then true
  else if masked o idx then true else false.

(** ** Polygons ([MyPoly]: a size and eight points) *)

Definition default_point : MyPoint F := {| i_ := zero; j_ := zero |}.

(** [list.data[list.size] = p; list.size += 1] *)
Definition push (l : list (MyPoint F)) (p : MyPoint F) : outcome (list (MyPoint F)) :=
  if (length l <? 8)%nat then Ok (l ++ [p]) else Undefined PolyOverflow.

(** One Sutherland-Hodgman pass.  [inE E] is the test of the [if],
    [outS S] the nested test and [inS S] the test of the [elif]; [S] starts
    as the last point of the input (unused when the input is empty). *)
Definition clip (inE outS inS : MyPoint F -> bool) (inter : MyPoint F -> MyPoint F -> MyPoint F)
    (list1 : list (MyPoint F)) : outcome (list (MyPoint F)) :=
  r <- for_each
         (fun (st : list (MyPoint F) * MyPoint F) E =>
            let list2 := fst st in
            let S := snd st in
            list2 <- (if inE E then
                        list2 <- (if outS S then push list2 (inter S E) else Ok list2) ;;
                        push list2 E
                      else if inS S then push list2 (inter S E)
                      else Ok list2) ;;
            Ok (list2, E))
         list1 ([], last list1 default_point) ;;
  Ok (fst r).

(** The four passes against the cell [i, i+1] x [j, j+1]. *)
Definition clip_cell (A B C D : MyPoint F) (i j : Z) : outcome (list (MyPoint F)) :=
  let list1 := [A; B; C; D] in
  list2 <- clip (fun E => i_ E >? of_int i) (fun S => i_ S <=? of_int i)
                (fun S => i_ S >? of_int i)
                (fun S E => ComputeIntersection0 S E (of_int i)) list1 ;;
  (* y = b+1 *)
  list1 <- clip (fun E => j_ E <? of_int (j + 1)) (fun S => j_ S >=? of_int (j + 1))
                (fun S => j_ S <? of_int (j + 1))
                (fun S E => ComputeIntersection1 S E (of_int (j + 1))) list2 ;;
  (* x = a+1 *)
  list2 <- clip (fun E => i_ E <? of_int (i + 1)) (fun S => i_ S >=? of_int (i + 1))
                (fun S => i_ S <? of_int (i + 1))
                (fun S E => ComputeIntersection0 S E (of_int (i + 1))) list1 ;;
  (* y = b *)
  clip (fun E => j_ E >? of_int j) (fun S => j_ S <=? of_int j)
       (fun S => j_ S >? of_int j)
       (fun S E => ComputeIntersection1 S E (of_int j)) list2.

(** [area_n]: the shoelace formula the source unrolls for 3 to 8 points
    (the products [x_k * y_(k+1)] added in order, then the products
    [x_(k+1) * y_k] subtracted in order); no [return] for other sizes. *)
Definition area_n (poly : list (MyPoint F)) : F :=
  if ((3 <=? length poly) && (length poly <=? 8))%nat then
    let pairs := combine poly (tl poly ++ [hd default_point poly]) in
    match pairs with
    | [] => zero
    | (p, q) :: rest =>
        let s := fold_left (fun acc pq => acc + i_ (fst pq) * j_ (snd pq))
                           rest (i_ p * j_ q) in
        let s := fold_left (fun acc pq => acc - i_ (snd pq) * j_ (fst pq)) pairs s in
        half * fabs s
    end
  else zero.

(** ** The paths of the pixel loop *)

Definition mk_deposit2 (b0 b1 : Z) (w d : F) : deposit2 F :=
  {| dbin0 := b0; dbin1 := b1; dcount2 := w; ddata2 := d |}.

(** Single column of [pos0]: the transpose of the 1D code. *)
Definition split2D_column (A0 A1 B0 B1 C0 C1 D0 D1 : F) (data : F)
    (bin0_min bin1_min bin1_max : Z) : list (deposit2 F) :=
  let AB := line_through A1 A0 B1 B0 in
  let BC := line_through B1 B0 C1 C0 in
  let CD := line_through C1 C0 D1 D0 in
  let DA := line_through D1 D0 A1 A0 in
  let areaPixel := area4 A0 A1 B0 B1 C0 C1 D0 D1 in
  let oneOverPixelArea := onef / areaPixel in
  map (fun bin1 =>
         let partialArea := partial_area A1 B1 C1 D1 AB BC CD DA bin1 in
         let partialArea := fabs partialArea * oneOverPixelArea in
         mk_deposit2 bin0_min (bin1_min + bin1) partialArea (partialArea * data))
      (zrange 0 (bin1_max + 1 - bin1_min)).

(** Single row of [pos1]: the 1D code. *)
Definition split2D_row (A0 A1 B0 B1 C0 C1 D0 D1 : F) (data : F)
    (bin0_min bin0_max bin1_min : Z) : list (deposit2 F) :=
  let AB := line_through A0 A1 B0 B1 in
  let BC := line_through B0 B1 C0 C1 in
  let CD := line_through C0 C1 D0 D1 in
  let DA := line_through D0 D1 A0 A1 in
  let areaPixel := area4 A0 A1 B0 B1 C0 C1 D0 D1 in
  let oneOverPixelArea := onef / areaPixel in
  map (fun bin0 =>
         let partialArea := partial_area A0 B0 C0 D0 AB BC CD DA bin0 in
         let partialArea := fabs partialArea * oneOverPixelArea in
         mk_deposit2 (bin0_min + bin0) bin1_min partialArea (partialArea * data))
      (zrange 0 (bin0_max + 1 - bin0_min)).

(** The first double loop of the general path: the lattice points inside
    the pixel, the perimeter skipped. *)
Definition mark_inside (A0 A1 B0 B1 C0 C1 D0 D1 : F) (bins0 bins1 : Z)
    (is_inside : array2 Z) : outcome (array2 Z) :=
  for_each
    (fun is_inside i =>
       for_each
         (fun is_inside j =>
            let tmp_i := point_and_line A0 A1 B0 B1 (of_int i) (of_int j) in
            let tmp_i := (tmp_i + point_and_line B0 B1 C0 C1 (of_int i) (of_int j))%Z in
            let tmp_i := (tmp_i + point_and_line C0 C1 D0 D1 (of_int i) (of_int j))%Z in
            let tmp_i := (tmp_i + point_and_line D0 D1 A0 A1 (of_int i) (of_int j))%Z in
            set2 is_inside i j (Z.quot (Z.abs tmp_i) 4))
         (zrange 1 bins1) is_inside)
    (zrange 1 bins0) is_inside.

(** The general path, for the translated corners. *)
Definition split2D_general (A0 A1 B0 B1 C0 C1 D0 D1 : F) (data : F)
    (bin0_min bin1_min bins0 bins1 : Z) (is_inside : array2 Z)
  : outcome (list (deposit2 F) * array2 Z) :=
  let areaPixel := area4 A0 A1 B0 B1 C0 C1 D0 D1 in
  let oneOverPixelArea := onef / areaPixel in
  is_inside <- mark_inside A0 A1 B0 B1 C0 C1 D0 D1 bins0 bins1 is_inside ;;
  ds <- for_each
          (fun ds i =>
             for_each
               (fun ds j =>
                  t00 <- get2 is_inside i j 0%Z ;;
                  t01 <- get2 is_inside i (j + 1) 0%Z ;;
                  t10 <- get2 is_inside (i + 1) j 0%Z ;;
                  t11 <- get2 is_inside (i + 1) (j + 1) 0%Z ;;
                  let tmp_i := (t00 + t01 + t10 + t11)%Z in
                  if (tmp_i =? 4)%Z then
                    Ok (ds ++ [mk_deposit2 (bin0_min + i) (bin1_min + j)
                                 oneOverPixelArea (oneOverPixelArea * data)])
                  else if ((tmp_i =? 1) || (tmp_i =? 2) || (tmp_i =? 3))%Z then
                    let A := {| i_ := A0; j_ := A1 |} in
                    let B := {| i_ := B0; j_ := B1 |} in
                    let C := {| i_ := C0; j_ := C1 |} in
                    let D := {| i_ := D0; j_ := D1 |} in
                    list1 <- clip_cell A B C D i j ;;
                    let partialArea := area_n list1 in
                    let partialArea := fabs partialArea * oneOverPixelArea in
                    Ok (ds ++ [mk_deposit2 (bin0_min + i) (bin1_min + j)
                                 partialArea (partialArea * data)])
                  else Ok ds)
               (zrange 0 bins1) ds)
          (zrange 0 bins0) [] ;;
  Ok (ds, is_inside).

(** [var = foo(cpos[idx, 0, 1], cpos[idx, 1, 1], cpos[idx, 2, 1], cpos[idx, 3, 1])],
    an int stored in a double. *)
Definition wrap_var (p : pixel F) : F :=
  of_int (b2z (foo (c1 (cornerA p)) (c1 (cornerB p)) (c1 (cornerC p)) (c1 (cornerD p)))).

(** The body of the pixel loop: the accumulations it performs and the
    scratch array [is_inside] it leaves. *)
Definition pixel2D (o : options F) (cdata : list F) (cpos : list (pixel F))
    (all_bins0 all_bins1 : Z) (pos0_min delta0 pos1_min delta1 : F)
    (is_inside : array2 Z) (idx : nat) : outcome (list (deposit2 F) * array2 Z) :=
  if skip2D o cdata idx then Ok ([], is_inside) else
  let data := nth idx cdata zero in
  let p := nth idx cpos default_pixel in
  let A0 := getBinNr (c0 (cornerA p)) pos0_min delta0 in
  let B0 := getBinNr (c0 (cornerB p)) pos0_min delta0 in
  let C0 := getBinNr (c0 (cornerC p)) pos0_min delta0 in
  let D0 := getBinNr (c0 (cornerD p)) pos0_min delta0 in
  let var := wrap_var p in
  let A1 := getBin1Nr (c1 (cornerA p)) pos1_min delta1 var in
  let B1 := getBin1Nr (c1 (cornerB p)) pos1_min delta1 var in
  let C1 := getBin1Nr (c1 (cornerC p)) pos1_min delta1 var in
  let D1 := getBin1Nr (c1 (cornerD p)) pos1_min delta1 var in
  let min0 := min4 A0 B0 C0 D0 in
  let max0 := max4 A0 B0 C0 D0 in
  let min1 := min4 A1 B1 C1 D1 in
  let max1 := max4 A1 B1 C1 D1 in
  if (max0 <? zero) || (min0 >=? of_int all_bins0) || (max1 <? zero)
  then Ok ([], is_inside) else
  let data := corrected o idx data in
  bin0_min <- to_int min0 ;;
  bin0_max <- to_int max0 ;;
  bin1_min <- to_int min1 ;;
  bin1_max <- to_int max1 ;;
  if (bin0_min =? bin0_max)%Z then
    if (bin1_min =? bin1_max)%Z then
      (* Whole pixel is within a single bin *)
      Ok ([mk_deposit2 bin0_min bin1_min onef data], is_inside)
    else
      let A1 := A1 - of_int bin1_min in
      let B1 := B1 - of_int bin1_min in
      let C1 := C1 - of_int bin1_min in
      let D1 := D1 - of_int bin1_min in
      Ok (split2D_column A0 A1 B0 B1 C0 C1 D0 D1 data bin0_min bin1_min bin1_max,
          is_inside)
  else if (bin1_min =? bin1_max)%Z then
    let A0 := A0 - of_int bin0_min in
    let B0 := B0 - of_int bin0_min in
    let C0 := C0 - of_int bin0_min in
    let D0 := D0 - of_int bin0_min in
    Ok (split2D_row A0 A1 B0 B1 C0 C1 D0 D1 data bin0_min bin0_max bin1_min,
        is_inside)
  else
    let bins0 := (bin0_max - bin0_min + 1)%Z in
    let bins1 := (bin1_max - bin1_min + 1)%Z in
    let A0 := A0 - of_int bin0_min in
    let A1 := A1 - of_int bin1_min in
    let B0 := B0 - of_int bin0_min in
    let B1 := B1 - of_int bin1_min in
    let C0 := C0 - of_int bin0_min in
    let C1 := C1 - of_int bin1_min in
    let D0 := D0 - of_int bin0_min in
    let D1 := D1 - of_int bin1_min in
    split2D_general A0 A1 B0 B1 C0 C1 D0 D1 data bin0_min bin1_min bins0 bins1 is_inside.

(** [a[i, j] += v] *)
Definition add_at2 (a : array2 F) (i j : Z) (v : F) : outcome (array2 F) :=
  x <- get2 a i j zero ;;
  set2 a i j (x + v).

Definition accumulate2 (acc : array2 F * array2 F) (d : deposit2 F)
  : outcome (array2 F * array2 F) :=
  let '(outCount, outData) := acc in
  outCount <- add_at2 outCount (dbin0 d) (dbin1 d) (dcount2 d) ;;
  outData <- add_at2 outData (dbin0 d) (dbin1 d) (ddata2 d) ;;
  Ok (outCount, outData).

(** The final double loop. *)
Definition merge2 (all_bins0 all_bins1 : Z) (outData outCount : array2 F) (cdummy : F)
    (outMerge : array2 F) : array2 F :=
  fold_left
    (fun outMerge i =>
       upd i (merge all_bins1 (nth i outData []) (nth i outCount []) cdummy
                    (nth i outMerge []))
           outMerge)
    (seq 0 (Z.to_nat all_bins0)) outMerge.

(** [fullSplit2D(pos, weights, bins, pos0Range, ..., polarization)], returning
    [(outMerge, edges0, edges1, outData, outCount)]. *)
Definition fullSplit2D (pos : list (pixel F)) (weights : list F) (bins : bins_arg)
    (o : options F)
  : outcome (array2 F * list F * list F * array2 F * array2 F) :=
  let size := length weights in
  _ <- assert (length pos =? size)%nat ;;
  '(all_bins0, all_bins1) <- parse_bins bins ;;
  let all_bins0 := at_least_one all_bins0 in
  let all_bins1 := at_least_one all_bins1 in
  let cpos := pos in
  let cdata := weights in
  outData <- zeros2 all_bins0 all_bins1 ;;
  outCount <- zeros2 all_bins0 all_bins1 ;;
  outMerge <- zeros2 all_bins0 all_bins1 ;;
  edges0 <- zeros all_bins0 ;;
  edges1 <- zeros all_bins1 ;;
  r <- ranges eps64 pos o ;;
  let delta0 := bin_width (pos0_min r) (pos0_max r) all_bins0 in
  let delta1 := bin_width (pos1_min r) (pos1_max r) all_bins1 in
  let edges0 := centers (pos0_min r) (pos0_maxin r) delta0 all_bins0 in
  let edges1 := centers (pos1_min r) (pos1_maxin r) delta1 all_bins1 in
  is_inside <- zeros2_int8 (scratch_dim (Z.of_nat size) all_bins0)
                           (scratch_dim (Z.of_nat size) all_bins1) ;;
  let '(check_dummy, cdummy, cddummy) := dummy_setup o in
  _ <- assert_size (mask o) size ;;
  _ <- assert_size (dark o) size ;;
  _ <- assert_size (flat o) size ;;
  _ <- assert_size (polarization o) size ;;
  _ <- assert_size (solidangle o) size ;;
  '(outCount, outData, _) <-
     for_each
       (fun (st : array2 F * array2 F * array2 Z) idx =>
          let '(outCount, outData, is_inside) := st in
          '(ds, is_inside) <- pixel2D o cdata cpos all_bins0 all_bins1
                                      (pos0_min r) delta0 (pos1_min r) delta1
                                      is_inside idx ;;
          '(outCount, outData) <- for_each accumulate2 ds (outCount, outData) ;;
          Ok (outCount, outData, is_inside))
       (seq 0 size) (outCount, outData, is_inside) ;;
  let outMerge := merge2 all_bins0 all_bins1 outData outCount cdummy outMerge in
  Ok (outMerge, edges0, edges1, outData, outCount).

End FullSplit2D.

Close Scope arith_scope.
Unset Implicit Arguments.

(* ================================================================== *)
(** * The vocabulary of the properties *)
(* ================================================================== *)

Section Vocabulary.

Context {F : Type} `{Arith F} {M : Memory}.

(** What the final loop stores in a bin. *)
Definition merged (outData outCount : list F) (cdummy : F) (i : nat) : F :=
  if (nth i outCount zero >? epsilon)%A
  then (nth i outData zero / nth i outCount zero)%A
  else cdummy.

(** [cdummy]: the dummy value, 0 when none was supplied. *)
Definition cdummy_of (o : options F) : F :=
  match dummy o with Some d => d | None => zero end.

(** The skip predicate in the words of the specification: the mask is
    enabled and nonzero at the pixel, or the dummy is enabled and the
    intensity [I] matches it (exactly for a zero [delta_dummy], within
    [delta_dummy] otherwise; an absent [delta_dummy] is 0). *)
Definition skip_pixel (o : options F) (weights : list F) (idx : nat) : bool :=
  let mask_hit :=
    match mask o with
    | Some m => negb (nth idx m 0 =? 0)%Z
    | None => false
    end in
  let dummy_hit :=
    match dummy o with
    | Some dmy =>
        let delta := match delta_dummy o with Some dd => dd | None => zero end in
        let I := nth idx weights zero in
        ((delta =? zero) && (I =? dmy) || (delta !=? zero) && (fabs (I - dmy) <=? delta))%A
    | None => false
    end in
  mask_hit || dummy_hit.

(** The outcome is a result or undefined behaviour, not an exception. *)
Definition no_raise {A : Type} (m : outcome A) : Prop := forall e, m <> Raise e.

(** The other arguments are well formed: one intensity per pixel, optional
    arrays of the same size, and ranges that can be computed. *)
Definition well_shaped (eps : F) (pos : list (pixel F)) (weights : list F)
    (o : options F) : Prop :=
  length pos = length weights /\
  (exists r, ranges eps pos o = Ok r) /\
  no_raise (assert_size (mask o) (length weights)) /\
  no_raise (assert_size (dark o) (length weights)) /\
  no_raise (assert_size (flat o) (length weights)) /\
  no_raise (assert_size (polarization o) (length weights)) /\
  no_raise (assert_size (solidangle o) (length weights)).

(** The pixel passes the [continue] tests of the 1D loop: it is neither
    masked nor a dummy, and its bounding box meets the bins. *)
Definition accepted1D (pos : list (pixel F)) (weights : list F) (bins : Z)
    (o : options F) (r : bounds F) (idx : nat) : bool :=
  let p := nth idx pos default_pixel in
  let dpos := bin_width (pos0_min r) (pos0_max r) bins in
  let A0 := getBinNr (c0 (cornerA p)) (pos0_min r) dpos in
  let B0 := getBinNr (c0 (cornerB p)) (pos0_min r) dpos in
  let C0 := getBinNr (c0 (cornerC p)) (pos0_min r) dpos in
  let D0 := getBinNr (c0 (cornerD p)) (pos0_min r) dpos in
  negb (skip1D o weights idx) &&
  negb ((max4 A0 B0 C0 D0 <? zero) || (min4 A0 B0 C0 D0 >=? of_int bins))%A.

(** The body of the pixel loop of [fullSplit1D], for the range locals [r]. *)
Definition step1D (pos : list (pixel F)) (weights : list F) (bins : Z) (o : options F)
    (r : bounds F) (acc : list F * list F) (idx : nat) : outcome (list F * list F) :=
  ds <- pixel1D o weights pos bins (pos0_min r)
                (bin_width (pos0_min r) (pos0_max r) bins) false
                (pos1_min r) (pos1_maxin r) idx ;;
  for_each accumulate ds acc.

(** The values added to bin [b], in the order of the deposits. *)
Definition counts_for (b : nat) (ds : list (deposit F)) : list F :=
  map (@dcount F) (filter (fun d => (bin d =? Z.of_nat b)%Z) ds).
Definition data_for (b : nat) (ds : list (deposit F)) : list F :=
  map (@ddata F) (filter (fun d => (bin d =? Z.of_nat b)%Z) ds).

(** The output arrays of [fullSplit1D] can be allocated. *)
Definition room1D (bins : Z) : Prop := allocate 8 [bins] = Ok tt.

(** The output arrays of [fullSplit2D] and its scratch array can be
    allocated. *)
Definition room2D (size : nat) (all_bins0 all_bins1 : Z) : Prop :=
  allocate 8 [all_bins0; all_bins1] = Ok tt /\
  allocate 8 [all_bins0] = Ok tt /\
  allocate 8 [all_bins1] = Ok tt /\
  allocate 1 [scratch_dim (Z.of_nat size) all_bins0;
              scratch_dim (Z.of_nat size) all_bins1] = Ok tt.

End Vocabulary.

(** ** Inputs and views of a run *)

(** A pixel from the coordinates of its corners A, B, C and D. *)
Definition quad {F : Type} (a0 a1 b0 b1 c0' c1' d0 d1 : F) : pixel F :=
  {| cornerA := {| c0 := a0; c1 := a1 |}; cornerB := {| c0 := b0; c1 := b1 |};
     cornerC := {| c0 := c0'; c1 := c1' |}; cornerD := {| c0 := d0; c1 := d1 |} |}.

(** Only [pos0Range] and [pos1Range] given. *)
Definition with_ranges {F : Type} (r0 r1 : option (list F)) : options F :=
  {| pos0Range := r0; pos1Range := r1; dummy := None; delta_dummy := None;
     mask := None; dark := None; flat := None; solidangle := None;
     polarization := None |}.





(** The accumulations of pixel [idx] in a run of [fullSplit1D]. *)
Definition deposits1D {F : Type} `{Arith F} (pos : list (pixel F)) (weights : list F)
    (bins : Z) (o : options F) (idx : nat) : outcome (list (deposit F)) :=
  r <- ranges eps32 pos o ;;
  pixel1D o weights pos bins (pos0_min r) (bin_width (pos0_min r) (pos0_max r) bins)
          false (pos1_min r) (pos1_maxin r) idx.

(** The accumulations of pixel [idx] in a run of [fullSplit2D] that reaches
    it with the scratch array [is_inside]. *)
Definition deposits2D {F : Type} `{Arith F} (pos : list (pixel F)) (weights : list F)
    (all_bins0 all_bins1 : Z) (o : options F) (is_inside : array2 Z) (idx : nat)
  : outcome (list (deposit2 F)) :=
  r <- ranges eps64 pos o ;;
  x <- pixel2D o weights pos all_bins0 all_bins1
               (pos0_min r) (bin_width (pos0_min r) (pos0_max r) all_bins0)
               (pos1_min r) (bin_width (pos1_min r) (pos1_max r) all_bins1)
               is_inside idx ;;
  Ok (fst x).

(** The accumulators a run returns, if it returns. *)
Definition outData_of {F A B C : Type} (r : outcome (A * B * C * F)) : option C :=
  match r with Ok (_, _, outData, _) => Some outData | _ => None end.
Definition outCount_of {F A B C : Type} (r : outcome (A * B * C * F)) : option F :=
  match r with Ok (_, _, _, outCount) => Some outCount | _ => None end.

(** ** Line integrals over the columns of bins *)

(** The integral of the edge from (p0, p1) to (q0, q1) over column [u]. *)
Definition edge (p0 p1 q0 q1 : Q) (u : Z) : Q :=
  integrate (lim p0 u) (lim q0 u) (line_through p0 p1 q0 q1).

(** Twice the signed area of the triangle PQR. *)
Definition turn (p0 p1 q0 q1 r0 r1 : Q) : Q :=
  (q0 - p0) * (r1 - p1) - (q1 - p1) * (r0 - p0).

(** The line integrals around the triangle PQR, over column [u]. *)
Definition tri (p0 p1 q0 q1 r0 r1 : Q) (u : Z) : Q :=
  edge p0 p1 q0 q1 u + edge q0 q1 r0 r1 u + edge r0 r1 p0 p1 u.

(** The width times the height at the middle of the line from P to Q,
    between the abscissas [a] and [b]. *)
Definition mid (p0 p1 q0 q1 a b : Q) : Q :=
  (b - a) * (p1 + (q1 - p1) / (q0 - p0) * ((a + b) * (1 # 2) - p0)).

(** The share of the column left of the middle corner Q, and right of it. *)
Definition left_share (p0 q0 r0 a b : Q) : Q :=
  (b - a) * ((a + b) * (1 # 2) - p0) / ((q0 - p0) * (r0 - p0)).
Definition right_share (p0 q0 r0 b c : Q) : Q :=
  (c - b) * (r0 - (b + c) * (1 # 2)) / ((r0 - q0) * (r0 - p0)).

(** The column sees the three corners at one abscissa. *)
Definition flat3 (p0 q0 r0 : Q) (u : Z) : Prop :=
  lim p0 u == lim q0 u /\ lim q0 u == lim r0 u.

(** What a column says of a triangle. *)
Definition column_share (p0 p1 q0 q1 r0 r1 : Q) (u : Z) : Prop :=
  exists K, 0 <= K /\ tri p0 p1 q0 q1 r0 r1 u == - turn p0 p1 q0 q1 r0 r1 * K /\
            (0 < K \/ flat3 p0 q0 r0 u).

(** The line integrals around ABCD over column [u]: the sums over the
    triangles ABC and ACD, the diagonal walked once each way. *)
Definition around (a0 a1 b0 b1 c0 c1 d0 d1 : Q) (u : Z) : Q :=
  edge a0 a1 b0 b1 u + edge b0 b1 c0 c1 u + edge c0 c1 d0 d1 u + edge d0 d1 a0 a1 u.

(** Twice the signed area of ABCD, as [area4] has it. *)
Definition cross (a0 a1 b0 b1 c0 c1 d0 d1 : Q) : Q :=
  (c0 - a0) * (d1 - b1) - (c1 - a1) * (d0 - b0).

(** The diagonal AC separates B from D: the triangles ABC and ACD turn the
    same way. *)
Definition separated (a0 a1 b0 b1 c0 c1 d0 d1 : Q) : Prop :=
  (0 <= turn a0 a1 b0 b1 c0 c1 /\ 0 <= turn a0 a1 c0 c1 d0 d1) \/
  (turn a0 a1 b0 b1 c0 c1 <= 0 /\ turn a0 a1 c0 c1 d0 d1 <= 0).

(** The sum of a list of rationals. *)
Definition Qsum (l : list Q) : Q := fold_right Qplus 0 l.

(** The columns 0 to [n - 1]. *)
Definition columns (n : nat) : list Z := map Z.of_nat (seq 0 n).

(** The primitive of the line [slope * x + intersect]. *)
Definition prim (f : Function Q) (x : Q) : Q :=
  slope f * (x * x) * (1 # 2) + intersect f * x.

(** The corners lie within the first [n] columns. *)
Definition within (n : nat) (x : Q) : Prop := 0 <= x <= inject_Z (Z.of_nat n).

(** A bin coordinate, translated by [m] bins. *)
Definition shifted (lo d : Q) (m : Z) (x : Q) : Q := (x - lo) / d - inject_Z m.

(** The pixel quadrilateral is convex: it turns the same way at its four
    corners.  Its area is the one [area4] computes. *)
Definition convex (p : pixel Q) : Prop :=
  let a0 := c0 (cornerA p) in let a1 := c1 (cornerA p) in
  let b0 := c0 (cornerB p) in let b1 := c1 (cornerB p) in
  let c0' := c0 (cornerC p) in let c1' := c1 (cornerC p) in
  let d0 := c0 (cornerD p) in let d1 := c1 (cornerD p) in
  (0 <= turn a0 a1 b0 b1 c0' c1' /\ 0 <= turn b0 b1 c0' c1' d0 d1 /\
   0 <= turn c0' c1' d0 d1 a0 a1 /\ 0 <= turn d0 d1 a0 a1 b0 b1) \/
  (turn a0 a1 b0 b1 c0' c1' <= 0 /\ turn b0 b1 c0' c1' d0 d1 <= 0 /\
   turn c0' c1' d0 d1 a0 a1 <= 0 /\ turn d0 d1 a0 a1 b0 b1 <= 0).

Definition pixel_area (p : pixel Q) : Q :=
  area4 (c0 (cornerA p)) (c1 (cornerA p)) (c0 (cornerB p)) (c1 (cornerB p))
        (c0 (cornerC p)) (c1 (cornerC p)) (c0 (cornerD p)) (c1 (cornerD p)).

(** The deposits that land in a bin of the output arrays. *)
Definition landed (bins : Z) (ds : list (deposit Q)) : list (deposit Q) :=
  filter (fun d => in_bounds (bin d) bins) ds.

(** The column sees the four corners at one abscissa. *)
Definition flat4 (a0 b0 c0 d0 : Q) (u : Z) : Prop :=
  lim a0 u == lim b0 u /\ lim b0 u == lim c0 u /\ lim c0 u == lim d0 u.

(** The quadrilateral turns the same way at its four corners. *)
Definition convex4 (a0 a1 b0 b1 c0 c1 d0 d1 : Q) : Prop :=
  (0 <= turn a0 a1 b0 b1 c0 c1 /\ 0 <= turn b0 b1 c0 c1 d0 d1 /\
   0 <= turn c0 c1 d0 d1 a0 a1 /\ 0 <= turn d0 d1 a0 a1 b0 b1) \/
  (turn a0 a1 b0 b1 c0 c1 <= 0 /\ turn b0 b1 c0 c1 d0 d1 <= 0 /\
   turn c0 c1 d0 d1 a0 a1 <= 0 /\ turn d0 d1 a0 a1 b0 b1 <= 0).

(** The deposits that miss them. *)
Definition missed (bins : Z) (ds : list (deposit Q)) : list (deposit Q) :=
  filter (fun d => negb (in_bounds (bin d) bins)) ds.

(** The four corners lie in the closed output range. *)
Definition inside (p : pixel Q) (lo hi : Q) : Prop :=
  (lo <= c0 (cornerA p) <= hi) /\ (lo <= c0 (cornerB p) <= hi) /\
  (lo <= c0 (cornerC p) <= hi) /\ (lo <= c0 (cornerD p) <= hi).

(** The four corners lie below the upper bound of the range. *)
Definition below (p : pixel Q) (hi : Q) : Prop :=
  c0 (cornerA p) < hi /\ c0 (cornerB p) < hi /\ c0 (cornerC p) < hi /\ c0 (cornerD p) < hi.

(** ** The 2D paths and the arguments *)

(** The closed cell [i, i+1] x [j, j+1] of the translated grid. *)
Definition in_cell (i j : Z) (p : MyPoint Q) : Prop :=
  inject_Z i <= i_ p <= inject_Z i + 1 /\ inject_Z j <= j_ p <= inject_Z j + 1.

(** Every row has the length of the first one. *)
Definition rectangular {A : Type} (a : array2 A) : Prop :=
  forall r, In r a -> Z.of_nat (length r) = cols a.

(** The array has [n0] rows of [n1] items. *)
Definition shaped {A : Type} (n0 n1 : Z) (a : array2 A) : Prop :=
  rows a = n0 /\ forall r, In r a -> Z.of_nat (length r) = n1.

(** [a[i, j]] of an array, read inside its bounds. *)
Definition item {A : Type} (a : array2 A) (i j : Z) (dflt : A) : A :=
  nth (Z.to_nat j) (nth (Z.to_nat i) a []) dflt.

(** The sides of the four edges on which the lattice point (i, j) lies,
    added up. *)
Definition sides {F : Type} `{Arith F} (A0 A1 B0 B1 C0 C1 D0 D1 : F) (i j : Z) : Z :=
  (point_and_line A0 A1 B0 B1 (of_int i) (of_int j)
   + point_and_line B0 B1 C0 C1 (of_int i) (of_int j)
   + point_and_line C0 C1 D0 D1 (of_int i) (of_int j)
   + point_and_line D0 D1 A0 A1 (of_int i) (of_int j))%Z.

(** The values an axis takes its bounds from: the range argument when it
    has two entries or more, the coordinates of the corners otherwise. *)
Definition range_source {F : Type} (r : option (list F)) (sel : corner F -> F)
    (pos : list (pixel F)) : list F :=
  match r with
  | Some l => if (1 <? length l)%nat then l else column sel pos
  | None => column sel pos
  end.

(** The range argument is used. *)
Definition range_given {F : Type} (r : option (list F)) : bool :=
  match r with Some l => (1 <? length l)%nat | None => false end.

(** [m] is an entry of [l] that no entry is below, or above. *)
Definition least (m : Q) (l : list Q) : Prop := In m l /\ forall x, In x l -> m <= x.
Definition greatest (m : Q) (l : list Q) : Prop := In m l /\ forall x, In x l -> x <= m.


(* ================================================================== *)
(** * Properties *)
(* ================================================================== *)

(** ** Outcomes and loops *)

Lemma bind_Ok {A B : Type} (m : outcome A) (k : A -> outcome B) (b : B) :
  bind m k = Ok b -> exists a, m = Ok a /\ k a = Ok b.
Proof.
  destruct m as [a | e | u]; simpl; intros E; try discriminate.
  exists a; split; [reflexivity | exact E].
Qed.

Ltac inv_bind E :=
  let a := fresh "a" in
  let Ea := fresh "E" in
  apply bind_Ok in E; destruct E as (a & Ea & E).

Ltac inv_bind_as E a Ea :=
  apply bind_Ok in E; destruct E as (a & Ea & E).

(** A property kept by the body of a loop is kept by the loop. *)
Lemma for_each_inv {I S : Type} (P : S -> Prop) (body : S -> I -> outcome S) :
  (forall s i s', P s -> body s i = Ok s' -> P s') ->
  forall l s s', P s -> for_each body l s = Ok s' -> P s'.
Proof.
  intros Hbody. induction l as [| i l IH]; simpl; intros s s' Hs E.
  - injection E as <-. exact Hs.
  - inv_bind E. eapply IH; [eapply Hbody; eassumption | exact E].
Qed.

(** A loop whose body always succeeds succeeds. *)
Lemma for_each_total {I S : Type} (body : S -> I -> outcome S) (l : list I) :
  (forall s i, In i l -> exists s', body s i = Ok s') ->
  forall s, exists s', for_each body l s = Ok s'.
Proof.
  induction l as [| i l IH]; simpl; intros Hbody s.
  - eexists; reflexivity.
  - destruct (Hbody s i (or_introl Logic.eq_refl)) as (s1 & ->). simpl.
    apply IH. intros; apply Hbody; right; assumption.
Qed.

(** ** Arrays *)

Lemma upd_length {A : Type} (n : nat) (v : A) (l : list A) :
  length (upd n v l) = length l.
Proof.
  revert n; induction l as [| x l IH]; intros [| n]; simpl; try reflexivity.
  now rewrite IH.
Qed.

Lemma nth_upd_same {A : Type} (n : nat) (v d : A) (l : list A) :
  (n < length l)%nat -> nth n (upd n v l) d = v.
Proof.
  revert n; induction l as [| x l IH]; intros [| n]; simpl; intros Hn;
    try lia; try reflexivity.
  apply IH; lia.
Qed.

Lemma nth_upd_other {A : Type} (n k : nat) (v d : A) (l : list A) :
  n <> k -> nth k (upd n v l) d = nth k l d.
Proof.
  revert n k; induction l as [| x l IH]; intros [| n] [| k]; simpl; intros Hn;
    try reflexivity; try congruence.
  apply IH; congruence.
Qed.

Lemma zrange_length (lo hi : Z) : length (zrange lo hi) = Z.to_nat (hi - lo).
Proof. unfold zrange. now rewrite length_map, length_seq. Qed.

Lemma zrange_In (lo hi k : Z) : In k (zrange lo hi) <-> (lo <= k < hi)%Z.
Proof.
  unfold zrange. rewrite in_map_iff. split.
  - intros (n & <- & Hn). apply in_seq in Hn. lia.
  - intros Hk. exists (Z.to_nat (k - lo)). split; [lia |]. apply in_seq. lia.
Qed.

Section MergeFacts.

Context {F : Type} `{Arith F}.

Lemma merge_steps (n : nat) (outData outCount : list F) (cdummy : F) (m : list F) :
  (n <= length m)%nat ->
  let m' := fold_left
              (fun outMerge i =>
                 if (nth i outCount zero >? epsilon)%A
                 then upd i (nth i outData zero / nth i outCount zero)%A outMerge
                 else upd i cdummy outMerge)
              (seq 0 n) m in
  length m' = length m /\
  forall k d, nth k m' d = if (k <? n)%nat then merged outData outCount cdummy k
                           else nth k m d.
Proof.
  induction n as [| n IH]; intros Hn.
  - simpl. split; [reflexivity | intros k d; reflexivity].
  - rewrite seq_S, fold_left_app. simpl.
    destruct IH as [Hlen Hnth]; [lia |].
    set (m1 := fold_left _ (seq 0 n) m) in *.
    assert (Hstep : forall v k d,
               nth k (upd n v m1) d =
               if (k =? n)%nat then v else nth k m1 d).
    { intros v k d. destruct (Nat.eqb_spec k n) as [-> | Hk].
      - apply nth_upd_same. lia.
      - apply nth_upd_other. congruence. }
    split.
    + destruct (nth n outCount zero >? epsilon)%A; rewrite upd_length; exact Hlen.
    + intros k d. unfold merged at 1.
      destruct (nth n outCount zero >? epsilon)%A eqn:Ec; rewrite Hstep, Hnth;
        destruct (Nat.eqb_spec k n) as [-> | Hk].
      * rewrite (proj2 (Nat.ltb_lt n (S n))) by lia. unfold merged. now rewrite Ec.
      * destruct (Nat.ltb_spec k n), (Nat.ltb_spec k (S n)); try lia; reflexivity.
      * rewrite (proj2 (Nat.ltb_lt n (S n))) by lia. unfold merged. now rewrite Ec.
      * destruct (Nat.ltb_spec k n), (Nat.ltb_spec k (S n)); try lia; reflexivity.
Qed.

Lemma merge_nth (bins : Z) (outData outCount : list F) (cdummy : F) (m : list F)
    (k : nat) (d : F) :
  (Z.to_nat bins <= length m)%nat -> (k < Z.to_nat bins)%nat ->
  nth k (merge bins outData outCount cdummy m) d = merged outData outCount cdummy k.
Proof.
  intros Hm Hk. unfold merge.
  destruct (merge_steps (Z.to_nat bins) outData outCount cdummy m Hm) as [_ Hnth].
  rewrite Hnth. now rewrite (proj2 (Nat.ltb_lt _ _) Hk).
Qed.

Lemma merge_length (bins : Z) (outData outCount : list F) (cdummy : F) (m : list F) :
  (Z.to_nat bins <= length m)%nat ->
  length (merge bins outData outCount cdummy m) = length m.
Proof.
  intros Hm. unfold merge.
  now destruct (merge_steps (Z.to_nat bins) outData outCount cdummy m Hm) as [Hl _].
Qed.

End MergeFacts.

(** ** Concrete inputs used below *)

(** ** Finalization *)

Section Finalization.

Context {F : Type} `{Arith F} {M : Memory}.

Lemma dummy_setup_cdummy (o : options F) :
  snd (fst (dummy_setup o)) = cdummy_of o.
Proof.
  unfold dummy_setup, cdummy_of.
  destruct (dummy o); [destruct (delta_dummy o) |]; reflexivity.
Qed.

Lemma full_length {A : Type} (n : Z) (v : A) : length (full n v) = Z.to_nat n.
Proof. unfold full. apply repeat_length. Qed.

(** An array that [numpy.zeros] returns is filled with 0. *)
Lemma zeros_Ok (n : Z) (a : list F) :
  zeros n = Ok a -> allocate 8 [n] = Ok tt /\ a = full n zero.
Proof.
  unfold zeros. destruct (allocate 8 [n]) as [[] | e | u]; simpl; try discriminate.
  intros E. injection E as <-. split; reflexivity.
Qed.

Lemma zeros2_Ok (n0 n1 : Z) (a : array2 F) :
  zeros2 n0 n1 = Ok a -> allocate 8 [n0; n1] = Ok tt /\ a = full2 n0 n1 zero.
Proof.
  unfold zeros2. destruct (allocate 8 [n0; n1]) as [[] | e | u]; simpl; try discriminate.
  intros E. injection E as <-. split; reflexivity.
Qed.

Lemma zeros2_int8_Ok (n0 n1 : Z) (a : array2 Z) :
  zeros2_int8 n0 n1 = Ok a -> allocate 1 [n0; n1] = Ok tt /\ a = full2 n0 n1 0%Z.
Proof.
  unfold zeros2_int8. destruct (allocate 1 [n0; n1]) as [[] | e | u]; simpl;
    try discriminate.
  intros E. injection E as <-. split; reflexivity.
Qed.

Lemma full2_length {A : Type} (n0 n1 : Z) (v : A) :
  length (full2 n0 n1 v) = Z.to_nat n0.
Proof. unfold full2. apply repeat_length. Qed.

Lemma full2_row {A : Type} (n0 n1 : Z) (v : A) (i : nat) :
  (i < Z.to_nat n0)%nat -> nth i (full2 n0 n1 v) [] = repeat v (Z.to_nat n1).
Proof.
  intros Hi. unfold full2. apply nth_repeat_lt. exact Hi.
Qed.

Lemma merge2_nth (n0 n1 : Z) (outData outCount : array2 F) (cdummy : F)
    (m : array2 F) (i : nat) :
  (Z.to_nat n0 <= length m)%nat -> (i < Z.to_nat n0)%nat ->
  nth i (merge2 n0 n1 outData outCount cdummy m) [] =
  merge n1 (nth i outData []) (nth i outCount []) cdummy (nth i m []).
Proof.
  unfold merge2. generalize (Z.to_nat n0) as n. intros n Hn Hi.
  assert (Hgen : forall n, (n <= length m)%nat ->
            let m' := fold_left
                        (fun outMerge i =>
                           upd i (merge n1 (nth i outData []) (nth i outCount []) cdummy
                                        (nth i outMerge [])) outMerge)
                        (seq 0 n) m in
            length m' = length m /\
            forall k, nth k m' [] =
                      if (k <? n)%nat
                      then merge n1 (nth k outData []) (nth k outCount []) cdummy (nth k m [])
                      else nth k m []).
  { clear. induction n as [| n IH]; intros Hn.
    - simpl. split; [reflexivity | intros; reflexivity].
    - rewrite seq_S, fold_left_app. simpl.
      destruct IH as [Hlen Hnth]; [lia |].
      match goal with
      | |- context [fold_left ?f (seq 0 n) m] => set (m1 := fold_left f (seq 0 n) m) in *
      end.
      split; [rewrite upd_length; exact Hlen |].
      intros k. destruct (Nat.eqb_spec k n) as [-> | Hk].
      + rewrite nth_upd_same by lia. rewrite Hnth.
        rewrite (proj2 (Nat.ltb_ge n n)) by lia.
        now rewrite (proj2 (Nat.ltb_lt n (S n))) by lia.
      + rewrite nth_upd_other by congruence. rewrite Hnth.
        destruct (Nat.ltb_spec k n), (Nat.ltb_spec k (S n)); try lia; reflexivity. }
  destruct (Hgen n Hn) as [_ Hnth]. rewrite Hnth.
  now rewrite (proj2 (Nat.ltb_lt _ _) Hi).
Qed.

(** The shape of what [fullSplit1D] returns. *)
Lemma fullSplit1D_Ok (pos : list (pixel F)) (weights : list F) (bins : Z)
    (o : options F) outPos outMerge outData outCount :
  fullSplit1D pos weights bins o = Ok (outPos, outMerge, outData, outCount) ->
  (1 < bins)%Z /\
  exists r, ranges eps32 pos o = Ok r /\
    outPos = centers (pos0_min r) (pos0_maxin r)
                     (bin_width (pos0_min r) (pos0_max r) bins) bins /\
    outMerge = merge bins outData outCount (cdummy_of o) (full bins zero).
Proof.
  unfold fullSplit1D. intros E.
  destruct ((bins <? 0) || (2 ^ 64 <=? bins))%Z; [discriminate |].
  inv_bind_as E u1 Hlen. inv_bind_as E u2 Hbins.
  unfold assert in Hbins. destruct (Z.ltb_spec 1 bins); [| discriminate].
  inv_bind_as E od0 Hod. inv_bind_as E oc0 Hoc. inv_bind_as E om0 Hom.
  apply zeros_Ok in Hom. destruct Hom as [_ ->].
  inv_bind_as E r Hr.
  pose proof (dummy_setup_cdummy o) as Hd.
  destruct (dummy_setup o) as [[check_dummy cdummy] cddummy]. simpl in Hd. subst cdummy.
  do 5 inv_bind E. inv_bind_as E acc Hloop. destruct acc as [oc od].
  injection E as <- <- <- <-.
  split; [assumption |]. exists r. repeat split; assumption.
Qed.

(** The shape of what [fullSplit2D] returns. *)
Lemma fullSplit2D_Ok (pos : list (pixel F)) (weights : list F) (bins : bins_arg)
    (o : options F) outMerge edges0 edges1 outData outCount :
  fullSplit2D pos weights bins o = Ok (outMerge, edges0, edges1, outData, outCount) ->
  exists b0 b1 r,
    parse_bins bins = Ok (b0, b1) /\ ranges eps64 pos o = Ok r /\
    edges0 = centers (pos0_min r) (pos0_maxin r)
               (bin_width (pos0_min r) (pos0_max r) (at_least_one b0)) (at_least_one b0) /\
    edges1 = centers (pos1_min r) (pos1_maxin r)
               (bin_width (pos1_min r) (pos1_max r) (at_least_one b1)) (at_least_one b1) /\
    outMerge = merge2 (at_least_one b0) (at_least_one b1) outData outCount (cdummy_of o)
                      (full2 (at_least_one b0) (at_least_one b1) zero).
Proof.
  unfold fullSplit2D. intros E.
  inv_bind_as E u1 Hlen. inv_bind_as E b Hb. destruct b as [b0 b1].
  inv_bind_as E od0 Hod. inv_bind_as E oc0 Hoc. inv_bind_as E om0 Hom.
  apply zeros2_Ok in Hom. destruct Hom as [_ ->].
  inv_bind_as E e0 He0. inv_bind_as E e1 He1.
  inv_bind_as E r Hr.
  inv_bind_as E ins0 Hins.
  pose proof (dummy_setup_cdummy o) as Hd.
  destruct (dummy_setup o) as [[check_dummy cdummy] cddummy]. simpl in Hd. subst cdummy.
  do 5 inv_bind E. inv_bind_as E acc Hloop. destruct acc as [[oc od] ins].
  injection E as <- <- <- <- <-.
  exists b0, b1, r. repeat split; assumption.
Qed.

(** C2.  After a run of [fullSplit1D] or [fullSplit2D], every bin of
    [outMerge] holds [outData / outCount] where [outCount] exceeds
    [epsilon = 1e-10], and elsewhere the dummy value, 0 when no dummy was
    supplied. *)
Theorem finalization_invariant (pos : list (pixel F)) (weights : list F)
    (o : options F) :
  (forall bins outPos outMerge outData outCount,
      fullSplit1D pos weights bins o = Ok (outPos, outMerge, outData, outCount) ->
      forall k, (k < Z.to_nat bins)%nat ->
        nth k outMerge zero =
        if (nth k outCount zero >? epsilon)%A
        then (nth k outData zero / nth k outCount zero)%A
        else cdummy_of o)
  /\
  (forall bins b0 b1 outMerge edges0 edges1 outData outCount,
      fullSplit2D pos weights bins o = Ok (outMerge, edges0, edges1, outData, outCount) ->
      parse_bins bins = Ok (b0, b1) ->
      forall i j, (i < Z.to_nat (at_least_one b0))%nat ->
                  (j < Z.to_nat (at_least_one b1))%nat ->
        nth j (nth i outMerge []) zero =
        if (nth j (nth i outCount []) zero >? epsilon)%A
        then (nth j (nth i outData []) zero / nth j (nth i outCount []) zero)%A
        else cdummy_of o).
Proof.
  split.
  - intros bins outPos outMerge outData outCount E k Hk.
    apply fullSplit1D_Ok in E. destruct E as (_ & r & _ & _ & ->).
    rewrite merge_nth; [reflexivity | rewrite full_length; lia | exact Hk].
  - intros bins b0 b1 outMerge edges0 edges1 outData outCount E Hb i j Hi Hj.
    apply fullSplit2D_Ok in E. destruct E as (b0' & b1' & r & Hb' & _ & _ & _ & ->).
    rewrite Hb in Hb'. injection Hb' as <- <-.
    rewrite merge2_nth; [| rewrite full2_length; lia | exact Hi].
    rewrite full2_row by exact Hi.
    rewrite merge_nth; [reflexivity | rewrite repeat_length; lia | exact Hj].
Qed.

End Finalization.

(** The concrete runs of this development are on an allocator that grants
    every request. *)
#[local] Existing Instance ample.

(** One pixel spread over bins 0 and 1 of three, and a 2x2 histogram with
    one pixel in the cell (0, 0): the merged values are the stored
    quotients and the fill value. *)
Lemma finalization_invariant_witness :
  (exists outPos outMerge outData outCount,
      fullSplit1D [quad 0.5 0 1.5 0 1.5 1 0.5 1]%float [10%float] 3
                  (with_ranges (Some [0; 3]%float) None)
      = Ok (outPos, outMerge, outData, outCount) /\
      nth 0 outMerge zero = 10%float /\ nth 2 outMerge zero = 0%float)
  /\
  (exists outMerge edges0 edges1 outData outCount,
      fullSplit2D [quad 0.25 0.25 0.5 0.25 0.5 0.5 0.25 0.5]%float [7%float]
                  (BinsPair 2 2)
                  (with_ranges (Some [0; 2]%float) (Some [0; 2]%float))
      = Ok (outMerge, edges0, edges1, outData, outCount) /\
      nth 0 (nth 0 outMerge []) zero = 7%float /\
      nth 1 (nth 1 outMerge []) zero = 0%float).
Proof.
  split.
  - match goal with
    | |- exists _ _ _ _, ?run = _ /\ _ =>
        destruct run as [[[[outPos outMerge] outData] outCount] | e | u] eqn:E;
          [| vm_compute in E; discriminate ..]
    end.
    exists outPos, outMerge, outData, outCount. split; [reflexivity |].
    rewrite (proj1 (finalization_invariant _ _ _) _ _ _ _ _ E 0%nat) by (vm_compute; lia).
    rewrite (proj1 (finalization_invariant _ _ _) _ _ _ _ _ E 2%nat) by (vm_compute; lia).
    vm_compute in E. injection E as <- <- <- <-.
    split; vm_compute; reflexivity.
  - match goal with
    | |- exists _ _ _ _ _, ?run = _ /\ _ =>
        destruct run as [[[[[outMerge edges0] edges1] outData] outCount] | e | u] eqn:E;
          [| vm_compute in E; discriminate ..]
    end.
    exists outMerge, edges0, edges1, outData, outCount. split; [reflexivity |].
    rewrite (proj2 (finalization_invariant _ _ _) _ 2%Z 2%Z _ _ _ _ _ E Logic.eq_refl
               0%nat 0%nat) by (vm_compute; lia).
    rewrite (proj2 (finalization_invariant _ _ _) _ 2%Z 2%Z _ _ _ _ _ E Logic.eq_refl
               1%nat 1%nat) by (vm_compute; lia).
    vm_compute in E. injection E as <- <- <- <- <-.
    split; vm_compute; reflexivity.
Defined.

(** ** The skipped pixels *)

Section SkipSet.

Context {F : Type} `{Arith F}.

Lemma dummy_match_spec (o : options F) (data : F) :
  dummy_match (dummy_setup o) data =
  match dummy o with
  | Some dmy =>
      let delta := match delta_dummy o with Some dd => dd | None => zero end in
      ((delta =? zero) && (data =? dmy) || (delta !=? zero) && (fabs (data - dmy) <=? delta))%A
  | None => false
  end.
Proof.
  unfold dummy_match, dummy_setup.
  destruct (dummy o) as [dmy |]; [destruct (delta_dummy o) as [dd |] |]; reflexivity.
Qed.

Lemma skip1D_spec (o : options F) (weights : list F) (idx : nat) :
  skip1D o weights idx = skip_pixel o weights idx.
Proof.
  unfold skip1D, skip_pixel. rewrite dummy_match_spec. unfold masked.
  destruct (mask o) as [m |]; [destruct (negb (nth idx m 0 =? 0)%Z) |];
    try reflexivity; simpl;
    match goal with
    | |- (if ?c then true else false) = _ => destruct c; reflexivity
    end.
Qed.

Lemma skip2D_spec (o : options F) (weights : list F) (idx : nat) :
  skip2D o weights idx = skip_pixel o weights idx.
Proof.
  unfold skip2D, skip_pixel. rewrite dummy_match_spec. unfold masked. cbv zeta.
  match goal with
  | |- (if ?c then true else _) = _ => destruct c
  end;
    (destruct (mask o) as [m |]; [destruct (negb (nth idx m 0 =? 0)%Z) |]);
    reflexivity.
Qed.

(** C10.  [fullSplit1D] tests the mask and then the dummy, [fullSplit2D] the
    dummy and then the mask; both skip a pixel exactly when the mask is
    enabled and nonzero there or the dummy is enabled and matched. *)
Theorem skip_set_equivalence (o : options F) (weights : list F) (idx : nat) :
  skip1D o weights idx = skip_pixel o weights idx /\
  skip2D o weights idx = skip_pixel o weights idx.
Proof.
  split; [apply skip1D_spec | apply skip2D_spec].
Qed.

(** A skipped pixel accumulates nothing, in either entry point. *)
Lemma pixel1D_skipped (o : options F) cdata cpos bins lo dpos chk lo1 hi1 idx :
  skip_pixel o cdata idx = true ->
  pixel1D o cdata cpos bins lo dpos chk lo1 hi1 idx = Ok [].
Proof.
  intros Hs. unfold pixel1D. now rewrite skip1D_spec, Hs.
Qed.

Lemma pixel2D_skipped (o : options F) cdata cpos b0 b1 lo0 d0 lo1 d1 ins idx :
  skip_pixel o cdata idx = true ->
  pixel2D o cdata cpos b0 b1 lo0 d0 lo1 d1 ins idx = Ok ([], ins).
Proof.
  intros Hs. unfold pixel2D. now rewrite skip2D_spec, Hs.
Qed.

End SkipSet.

(* ================================================================== *)
(** * Exact arithmetic *)
(* ================================================================== *)

(** The operations of [ArithQ], unfolded to those of [Q]. *)
Ltac exact_arith :=
  cbv [lt le eq add sub mul div fabs of_int half epsilon eps32 eps64 M_PI
       ArithQ zero onef pi piover2 neg_piover2] in *.

Lemma Qlt_bool_iff (a b : Q) : Qlt_bool a b = true <-> a < b.
Proof.
  unfold Qlt_bool. rewrite negb_true_iff. split.
  - intros E. apply Qnot_le_lt. intros Hle. apply Qle_bool_iff in Hle. congruence.
  - intros Hlt. destruct (Qle_bool b a) eqn:E; [| reflexivity].
    apply Qle_bool_iff in E. exfalso. apply (Qlt_not_le _ _ Hlt E).
Qed.

Lemma Qlt_bool_false (a b : Q) : Qlt_bool a b = false <-> b <= a.
Proof.
  unfold Qlt_bool. rewrite negb_false_iff. apply Qle_bool_iff.
Qed.

Lemma Qle_bool_false (a b : Q) : Qle_bool a b = false <-> b < a.
Proof.
  rewrite <- Qlt_bool_iff. unfold Qlt_bool. now rewrite negb_true_iff.
Qed.

Lemma Qeq_bool_false (a b : Q) : Qeq_bool a b = false <-> ~ a == b.
Proof.
  split.
  - intros E Heq. apply Qeq_bool_iff in Heq. congruence.
  - intros Hne. destruct (Qeq_bool a b) eqn:E; [| reflexivity].
    apply Qeq_bool_iff in E. contradiction.
Qed.

(** Case analysis on the comparisons of the kernel. *)
Ltac case_lt a b :=
  let E := fresh "E" in
  destruct (Qlt_bool a b) eqn:E;
  [apply Qlt_bool_iff in E | apply Qlt_bool_false in E].
Ltac case_le a b :=
  let E := fresh "E" in
  destruct (Qle_bool a b) eqn:E;
  [apply Qle_bool_iff in E | apply Qle_bool_false in E].
Ltac case_eq_Q a b :=
  let E := fresh "E" in
  destruct (Qeq_bool a b) eqn:E;
  [apply Qeq_bool_iff in E | apply Qeq_bool_false in E].

(** ** The azimuthal wrap-around *)

Module Wrap.










End Wrap.


(* ================================================================== *)
(** * Validation of the bin counts *)
(* ================================================================== *)

Section Validation.

Context {F : Type} `{Arith F} {M : Memory}.

Lemma no_raise_Ok {A : Type} (a : A) : no_raise (Ok a).
Proof. intros e; discriminate. Qed.

Lemma no_raise_Undefined {A : Type} (u : ub) : no_raise (@Undefined A u).
Proof. intros e; discriminate. Qed.

Lemma no_raise_bind {A B : Type} (m : outcome A) (k : A -> outcome B) :
  no_raise m -> (forall a, no_raise (k a)) -> no_raise (bind m k).
Proof.
  intros Hm Hk. destruct m as [a | e | u]; simpl.
  - apply Hk.
  - exfalso. exact (Hm e Logic.eq_refl).
  - apply no_raise_Undefined.
Qed.

Lemma no_raise_for_each {I S : Type} (body : S -> I -> outcome S) (l : list I) :
  (forall s i, no_raise (body s i)) -> forall s, no_raise (for_each body l s).
Proof.
  intros Hbody. induction l as [| i l IH]; intros s; simpl.
  - apply no_raise_Ok.
  - apply no_raise_bind; [apply Hbody | exact IH].
Qed.

Ltac no_raise_step :=
  match goal with
  | |- no_raise (bind _ _) => apply no_raise_bind; [| intros ?]
  | |- no_raise (for_each _ _ _) => apply no_raise_for_each; intros ? ?
  | |- no_raise (Ok _) => apply no_raise_Ok
  | |- no_raise (Undefined _) => apply no_raise_Undefined
  | |- no_raise (if ?c then _ else _) => destruct c
  | |- no_raise (match ?x with _ => _ end) => destruct x
  end.

Lemma no_raise_to_int (x : F) : no_raise (to_int x).
Proof. unfold to_int. repeat no_raise_step. Qed.

Lemma no_raise_add_at (a : list F) (k : Z) (v : F) : no_raise (add_at a k v).
Proof. unfold add_at. repeat no_raise_step. Qed.

Lemma no_raise_get2 {A : Type} (a : array2 A) (i j : Z) (d : A) : no_raise (get2 a i j d).
Proof. unfold get2. repeat no_raise_step. Qed.

Lemma no_raise_set2 {A : Type} (a : array2 A) (i j : Z) (v : A) : no_raise (set2 a i j v).
Proof. unfold set2. repeat no_raise_step. Qed.

Lemma no_raise_accumulate (acc : list F * list F) (d : deposit F) :
  no_raise (accumulate acc d).
Proof.
  unfold accumulate. destruct acc as [oc od].
  repeat (no_raise_step || apply no_raise_add_at).
Qed.

Lemma no_raise_accumulate2 (acc : array2 F * array2 F) (d : deposit2 F) :
  no_raise (accumulate2 acc d).
Proof.
  unfold accumulate2, add_at2. destruct acc as [oc od].
  repeat (no_raise_step || apply no_raise_get2 || apply no_raise_set2).
Qed.

Lemma no_raise_pixel1D (o : options F) cdata cpos bins lo dpos chk lo1 hi1 idx :
  no_raise (pixel1D o cdata cpos bins lo dpos chk lo1 hi1 idx).
Proof.
  unfold pixel1D. repeat (no_raise_step || apply no_raise_to_int).
Qed.

Lemma no_raise_push (l : list (MyPoint F)) (p : MyPoint F) : no_raise (push l p).
Proof. unfold push. repeat no_raise_step. Qed.

Lemma no_raise_clip inE outS inS inter (l : list (MyPoint F)) :
  no_raise (clip inE outS inS inter l).
Proof.
  unfold clip. repeat (no_raise_step || apply no_raise_push).
Qed.

Lemma no_raise_clip_cell (A B C D : MyPoint F) (i j : Z) :
  no_raise (clip_cell A B C D i j).
Proof.
  unfold clip_cell. repeat (no_raise_step || apply no_raise_clip).
Qed.

Lemma no_raise_split2D_general A0 A1 B0 B1 C0 C1 D0 D1 (data : F) b0 b1 n0 n1 ins :
  no_raise (split2D_general A0 A1 B0 B1 C0 C1 D0 D1 data b0 b1 n0 n1 ins).
Proof.
  unfold split2D_general, mark_inside.
  repeat (no_raise_step || apply no_raise_get2 || apply no_raise_set2
          || apply no_raise_clip_cell).
Qed.

Lemma no_raise_pixel2D (o : options F) cdata cpos b0 b1 lo0 d0 lo1 d1 ins idx :
  no_raise (pixel2D o cdata cpos b0 b1 lo0 d0 lo1 d1 ins idx).
Proof.
  unfold pixel2D.
  repeat (no_raise_step || apply no_raise_to_int || apply no_raise_split2D_general).
Qed.

Lemma fits_at_least_one (b : Z) : fits_int b = true -> fits_int (at_least_one b) = true.
Proof.
  unfold fits_int, at_least_one, int32_min, int32_max.
  destruct (Z.leb_spec b 0); [reflexivity | auto].
Qed.

Lemma at_least_one_idem (b : Z) : at_least_one (at_least_one b) = at_least_one b.
Proof.
  unfold at_least_one. destruct (Z.leb_spec b 0); [reflexivity |].
  destruct (Z.leb_spec b 0); [lia | reflexivity].
Qed.

Lemma fullSplit1D_small_bins (pos : list (pixel F)) (weights : list F) (bins : Z)
    (o : options F) :
  (bins <= 1)%Z ->
  fullSplit1D pos weights bins o
  = Raise (if (bins <? 0)%Z then OverflowError else AssertionError).
Proof.
  intros Hb. unfold fullSplit1D.
  destruct (Z.ltb_spec bins 0); [reflexivity |].
  destruct (Z.leb_spec (2 ^ 64) bins); [lia |]. cbn [orb].
  unfold assert. destruct (length pos =? length weights)%nat; [| reflexivity].
  cbn [bind]. destruct (Z.ltb_spec 1 bins); [lia | reflexivity].
Qed.

(** An allocation succeeds or raises. *)
Lemma allocate_cases (itemsize : Z) (shape : list Z) :
  allocate itemsize shape = Ok tt \/
  allocate itemsize shape = Raise ValueError \/
  allocate itemsize shape = Raise MemoryError.
Proof.
  unfold allocate.
  destruct (existsb _ shape); [tauto |].
  destruct (2 ^ 63 <=? _)%Z; [tauto |].
  destruct (grants _); tauto.
Qed.

Lemma zeros_room (n : Z) : allocate 8 [n] = Ok tt -> zeros n = Ok (full n zero).
Proof. unfold zeros. intros ->. reflexivity. Qed.

Lemma zeros_fail (n : Z) (e : exn) : allocate 8 [n] = Raise e -> zeros n = Raise e.
Proof. unfold zeros. intros ->. reflexivity. Qed.

Lemma zeros2_room (n0 n1 : Z) :
  allocate 8 [n0; n1] = Ok tt -> zeros2 n0 n1 = Ok (full2 n0 n1 zero).
Proof. unfold zeros2. intros ->. reflexivity. Qed.

Lemma zeros2_fail (n0 n1 : Z) (e : exn) :
  allocate 8 [n0; n1] = Raise e -> zeros2 n0 n1 = Raise e.
Proof. unfold zeros2. intros ->. reflexivity. Qed.

Lemma zeros2_int8_room (n0 n1 : Z) :
  allocate 1 [n0; n1] = Ok tt -> zeros2_int8 n0 n1 = Ok (full2 n0 n1 0%Z).
Proof. unfold zeros2_int8. intros ->. reflexivity. Qed.

Lemma zeros2_int8_fail (n0 n1 : Z) (e : exn) :
  allocate 1 [n0; n1] = Raise e -> zeros2_int8 n0 n1 = Raise e.
Proof. unfold zeros2_int8. intros ->. reflexivity. Qed.

(** What [fullSplit1D] does once its arguments have passed the checks on
    [bins] and on the size of [pos]. *)
Lemma fullSplit1D_checked (pos : list (pixel F)) (weights : list F) (bins : Z)
    (o : options F) :
  (2 <= bins < 2 ^ 64)%Z -> length pos = length weights ->
  (forall e, allocate 8 [bins] = Raise e -> fullSplit1D pos weights bins o = Raise e) /\
  (allocate 8 [bins] = Ok tt -> well_shaped eps32 pos weights o ->
   no_raise (fullSplit1D pos weights bins o)).
Proof.
  intros Hb Hlen. unfold fullSplit1D.
  destruct (Z.ltb_spec bins 0); [lia |]. destruct (Z.leb_spec (2 ^ 64) bins); [lia |].
  cbn [orb]. rewrite Hlen, Nat.eqb_refl. simpl bind.
  destruct (Z.ltb_spec 1 bins); [| lia]. simpl bind.
  split.
  - intros e He. rewrite (zeros_fail _ _ He). reflexivity.
  - intros Hroom (_ & (r & Hr) & Hm & Hd & Hf & Hp & Hs).
    rewrite (zeros_room _ Hroom). simpl bind.
    rewrite Hr. simpl bind.
    destruct (dummy_setup o) as [[check_dummy cdummy] cddummy].
    repeat (apply no_raise_bind; [assumption | intros ?]).
    apply no_raise_bind.
    + apply no_raise_for_each. intros acc idx.
      apply no_raise_bind; [apply no_raise_pixel1D | intros ds].
      apply no_raise_for_each. intros; apply no_raise_accumulate.
    + intros [oc od]. apply no_raise_Ok.
Qed.

Lemma fullSplit1D_no_raise (pos : list (pixel F)) (weights : list F) (bins : Z)
    (o : options F) :
  (2 <= bins < 2 ^ 64)%Z -> well_shaped eps32 pos weights o ->
  (no_raise (fullSplit1D pos weights bins o) <-> room1D bins).
Proof.
  intros Hb Hw. pose proof Hw as (Hlen & _).
  destruct (fullSplit1D_checked pos weights bins o Hb Hlen) as [Hfail Hroom].
  unfold room1D. split.
  - intros Hno. destruct (allocate_cases 8 [bins]) as [E | [E | E]]; [exact E | |];
      exfalso; exact (Hno _ (Hfail _ E)).
  - intros E. now apply Hroom.
Qed.

(** A bin count of 2^60 or more cannot be allocated. *)
Lemma allocate_too_big (bins : Z) :
  (2 ^ 60 <= bins)%Z -> allocate 8 [bins] = Raise ValueError.
Proof.
  intros Hb. unfold allocate. cbn [existsb fold_right orb].
  destruct (Z.ltb_spec bins 0); [lia |].
  destruct (Z.leb_spec (2 ^ 63) (8 * (bins * 1))); [reflexivity | lia].
Qed.

Lemma fullSplit2D_no_raise (pos : list (pixel F)) (weights : list F) (bins : bins_arg)
    (b0 b1 : Z) (o : options F) :
  parse_bins bins = Ok (b0, b1) -> well_shaped eps64 pos weights o ->
  (no_raise (fullSplit2D pos weights bins o)
   <-> room2D (length weights) (at_least_one b0) (at_least_one b1)).
Proof.
  intros Hb (Hlen & (r & Hr) & Hm & Hd & Hf & Hp & Hs). unfold fullSplit2D, room2D.
  rewrite Hlen, Nat.eqb_refl. simpl bind.
  rewrite Hb. simpl bind.
  set (n0 := at_least_one b0). set (n1 := at_least_one b1).
  set (d0 := scratch_dim (Z.of_nat (length weights)) n0).
  set (d1 := scratch_dim (Z.of_nat (length weights)) n1).
  destruct (allocate_cases 8 [n0; n1]) as [E | E].
  2:{ assert (Hex : exists e, allocate 8 [n0; n1] = Raise e)
        by (destruct E as [E | E]; eexists; exact E).
      destruct Hex as (e & He). rewrite (zeros2_fail _ _ _ He). simpl bind.
      split; [intros Hno; exfalso; exact (Hno e Logic.eq_refl) |].
      intros (E' & _). rewrite He in E'. discriminate. }
  rewrite (zeros2_room _ _ E). simpl bind.
  destruct (allocate_cases 8 [n0]) as [E0 | E0].
  2:{ assert (Hex : exists e, allocate 8 [n0] = Raise e)
        by (destruct E0 as [E0 | E0]; eexists; exact E0).
      destruct Hex as (e & He). rewrite (zeros_fail _ _ He). simpl bind.
      split; [intros Hno; exfalso; exact (Hno e Logic.eq_refl) |].
      intros (_ & E' & _). rewrite He in E'. discriminate. }
  rewrite (zeros_room _ E0). simpl bind.
  destruct (allocate_cases 8 [n1]) as [E1 | E1].
  2:{ assert (Hex : exists e, allocate 8 [n1] = Raise e)
        by (destruct E1 as [E1 | E1]; eexists; exact E1).
      destruct Hex as (e & He). rewrite (zeros_fail _ _ He). simpl bind.
      split; [intros Hno; exfalso; exact (Hno e Logic.eq_refl) |].
      intros (_ & _ & E' & _). rewrite He in E'. discriminate. }
  rewrite (zeros_room _ E1). simpl bind.
  rewrite Hr. simpl bind.
  destruct (allocate_cases 1 [d0; d1]) as [Es | Es].
  2:{ assert (Hex : exists e, allocate 1 [d0; d1] = Raise e)
        by (destruct Es as [Es | Es]; eexists; exact Es).
      destruct Hex as (e & He). rewrite (zeros2_int8_fail _ _ _ He). simpl bind.
      split; [intros Hno; exfalso; exact (Hno e Logic.eq_refl) |].
      intros (_ & _ & _ & E'). rewrite He in E'. discriminate. }
  rewrite (zeros2_int8_room _ _ Es). simpl bind.
  split; [intros _; repeat split; assumption | intros _].
  destruct (dummy_setup o) as [[check_dummy cdummy] cddummy].
  repeat (apply no_raise_bind; [assumption | intros ?]).
  apply no_raise_bind.
  - apply no_raise_for_each. intros [[oc od] ins] idx.
    apply no_raise_bind; [apply no_raise_pixel2D | intros [ds ins']].
    apply no_raise_bind.
    + apply no_raise_for_each. intros; apply no_raise_accumulate2.
    + intros [oc' od']. apply no_raise_Ok.
  - intros [[oc od] ins]. apply no_raise_Ok.
Qed.

Lemma parse_bins_fits (bins : bins_arg) (b0 b1 : Z) :
  parse_bins bins = Ok (b0, b1) -> fits_int b0 = true /\ fits_int b1 = true.
Proof.
  destruct bins as [c0 c1 | c]; simpl.
  - destruct (fits_int c0) eqn:E0, (fits_int c1) eqn:E1; simpl; try discriminate.
    intros E; injection E as <- <-. now split.
  - destruct (fits_int c) eqn:E0; simpl; try discriminate.
    intros E; injection E as <- <-. now split.
Qed.

Lemma fullSplit2D_at_least_one (pos : list (pixel F)) (weights : list F)
    (bins : bins_arg) (b0 b1 : Z) (o : options F) :
  parse_bins bins = Ok (b0, b1) ->
  fullSplit2D pos weights bins o =
  fullSplit2D pos weights (BinsPair (at_least_one b0) (at_least_one b1)) o.
Proof.
  intros Hb. destruct (parse_bins_fits bins b0 b1 Hb) as [H0 H1].
  unfold fullSplit2D. rewrite Hb. unfold parse_bins.
  rewrite (fits_at_least_one b0 H0), (fits_at_least_one b1 H1).
  simpl andb. cbv iota.
  destruct (assert (length pos =? length weights)%nat) as [[] | e | u];
    [| reflexivity ..].
  simpl bind. now rewrite !at_least_one_idem.
Qed.

(** C7, as the code has it.  [fullSplit1D] raises an error for every
    [bins <= 1], before any allocation or accumulation: [OverflowError] for
    a negative count, [AssertionError] for 0 and for 1.  For
    [2 <= bins < 2^64] and well-formed other arguments it raises exactly
    when [numpy.zeros(bins)] cannot allocate the output arrays, which is the
    case of every [bins >= 2^60] ([ValueError]).  [fullSplit2D] raises
    nothing for bin counts that fit a C int because they are not positive:
    it runs as with every non-positive count replaced by 1, and with
    well-formed other arguments it raises exactly when one of its output
    arrays or its scratch array cannot be allocated. *)
Theorem bins_validation (pos : list (pixel F)) (weights : list F) (o : options F) :
  (forall bins, (bins <= 1)%Z ->
     fullSplit1D pos weights bins o
     = Raise (if (bins <? 0)%Z then OverflowError else AssertionError)) /\
  (forall bins, (2 <= bins < 2 ^ 64)%Z -> well_shaped eps32 pos weights o ->
     (no_raise (fullSplit1D pos weights bins o) <-> room1D bins)) /\
  (forall bins, (2 ^ 60 <= bins < 2 ^ 64)%Z -> length pos = length weights ->
     fullSplit1D pos weights bins o = Raise ValueError) /\
  (forall bins b0 b1, parse_bins bins = Ok (b0, b1) ->
     fullSplit2D pos weights bins o =
     fullSplit2D pos weights (BinsPair (at_least_one b0) (at_least_one b1)) o) /\
  (forall bins b0 b1, parse_bins bins = Ok (b0, b1) ->
     well_shaped eps64 pos weights o ->
     (no_raise (fullSplit2D pos weights bins o)
      <-> room2D (length weights) (at_least_one b0) (at_least_one b1))).
Proof.
  split; [intros; now apply fullSplit1D_small_bins |].
  split; [intros; now apply fullSplit1D_no_raise |].
  split.
  { intros bins Hb Hlen.
    apply (fullSplit1D_checked pos weights bins o); [lia | exact Hlen |].
    apply allocate_too_big. lia. }
  split; [intros; now apply fullSplit2D_at_least_one |].
  intros bins b0 b1 Hb Hw. now apply (fullSplit2D_no_raise pos weights bins b0 b1).
Qed.

End Validation.

(** [bins = 1] is positive and rejected by [fullSplit1D], and so is
    [bins = 2^62], which [numpy.zeros] cannot allocate; the non-positive
    pair (0, -3) is accepted by [fullSplit2D], which returns a 1x1
    histogram. *)
Lemma bins_validation_counterexample :
  fullSplit1D [quad 0.5 0 1.5 0 1.5 1 0.5 1]%float [10%float] 1
              (with_ranges (Some [0; 3]%float) None)
  = Raise AssertionError /\
  fullSplit1D [quad 0.5 0 1.5 0 1.5 1 0.5 1]%float [10%float] (2 ^ 62)
              (with_ranges (Some [0; 3]%float) None)
  = Raise ValueError /\
  exists edges0 edges1,
    fullSplit2D [quad 0.5 0 1.5 0 1.5 1 0.5 1]%float [10%float] (BinsPair 0 (-3))
                (with_ranges (Some [0; 3]%float) (Some [0; 1]%float))
    = Ok ([[10%float]], edges0, edges1, [[10%float]], [[1%float]]).
Proof.
  split; [vm_compute; reflexivity |].
  split; [vm_compute; reflexivity |].
  do 2 eexists. vm_compute. reflexivity.
Qed.

(** Three bins are accepted and 2^62 are not; one bin is rejected; the
    pair (0, -3) runs as (1, 1). *)
Lemma bins_validation_witness :
  let p := (quad 0.5 0 1.5 0 1.5 1 0.5 1)%float in
  let o := with_ranges (Some [0; 3]%float) None in
  let o2 := with_ranges (Some [0; 3]%float) (Some [0; 1]%float) in
  fullSplit1D [p] [10%float] 1 o = Raise AssertionError /\
  no_raise (fullSplit1D [p] [10%float] 3 o) /\
  fullSplit1D [p] [10%float] (2 ^ 62) o = Raise ValueError /\
  fullSplit2D [p] [10%float] (BinsPair 0 (-3)) o2
  = fullSplit2D [p] [10%float] (BinsPair 1 1) o2 /\
  no_raise (fullSplit2D [p] [10%float] (BinsPair 0 (-3)) o2).
Proof.
  intros p o o2.
  pose proof (bins_validation [p] [10%float] o) as (Hsmall & Hbig & Hhuge & _ & _).
  pose proof (bins_validation [p] [10%float] o2) as (_ & _ & _ & Hclamp & H2D).
  assert (Hw : well_shaped eps32 [p] [10%float] o).
  { repeat split; try (simpl; apply no_raise_Ok). eexists. vm_compute. reflexivity. }
  assert (Hw2 : well_shaped eps64 [p] [10%float] o2).
  { repeat split; try (simpl; apply no_raise_Ok). eexists. vm_compute. reflexivity. }
  split; [apply (Hsmall 1%Z); lia |].
  split; [apply (Hbig 3%Z); [lia | exact Hw | reflexivity] |].
  split; [apply (Hhuge (2 ^ 62)%Z); [lia | reflexivity] |].
  split; [apply (Hclamp (BinsPair 0 (-3)) 0%Z (-3)%Z); reflexivity |].
  apply (H2D (BinsPair 0 (-3)) 0%Z (-3)%Z); [reflexivity | exact Hw2 |].
  repeat split; vm_compute; reflexivity.
Defined.

(* ================================================================== *)
(** * What the compiled kernel does on four kinds of pixel *)
(* ================================================================== *)

Module Binary64.

Open Scope float_scope.

(** C3, on the code.  A pixel collapsed to the segment from (0.5, 0) to
    (1.5, 0) has area 0 and reaches the split path: [1.0 / areaPixel] is
    infinite and the two bins it touches receive NaN, in [outCount] and in
    [outData], where a run without the pixel leaves 0.  The same happens in
    the single-row path of [fullSplit2D]. *)
Theorem degenerate_pixel_poisons_bins :
  let o := with_ranges (Some [0; 3]) (Some [0; 1]) in
  let o2 := with_ranges (Some [0; 2]) (Some [0; 2]) in
  area4 0.5 0 1.5 0 1.5 0 0.5 0 = 0 /\
  outCount_of (fullSplit1D [quad 0.5 0 1.5 0 1.5 0 0.5 0] [10] 3 o)
  = Some [nan; nan; 0] /\
  outData_of (fullSplit1D [quad 0.5 0 1.5 0 1.5 0 0.5 0] [10] 3 o)
  = Some [nan; nan; 0] /\
  outCount_of (fullSplit1D [] [] 3 o) = Some [0; 0; 0] /\
  outCount_of (fullSplit2D [quad 0.5 0.5 1.5 0.5 1.5 0.5 0.5 0.5] [10] (BinsPair 2 2) o2)
  = Some [[nan; 0]; [nan; 0]] /\
  outCount_of (fullSplit2D [] [] (BinsPair 2 2) o2) = Some [[0; 0]; [0; 0]].
Proof.
  repeat split; vm_compute; reflexivity.
Qed.

(** C4, on the code.  With three bins over [0, 3], the pixel from -0.5 to
    0.5 passes the range test ([max0 >= 0], [min0 < bins]) and its first
    accumulation is at bin -1; in 2D with 2x2 bins over [0, 2] x [0, 2], a
    pixel at [pos1] 2.5 to 2.75 passes the test, which has no upper check on
    [pos1], and accumulates at [bin1 = 2].  Both runs index outside the
    output arrays. *)
Theorem accumulation_out_of_bounds :
  let o := with_ranges (Some [0; 3]) None in
  let o2 := with_ranges (Some [0; 2]) (Some [0; 2]) in
  let p := quad (-0.5) 0 0.5 0 0.5 1 (-0.5) 1 in
  let p2 := quad 0.25 2.5 0.5 2.5 0.5 2.75 0.25 2.75 in
  deposits1D [p] [10] 3 o 0
  = Ok [ {| bin := -1; dcount := 0.5; ddata := 5 |};
         {| bin := 0; dcount := 0.5; ddata := 5 |} ] /\
  fullSplit1D [p] [10] 3 o = Undefined OutOfBounds /\
  deposits2D [p2] [10] 2 2 o2 [] 0
  = Ok [ {| dbin0 := 0; dbin1 := 2; dcount2 := 1; ddata2 := 10 |} ] /\
  fullSplit2D [p2] [10] (BinsPair 2 2) o2 = Undefined OutOfBounds.
Proof.
  repeat split; vm_compute; reflexivity.
Qed.

(** C5, on the code.  With [pos1Range = (10, 20)], a pixel whose [pos1]
    corners are 0 and 1 lies outside the azimuthal range, and is accumulated
    all the same: [check_pos1] is never set. *)
Theorem azimuthal_filter_inactive :
  let o := with_ranges (Some [0; 2]) (Some [10; 20]) in
  let p := quad 0.25 0 0.75 0 0.75 1 0.25 1 in
  deposits1D [p] [7] 2 o 0 = Ok [ {| bin := 0; dcount := 1; ddata := 7 |} ] /\
  outCount_of (fullSplit1D [p] [7] 2 o) = Some [1; 0] /\
  outData_of (fullSplit1D [p] [7] 2 o) = Some [7; 0].
Proof.
  repeat split; vm_compute; reflexivity.
Qed.

(** C8, on the code.  [fullSplit2D] expands its upper bounds by the float64
    machine epsilon, where [fullSplit1D] uses the float32 one.  Over the
    range (0, 11) with 5 bins the expanded bound is the next double after
    11, the bin width rounds to the double nearest 2.2 and the maximum 11
    has the bin index 5 exactly, the bin count: a pixel that ends at the
    maximum is accumulated at row 5 of 5, outside the output, with the range
    given or taken from the data.  [fullSplit1D] on the same pixel keeps the
    index below 5 and returns.  And a negative maximum is moved the wrong
    way by both: with [pos0] from -1.5 to -1 and 2 bins, the maximum has an
    index above 2 and bin 2 is written. *)
Theorem upper_bound_expansion_lost :
  let o := with_ranges (Some [0; 11]) (Some [0; 1]) in
  let p := quad 10.5 0.25 11 0.25 11 0.75 10.5 0.75 in
  let n := quad (-1.5) 0 (-1) 0 (-1) 1 (-1.5) 1 in
  (exists r, ranges eps64 [p] o = Ok r /\
     pos0_maxin r = 11 /\ pos0_max r = 11 * (1 + 0x1p-52) /\
     (pos0_maxin r <? pos0_max r) = true /\
     getBinNr (pos0_maxin r) (pos0_min r) (bin_width (pos0_min r) (pos0_max r) 5) = 5) /\
  deposits2D [p] [10] 5 1 o [] 0
  = Ok [ {| dbin0 := 4; dbin1 := 0; dcount2 := 1; ddata2 := 10 |};
         {| dbin0 := 5; dbin1 := 0; dcount2 := 0; ddata2 := 0 |} ] /\
  fullSplit2D [p] [10] (BinsPair 5 1) o = Undefined OutOfBounds /\
  fullSplit2D [quad 0 0 11 0 11 1 0 1] [10] (BinsPair 5 1) (with_ranges None None)
  = Undefined OutOfBounds /\
  (exists r, ranges eps32 [p] o = Ok r /\
     (getBinNr (pos0_maxin r) (pos0_min r) (bin_width (pos0_min r) (pos0_max r) 5) <? 5)
     = true) /\
  outCount_of (fullSplit1D [p] [10] 5 o) = Some [0; 0; 0; 0; 1] /\
  (exists r, ranges eps32 [n] (with_ranges None None) = Ok r /\
     pos0_maxin r = -1 /\ (pos0_max r <? pos0_maxin r) = true /\
     (2 <? getBinNr (pos0_maxin r) (pos0_min r) (bin_width (pos0_min r) (pos0_max r) 2))
     = true) /\
  fullSplit1D [n] [10] 2 (with_ranges None None) = Undefined OutOfBounds /\
  fullSplit2D [n] [10] (BinsPair 2 1) (with_ranges None None) = Undefined OutOfBounds.
Proof.
  intros o p n.
  split; [eexists; split; [vm_compute; reflexivity |]; repeat split; vm_compute; reflexivity |].
  do 3 (split; [vm_compute; reflexivity |]).
  split; [eexists; split; [vm_compute; reflexivity |]; vm_compute; reflexivity |].
  split; [vm_compute; reflexivity |].
  split; [eexists; split; [vm_compute; reflexivity |]; repeat split; vm_compute; reflexivity |].
  split; vm_compute; reflexivity.
Qed.

End Binary64.

(* ================================================================== *)
(** * Ranges and bin centres, in exact arithmetic *)
(* ================================================================== *)

Lemma nth_map_zrange {A : Type} (f : Z -> A) (lo hi : Z) (k : nat) (d : A) :
  (Z.of_nat k < hi - lo)%Z -> nth k (map f (zrange lo hi)) d = f (lo + Z.of_nat k)%Z.
Proof.
  intros Hk. unfold zrange. rewrite map_map.
  rewrite nth_indep with (d' := f (lo + Z.of_nat 0)%Z)
    by (rewrite length_map, length_seq; lia).
  rewrite (map_nth (fun n => f (lo + Z.of_nat n)%Z) (seq 0 (Z.to_nat (hi - lo))) 0%nat k).
  rewrite seq_nth by lia. reflexivity.
Qed.

Module Ranges.

Lemma min2_le_l (a b : Q) : min2 a b <= a.
Proof. unfold min2. exact_arith. case_lt b a; lra. Qed.

Lemma max2_ge_l (a b : Q) : a <= max2 a b.
Proof. unfold max2. exact_arith. case_lt a b; lra. Qed.

Lemma fold_min2_le (l : list Q) (x : Q) : fold_left min2 l x <= x.
Proof.
  revert x. induction l as [| y l IH]; intros x; simpl; [lra |].
  apply Qle_trans with (min2 x y); [apply IH | apply min2_le_l].
Qed.

Lemma fold_max2_ge (l : list Q) (x : Q) : x <= fold_left max2 l x.
Proof.
  revert x. induction l as [| y l IH]; intros x; simpl; [lra |].
  apply Qle_trans with (max2 x y); [apply max2_ge_l | apply IH].
Qed.

Lemma seq_min_le_max (l : list Q) (lo hi : Q) :
  seq_min l = Some lo -> seq_max l = Some hi -> lo <= hi.
Proof.
  destruct l as [| x l]; simpl; [discriminate |].
  intros [= <-] [= <-].
  apply Qle_trans with x; [apply fold_min2_le | apply fold_max2_ge].
Qed.

Lemma axis_range_ordered (r : option (list Q)) sel (pos : list (pixel Q)) lo hi g :
  axis_range r sel pos = Ok (lo, hi, g) -> lo <= hi.
Proof.
  unfold axis_range.
  assert (Hdata : forall g',
             match seq_min (column sel pos), seq_max (column sel pos) with
             | Some lo0, Some hi0 => Ok (lo0, hi0, g')
             | _, _ => Raise ValueError
             end = Ok (lo, hi, g) -> lo <= hi).
  { intros g'. destruct (seq_min (column sel pos)) as [lo0 |] eqn:Emin;
      [| discriminate].
    destruct (seq_max (column sel pos)) as [hi0 |] eqn:Emax; [| discriminate].
    intros [= <- <- _]. eapply seq_min_le_max; eassumption. }
  destruct r as [l |]; [| apply Hdata].
  destruct (1 <? length l)%nat; [| apply Hdata].
  destruct (seq_min l) as [lo0 |] eqn:Emin; [| discriminate].
  destruct (seq_max l) as [hi0 |] eqn:Emax; [| discriminate].
  intros [= <- <- _]. eapply seq_min_le_max; eassumption.
Qed.

(** What [ranges] computes. *)
Lemma ranges_Ok (eps : Q) (pos : list (pixel Q)) (o : options Q) (r : bounds Q) :
  ranges eps pos o = Ok r ->
  pos0_min r <= pos0_maxin r /\ pos0_max r = pos0_maxin r * (1 + eps) /\
  pos1_min r <= pos1_maxin r /\ pos1_max r = pos1_maxin r * (1 + eps).
Proof.
  unfold ranges. intros E.
  inv_bind E. destruct a as [[lo0 hi0] g0].
  inv_bind E. destruct a as [[lo1 hi1] g1].
  injection E as <-. simpl.
  apply axis_range_ordered in E0. apply axis_range_ordered in E1.
  repeat split; assumption.
Qed.

(** The fractional bin index of the inclusive maximum. *)
Lemma index_of_maximum (lo hi_in eps : Q) (bins : Z) :
  lo <= hi_in -> 0 < eps -> 0 < hi_in -> (0 < bins)%Z ->
  getBinNr hi_in lo (bin_width lo (hi_in * (1 + eps)) bins) < inject_Z bins.
Proof.
  intros Hord Heps Hpos Hbins. unfold getBinNr, bin_width. exact_arith.
  assert (HB : 0 < inject_Z bins) by (change 0 with (inject_Z 0); now rewrite <- Zlt_Qlt).
  assert (Hgrow : 0 < hi_in * eps) by (apply Qmult_lt_0_compat; assumption).
  assert (Hw : 0 < (hi_in * (1 + eps) - lo) / inject_Z bins).
  { apply Qlt_shift_div_l; [exact HB | lra]. }
  apply Qlt_shift_div_r; [exact Hw |].
  setoid_replace (inject_Z bins * ((hi_in * (1 + eps) - lo) / inject_Z bins))
    with (hi_in * (1 + eps) - lo) by (field; lra).
  lra.
Qed.

End Ranges.

Module Centers.

(** The samples of [linspace] for bin centres. *)
Lemma centers_nth (lo hi_in delta : Q) (bins : Z) (k : nat) :
  (Z.of_nat k < bins)%Z ->
  nth k (centers lo hi_in delta bins) 0 ==
  lo + (1 # 2) * delta
  + inject_Z (Z.of_nat k) * ((hi_in - lo - delta) / inject_Z (bins - 1)).
Proof.
  intros Hk. unfold centers, linspace.
  rewrite nth_map_zrange by lia. rewrite Z.add_0_l. exact_arith.
  destruct (Z.ltb_spec 0 (bins - 1)) as [Hb | Hb].
  - assert (HB : ~ inject_Z (bins - 1) == 0).
    { change 0 with (inject_Z 0). rewrite inject_Z_injective. lia. }
    destruct (Z.eqb_spec (Z.of_nat k) (bins - 1)) as [-> | Hne].
    + field. exact HB.
    + field. exact HB.
  - assert (Hk0 : Z.of_nat k = 0%Z) by lia. rewrite Hk0.
    change (inject_Z 0) with 0. ring.
Qed.

(** The distance between the sample and the centre of bin [k]. *)
Lemma centers_offset (lo hi_in eps : Q) (bins : Z) (k : nat) :
  (Z.of_nat k < bins)%Z ->
  let delta := bin_width lo (hi_in * (1 + eps)) bins in
  nth k (centers lo hi_in delta bins) 0 ==
  lo + (inject_Z (Z.of_nat k) + (1 # 2)) * delta
  - inject_Z (Z.of_nat k) * (eps * hi_in / inject_Z (bins - 1)).
Proof.
  intros Hk delta. rewrite centers_nth by exact Hk.
  unfold delta, bin_width. exact_arith.
  assert (HB : ~ inject_Z bins == 0).
  { change 0 with (inject_Z 0). rewrite inject_Z_injective. lia. }
  destruct (Z.eq_dec bins 1) as [-> | Hb1].
  - assert (Hk0 : Z.of_nat k = 0%Z) by lia. rewrite Hk0.
    change (inject_Z 0) with 0. ring.
  - assert (HB1 : ~ inject_Z (bins - 1) == 0).
    { change 0 with (inject_Z 0). rewrite inject_Z_injective. lia. }
    unfold Z.sub in *. rewrite inject_Z_plus in *. change (inject_Z (- (1))) with (- (1)) in *.
    field. split; assumption.
Qed.

(** C9, as the code has it.  The bin centres are the samples of
    [linspace(pos_min + 0.5*d, pos_maxin - 0.5*d, bins)], stepped over the
    inclusive range while [d] comes from the expanded one: in exact
    arithmetic [outPos[k]] is [pos0_min + (k + 0.5)*d0] less
    [k * eps * pos0_maxin / (bins - 1)], and likewise [edges0] and [edges1]
    in 2D; the two agree at [k = 0]. *)
Theorem bin_centers {M : Memory} (pos : list (pixel Q)) (weights : list Q)
    (o : options Q) :
  (forall bins outPos outMerge outData outCount,
      fullSplit1D pos weights bins o = Ok (outPos, outMerge, outData, outCount) ->
      exists r, ranges eps32 pos o = Ok r /\
        let d0 := bin_width (pos0_min r) (pos0_max r) bins in
        forall k, (Z.of_nat k < bins)%Z ->
          nth k outPos 0 ==
          pos0_min r + (inject_Z (Z.of_nat k) + (1 # 2)) * d0
          - inject_Z (Z.of_nat k) * (eps32 * pos0_maxin r / inject_Z (bins - 1))) /\
  (forall bins outMerge edges0 edges1 outData outCount,
      fullSplit2D pos weights bins o = Ok (outMerge, edges0, edges1, outData, outCount) ->
      exists b0 b1 r, parse_bins bins = Ok (b0, b1) /\ ranges eps64 pos o = Ok r /\
        let d0 := bin_width (pos0_min r) (pos0_max r) (at_least_one b0) in
        let d1 := bin_width (pos1_min r) (pos1_max r) (at_least_one b1) in
        (forall k, (Z.of_nat k < at_least_one b0)%Z ->
           nth k edges0 0 ==
           pos0_min r + (inject_Z (Z.of_nat k) + (1 # 2)) * d0
           - inject_Z (Z.of_nat k)
             * (eps64 * pos0_maxin r / inject_Z (at_least_one b0 - 1))) /\
        (forall k, (Z.of_nat k < at_least_one b1)%Z ->
           nth k edges1 0 ==
           pos1_min r + (inject_Z (Z.of_nat k) + (1 # 2)) * d1
           - inject_Z (Z.of_nat k)
             * (eps64 * pos1_maxin r / inject_Z (at_least_one b1 - 1)))).
Proof.
  split.
  - intros bins outPos outMerge outData outCount E.
    apply fullSplit1D_Ok in E. destruct E as (Hb & r & Hr & -> & _).
    exists r. split; [exact Hr |]. intros d0 k Hk.
    apply Ranges.ranges_Ok in Hr. destruct Hr as (_ & Hmax & _).
    unfold d0. rewrite Hmax. apply (centers_offset _ _ eps32). exact Hk.
  - intros bins outMerge edges0 edges1 outData outCount E.
    apply fullSplit2D_Ok in E. destruct E as (b0 & b1 & r & Hb & Hr & -> & -> & _).
    exists b0, b1, r. split; [exact Hb |]. split; [exact Hr |].
    apply Ranges.ranges_Ok in Hr. destruct Hr as (_ & Hmax0 & _ & Hmax1).
    split; intros k Hk.
    + rewrite Hmax0. apply (centers_offset _ _ eps64). exact Hk.
    + rewrite Hmax1. apply (centers_offset _ _ eps64). exact Hk.
Qed.

End Centers.

(** Two bins over [0, 1]: [d0 = (1 + 2^-23) / 2], and the second sample is
    [1 - d0/2 = 3/4 - 2^-25], not [0 + 1.5 * d0 = 3/4 + 3 * 2^-25]. *)
Lemma bin_centers_counterexample :
  let p := quad (1 # 4) 0 (3 # 4) 0 (3 # 4) 1 (1 # 4) 1 in
  let o := with_ranges (Some [0; 1]) None in
  exists outPos outMerge outData outCount r,
    fullSplit1D [p] [7] 2 o = Ok (outPos, outMerge, outData, outCount) /\
    ranges eps32 [p] o = Ok r /\
    nth 1 outPos 0 == (3 # 4) - (1 # 2 ^ 25) /\
    pos0_min r + (1 + (1 # 2)) * bin_width (pos0_min r) (pos0_max r) 2
    == (3 # 4) + (3 # 2 ^ 25) /\
    ~ nth 1 outPos 0
      == pos0_min r + (1 + (1 # 2)) * bin_width (pos0_min r) (pos0_max r) 2.
Proof.
  intros p o. do 5 eexists.
  split; [vm_compute; reflexivity |].
  split; [vm_compute; reflexivity |].
  split; [reflexivity |]. split; [reflexivity |].
  vm_compute. discriminate.
Qed.

Lemma bin_centers_witness :
  let p := quad (1 # 4) 0 (3 # 4) 0 (3 # 4) 1 (1 # 4) 1 in
  let o := with_ranges (Some [0; 1]) None in
  exists outPos outMerge outData outCount r,
    fullSplit1D [p] [7] 2 o = Ok (outPos, outMerge, outData, outCount) /\
    ranges eps32 [p] o = Ok r /\
    nth 1 outPos 0 ==
    pos0_min r + (1 + (1 # 2)) * bin_width (pos0_min r) (pos0_max r) 2
    - 1 * (eps32 * pos0_maxin r / 1).
Proof.
  intros p o.
  destruct (fullSplit1D [p] [7] 2 o)
    as [[[[outPos outMerge] outData] outCount] | e | u] eqn:E;
    [| vm_compute in E; discriminate ..].
  destruct (proj1 (Centers.bin_centers [p] [7] o) _ _ _ _ _ E) as (r & Hr & Hk).
  exists outPos, outMerge, outData, outCount, r.
  split; [reflexivity |]. split; [exact Hr |].
  apply (Hk 1%nat). reflexivity.
Defined.

(* ================================================================== *)
(** * Partition of unity of the 1D split, in exact arithmetic *)
(* ================================================================== *)

Module Unity.

(** ** The clamp [lim] *)

Lemma inject_Z_succ (k : Z) : inject_Z (k + 1) == inject_Z k + 1.
Proof. rewrite inject_Z_plus. reflexivity. Qed.

Ltac simpl_flags :=
  rewrite ?Z.mul_1_l, ?Z.mul_0_l, ?Z.mul_0_r, ?Z.mul_1_r;
  change (inject_Z 0) with 0; change (inject_Z 1) with 1.

(** [lim x k] is [x] clamped to the column from [k] to [k + 1]. *)
Lemma lim_cases (x : Q) (k : Z) :
  (x <= inject_Z k /\ lim x k == inject_Z k) \/
  (inject_Z k < x /\ x <= inject_Z k + 1 /\ lim x k == x) \/
  (inject_Z k + 1 < x /\ lim x k == inject_Z k + 1).
Proof.
  unfold lim. exact_arith. pose proof (inject_Z_succ k) as Hk.
  case_le x (inject_Z k); case_le x (inject_Z (k + 1));
    case_lt (inject_Z k) x; case_lt (inject_Z (k + 1)) x;
    try (exfalso; lra); cbn [b2z].
  - left. split; [assumption |]. simpl_flags. ring.
  - right; left. split; [assumption |]. split; [lra |]. simpl_flags. ring.
  - right; right. split; [lra |]. simpl_flags. rewrite Hk. ring.
Qed.

Lemma lim_bounds (x : Q) (k : Z) : inject_Z k <= lim x k <= inject_Z k + 1.
Proof.
  destruct (lim_cases x k) as [(H1 & ->) | [(H1 & H2 & ->) | (H1 & ->)]]; lra.
Qed.

Lemma lim_mono (x y : Q) (k : Z) : x <= y -> lim x k <= lim y k.
Proof.
  intros Hxy.
  destruct (lim_cases x k) as [(H1 & ->) | [(H1 & H2 & ->) | (H1 & ->)]];
    destruct (lim_cases y k) as [(G1 & ->) | [(G1 & G2 & ->) | (G1 & ->)]]; lra.
Qed.

Lemma lim_eq (x y : Q) (k : Z) : x == y -> lim x k == lim y k.
Proof.
  intros Hxy. apply Qle_antisym; apply lim_mono; lra.
Qed.

(** Where the clamp moves [x] down, the column lies below [x]; where it
    moves [x] up, above. *)
Lemma lim_below (x : Q) (k : Z) : lim x k < x -> lim x k == inject_Z k + 1.
Proof.
  destruct (lim_cases x k) as [(H1 & E) | [(H1 & H2 & E) | (H1 & E)]];
    rewrite E; intros; lra.
Qed.

Lemma lim_above (x : Q) (k : Z) : x < lim x k -> lim x k == inject_Z k.
Proof.
  destruct (lim_cases x k) as [(H1 & E) | [(H1 & H2 & E) | (H1 & E)]];
    rewrite E; intros; lra.
Qed.

(** Between two clamped abscissas that differ, the lower one is not below
    its point and the upper one not above its point. *)
Lemma lim_gap (x y : Q) (k : Z) :
  x <= y -> lim x k < lim y k -> x <= lim x k /\ lim y k <= y.
Proof.
  intros Hxy Hlt. pose proof (lim_bounds x k). pose proof (lim_bounds y k). split.
  - destruct (Qlt_le_dec (lim x k) x) as [Hd |]; [| assumption].
    apply lim_below in Hd. lra.
  - destruct (Qlt_le_dec y (lim y k)) as [Hu |]; [| assumption].
    apply lim_above in Hu. lra.
Qed.

(** ** The integral of a line *)

Lemma integrate_eq (a b : Q) (f : Function Q) :
  integrate a b f == slope f * (b * b - a * a) * (1 # 2) + intersect f * (b - a).
Proof.
  unfold integrate. exact_arith.
  case_eq_Q a b; [| reflexivity].
  rewrite E. change (inject_Z 0) with 0. ring.
Qed.

Lemma partial_area_edges (A0 A1 B0 B1 C0 C1 D0 D1 : Q) (u : Z) :
  partial_area A0 B0 C0 D0
    (line_through A0 A1 B0 B1) (line_through B0 B1 C0 C1)
    (line_through C0 C1 D0 D1) (line_through D0 D1 A0 A1) u
  = edge A0 A1 B0 B1 u + edge B0 B1 C0 C1 u + edge C0 C1 D0 D1 u + edge D0 D1 A0 A1 u.
Proof. reflexivity. Qed.

(** An edge over a column where both ends clamp to the same abscissa. *)
Lemma edge_flat (p0 p1 q0 q1 : Q) (u : Z) :
  lim p0 u == lim q0 u -> edge p0 p1 q0 q1 u == 0.
Proof.
  intros E. unfold edge. rewrite integrate_eq, E. ring.
Qed.

(** Otherwise the edge is not vertical, and its integral is the width times
    the height of the line at the middle. *)
Lemma edge_mid (p0 p1 q0 q1 : Q) (u : Z) :
  ~ p0 == q0 ->
  edge p0 p1 q0 q1 u ==
  (lim q0 u - lim p0 u)
  * (p1 + (q1 - p1) / (q0 - p0) * ((lim p0 u + lim q0 u) * (1 # 2) - p0)).
Proof.
  intros Hne. unfold edge. rewrite integrate_eq. unfold line_through.
  cbn [slope intersect]. exact_arith. field. lra.
Qed.

(** The edge walked backwards. *)
Lemma edge_rev (p0 p1 q0 q1 : Q) (u : Z) :
  edge q0 q1 p0 p1 u == - edge p0 p1 q0 q1 u.
Proof.
  destruct (Qeq_dec p0 q0) as [E | Hne].
  - rewrite !edge_flat; [ring | apply lim_eq; exact E | apply lim_eq; lra].
  - rewrite (edge_mid p0 p1 q0 q1) by exact Hne.
    rewrite (edge_mid q0 q1 p0 p1) by lra.
    field. split; lra.
Qed.

(** ** Triangles *)

Lemma mid_left (p0 p1 q0 q1 r0 r1 a b : Q) :
  p0 < q0 -> p0 < r0 ->
  mid p0 p1 q0 q1 a b + mid r0 r1 p0 p1 b a
  == - turn p0 p1 q0 q1 r0 r1 * left_share p0 q0 r0 a b.
Proof.
  intros H1 H2. unfold mid, turn, left_share. field. repeat split; lra.
Qed.

Lemma mid_right (p0 p1 q0 q1 r0 r1 b c : Q) :
  q0 < r0 -> p0 < r0 ->
  mid q0 q1 r0 r1 b c + mid r0 r1 p0 p1 c b
  == - turn p0 p1 q0 q1 r0 r1 * right_share p0 q0 r0 b c.
Proof.
  intros H1 H2. unfold mid, turn, right_share. field. repeat split; lra.
Qed.

Lemma mid_both (p0 p1 q0 q1 r0 r1 a b c : Q) :
  p0 < q0 -> q0 < r0 ->
  mid p0 p1 q0 q1 a b + mid q0 q1 r0 r1 b c + mid r0 r1 p0 p1 c a
  == - turn p0 p1 q0 q1 r0 r1
     * (left_share p0 q0 r0 a b + right_share p0 q0 r0 b c).
Proof.
  intros H1 H2. unfold mid, turn, left_share, right_share. field. repeat split; lra.
Qed.

Lemma left_share_nonneg (p0 q0 r0 a b : Q) :
  p0 < q0 -> p0 < r0 -> a <= b -> p0 <= a ->
  0 <= left_share p0 q0 r0 a b.
Proof.
  intros H1 H2 Hab Hpa. unfold left_share.
  apply Qle_shift_div_l; [apply Qmult_lt_0_compat; lra |].
  rewrite Qmult_0_l. apply Qmult_le_0_compat; lra.
Qed.

Lemma right_share_nonneg (p0 q0 r0 b c : Q) :
  q0 < r0 -> p0 < r0 -> b <= c -> c <= r0 ->
  0 <= right_share p0 q0 r0 b c.
Proof.
  intros H1 H2 Hbc Hcr. unfold right_share.
  apply Qle_shift_div_l; [apply Qmult_lt_0_compat; lra |].
  rewrite Qmult_0_l. apply Qmult_le_0_compat; lra.
Qed.

Lemma left_share_pos (p0 q0 r0 a b : Q) :
  p0 < q0 -> p0 < r0 -> a < b -> p0 <= a ->
  0 < left_share p0 q0 r0 a b.
Proof.
  intros H1 H2 Hab Hpa. unfold left_share.
  apply Qlt_shift_div_l; [apply Qmult_lt_0_compat; lra |].
  rewrite Qmult_0_l. apply Qmult_lt_0_compat; lra.
Qed.

Lemma right_share_pos (p0 q0 r0 b c : Q) :
  q0 < r0 -> p0 < r0 -> b < c -> c <= r0 ->
  0 < right_share p0 q0 r0 b c.
Proof.
  intros H1 H2 Hbc Hcr. unfold right_share.
  apply Qlt_shift_div_l; [apply Qmult_lt_0_compat; lra |].
  rewrite Qmult_0_l. apply Qmult_lt_0_compat; lra.
Qed.

Lemma edge_as_mid (p0 p1 q0 q1 : Q) (u : Z) :
  ~ p0 == q0 -> edge p0 p1 q0 q1 u == mid p0 p1 q0 q1 (lim p0 u) (lim q0 u).
Proof. intros Hne. unfold mid. now apply edge_mid. Qed.

(** The sum over a triangle whose middle corner lies between the other two
    is the signed area times a share, which is positive unless the column
    sees the triangle at one abscissa. *)
Lemma tri_ascending (p0 p1 q0 q1 r0 r1 : Q) (u : Z) :
  p0 <= q0 -> q0 <= r0 ->
  exists K, 0 <= K /\ tri p0 p1 q0 q1 r0 r1 u == - turn p0 p1 q0 q1 r0 r1 * K /\
            (0 < K \/ flat3 p0 q0 r0 u).
Proof.
  intros Hpq Hqr. unfold tri, flat3.
  pose proof (lim_mono p0 q0 u Hpq) as Hab.
  pose proof (lim_mono q0 r0 u Hqr) as Hbc.
  destruct (Qlt_le_dec (lim p0 u) (lim q0 u)) as [Ha | Ha];
    destruct (Qlt_le_dec (lim q0 u) (lim r0 u)) as [Hb | Hb].
  - (* the column meets both sides of Q *)
    destruct (lim_gap p0 q0 u Hpq Ha) as [Hpa _].
    destruct (lim_gap q0 r0 u Hqr Hb) as [_ Hcr].
    assert (H1 : p0 < q0).
    { destruct (Qlt_le_dec p0 q0); [assumption |].
      pose proof (lim_mono q0 p0 u). lra. }
    assert (H2 : q0 < r0).
    { destruct (Qlt_le_dec q0 r0); [assumption |].
      pose proof (lim_mono r0 q0 u). lra. }
    exists (left_share p0 q0 r0 (lim p0 u) (lim q0 u)
            + right_share p0 q0 r0 (lim q0 u) (lim r0 u)).
    pose proof (left_share_pos p0 q0 r0 (lim p0 u) (lim q0 u)).
    pose proof (right_share_pos p0 q0 r0 (lim q0 u) (lim r0 u)).
    split; [lra |]. split; [| left; lra].
    rewrite !edge_as_mid by lra. apply mid_both; assumption.
  - (* only the left side *)
    destruct (lim_gap p0 q0 u Hpq Ha) as [Hpa _].
    assert (H1 : p0 < q0).
    { destruct (Qlt_le_dec p0 q0); [assumption |].
      pose proof (lim_mono q0 p0 u). lra. }
    assert (Ebc : lim q0 u == lim r0 u) by lra.
    exists (left_share p0 q0 r0 (lim p0 u) (lim q0 u)).
    pose proof (left_share_pos p0 q0 r0 (lim p0 u) (lim q0 u)).
    split; [lra |]. split; [| left; lra].
    rewrite (edge_flat q0 q1 r0 r1) by exact Ebc.
    rewrite !edge_as_mid by lra.
    rewrite <- (mid_left p0 p1 q0 q1 r0 r1) by lra.
    unfold mid. rewrite Ebc. ring.
  - (* only the right side *)
    destruct (lim_gap q0 r0 u Hqr Hb) as [_ Hcr].
    assert (H2 : q0 < r0).
    { destruct (Qlt_le_dec q0 r0); [assumption |].
      pose proof (lim_mono r0 q0 u). lra. }
    assert (Eab : lim p0 u == lim q0 u) by lra.
    exists (right_share p0 q0 r0 (lim q0 u) (lim r0 u)).
    pose proof (right_share_pos p0 q0 r0 (lim q0 u) (lim r0 u)).
    split; [lra |]. split; [| left; lra].
    rewrite (edge_flat p0 p1 q0 q1) by exact Eab.
    rewrite !edge_as_mid by lra.
    rewrite <- (mid_right p0 p1 q0 q1 r0 r1) by lra.
    unfold mid. rewrite Eab. ring.
  - (* the column misses the triangle, or sees it as a segment *)
    exists 0. split; [lra |]. split; [| right; split; lra].
    rewrite !edge_flat; [ring | lra | lra | lra].
Qed.

(** The same for the three corners in any order: rotating the triangle
    changes neither side, walking it backwards negates both. *)
Lemma turn_rot (p0 p1 q0 q1 r0 r1 : Q) :
  turn q0 q1 r0 r1 p0 p1 == turn p0 p1 q0 q1 r0 r1.
Proof. unfold turn. ring. Qed.

Lemma turn_rev (p0 p1 q0 q1 r0 r1 : Q) :
  turn r0 r1 q0 q1 p0 p1 == - turn p0 p1 q0 q1 r0 r1.
Proof. unfold turn. ring. Qed.

Lemma tri_rot (p0 p1 q0 q1 r0 r1 : Q) (u : Z) :
  tri q0 q1 r0 r1 p0 p1 u == tri p0 p1 q0 q1 r0 r1 u.
Proof. unfold tri. ring. Qed.

Lemma tri_rev (p0 p1 q0 q1 r0 r1 : Q) (u : Z) :
  tri r0 r1 q0 q1 p0 p1 u == - tri p0 p1 q0 q1 r0 r1 u.
Proof.
  unfold tri.
  rewrite (edge_rev q0 q1 r0 r1), (edge_rev p0 p1 q0 q1), (edge_rev r0 r1 p0 p1).
  ring.
Qed.

Lemma tri_signed (p0 p1 q0 q1 r0 r1 : Q) (u : Z) :
  column_share p0 p1 q0 q1 r0 r1 u.
Proof.
  assert (Hrot : forall a0 a1 b0 b1 c0 c1,
             column_share b0 b1 c0 c1 a0 a1 u -> column_share a0 a1 b0 b1 c0 c1 u).
  { intros a0 a1 b0 b1 c0 c1 (K & HK & E & HF). exists K. split; [exact HK |].
    split; [rewrite <- tri_rot, <- turn_rot; exact E |].
    destruct HF as [HF | [F1 F2]]; [now left | right; split; lra]. }
  assert (Hrev : forall a0 a1 b0 b1 c0 c1,
             column_share c0 c1 b0 b1 a0 a1 u -> column_share a0 a1 b0 b1 c0 c1 u).
  { intros a0 a1 b0 b1 c0 c1 (K & HK & E & HF). exists K. split; [exact HK |].
    split; [rewrite tri_rev, turn_rev in E; lra |].
    destruct HF as [HF | [F1 F2]]; [now left | right; split; lra]. }
  destruct (Qlt_le_dec q0 p0) as [Hqp | Hpq];
    destruct (Qlt_le_dec r0 q0) as [Hrq | Hqr];
    destruct (Qlt_le_dec r0 p0) as [Hrp | Hpr].
  - (* r < q < p *) apply Hrev. apply tri_ascending; lra.
  - exfalso. lra.
  - (* q <= r < p *) apply Hrot. apply tri_ascending; lra.
  - (* q < p <= r *) apply Hrev, Hrot. apply tri_ascending; lra.
  - (* r < p <= q *) apply Hrot, Hrot. apply tri_ascending; lra.
  - (* p <= r < q *) apply Hrev, Hrot, Hrot. apply tri_ascending; lra.
  - exfalso. lra.
  - (* p <= q <= r *) apply tri_ascending; lra.
Qed.

(** ** The quadrilateral *)

Lemma around_split (a0 a1 b0 b1 c0 c1 d0 d1 : Q) (u : Z) :
  around a0 a1 b0 b1 c0 c1 d0 d1 u
  == tri a0 a1 b0 b1 c0 c1 u + tri a0 a1 c0 c1 d0 d1 u.
Proof.
  unfold around, tri. rewrite (edge_rev a0 a1 c0 c1). ring.
Qed.

Lemma cross_turns (a0 a1 b0 b1 c0 c1 d0 d1 : Q) :
  cross a0 a1 b0 b1 c0 c1 d0 d1
  == turn a0 a1 b0 b1 c0 c1 + turn a0 a1 c0 c1 d0 d1.
Proof. unfold cross, turn. ring. Qed.

Lemma area4_cross (a0 a1 b0 b1 c0 c1 d0 d1 : Q) :
  area4 a0 a1 b0 b1 c0 c1 d0 d1 = (1 # 2) * Qabs (cross a0 a1 b0 b1 c0 c1 d0 d1).
Proof. reflexivity. Qed.

(** In a quadrilateral whose diagonal AC separates B from D, every column
    sum has the sign opposite to the area. *)
Lemma around_sign (a0 a1 b0 b1 c0 c1 d0 d1 : Q) (u : Z) :
  (0 <= turn a0 a1 b0 b1 c0 c1 -> 0 <= turn a0 a1 c0 c1 d0 d1 ->
   around a0 a1 b0 b1 c0 c1 d0 d1 u <= 0) /\
  (turn a0 a1 b0 b1 c0 c1 <= 0 -> turn a0 a1 c0 c1 d0 d1 <= 0 ->
   0 <= around a0 a1 b0 b1 c0 c1 d0 d1 u).
Proof.
  rewrite around_split.
  destruct (tri_signed a0 a1 b0 b1 c0 c1 u) as (K1 & HK1 & -> & _).
  destruct (tri_signed a0 a1 c0 c1 d0 d1 u) as (K2 & HK2 & -> & _).
  split; intros H1 H2.
  - pose proof (Qmult_le_0_compat _ _ H1 HK1).
    pose proof (Qmult_le_0_compat _ _ H2 HK2). lra.
  - assert (G1 : 0 <= - turn a0 a1 b0 b1 c0 c1) by lra.
    assert (G2 : 0 <= - turn a0 a1 c0 c1 d0 d1) by lra.
    pose proof (Qmult_le_0_compat _ _ G1 HK1).
    pose proof (Qmult_le_0_compat _ _ G2 HK2). lra.
Qed.

(** A column sum that vanishes, for a diagonal that separates the other two
    corners: each of the two triangles is degenerate or seen at one
    abscissa. *)
Lemma around_zero (a0 a1 b0 b1 c0 c1 d0 d1 : Q) (u : Z) :
  separated a0 a1 b0 b1 c0 c1 d0 d1 ->
  around a0 a1 b0 b1 c0 c1 d0 d1 u == 0 ->
  (turn a0 a1 b0 b1 c0 c1 == 0 \/ flat3 a0 b0 c0 u) /\
  (turn a0 a1 c0 c1 d0 d1 == 0 \/ flat3 a0 c0 d0 u).
Proof.
  intros Hsep. rewrite around_split.
  destruct (tri_signed a0 a1 b0 b1 c0 c1 u) as (K1 & HK1 & -> & HF1).
  destruct (tri_signed a0 a1 c0 c1 d0 d1 u) as (K2 & HK2 & -> & HF2).
  intros Hzero.
  assert (Hprod : forall t K, 0 < K -> t * K == 0 -> t == 0).
  { intros t K HK E. destruct (Qeq_dec t 0) as [| Hne]; [assumption |].
    exfalso. apply (Qmult_integral _ _) in E. destruct E; lra. }
  assert (Hterms : turn a0 a1 b0 b1 c0 c1 * K1 == 0 /\ turn a0 a1 c0 c1 d0 d1 * K2 == 0).
  { destruct Hsep as [[H1 H2] | [H1 H2]].
    - pose proof (Qmult_le_0_compat _ _ H1 HK1).
      pose proof (Qmult_le_0_compat _ _ H2 HK2). split; lra.
    - assert (G1 : 0 <= - turn a0 a1 b0 b1 c0 c1) by lra.
      assert (G2 : 0 <= - turn a0 a1 c0 c1 d0 d1) by lra.
      pose proof (Qmult_le_0_compat _ _ G1 HK1).
      pose proof (Qmult_le_0_compat _ _ G2 HK2). split; lra. }
  destruct Hterms as [T1 T2]. split.
  - destruct HF1 as [HF1 | HF1]; [left; now apply (Hprod _ K1) | now right].
  - destruct HF2 as [HF2 | HF2]; [left; now apply (Hprod _ K2) | now right].
Qed.

(** ** Sums over the columns *)

Lemma Qsum_app (l l' : list Q) : Qsum (l ++ l') == Qsum l + Qsum l'.
Proof.
  induction l as [| x l IH]; simpl; [ring |]. rewrite IH. ring.
Qed.

Lemma Qsum_map_ext {A : Type} (f g : A -> Q) (l : list A) :
  (forall x, In x l -> f x == g x) -> Qsum (map f l) == Qsum (map g l).
Proof.
  induction l as [| x l IH]; simpl; intros Hfg; [reflexivity |].
  rewrite (Hfg x) by now left. rewrite IH; [reflexivity |].
  intros; apply Hfg; now right.
Qed.

Lemma Qsum_map_add {A : Type} (f g : A -> Q) (l : list A) :
  Qsum (map (fun x => f x + g x) l) == Qsum (map f l) + Qsum (map g l).
Proof.
  induction l as [| x l IH]; simpl; [ring |]. rewrite IH. ring.
Qed.

Lemma Qsum_map_scale {A : Type} (f : A -> Q) (c : Q) (l : list A) :
  Qsum (map (fun x => f x * c) l) == Qsum (map f l) * c.
Proof.
  induction l as [| x l IH]; simpl; [ring |]. rewrite IH. ring.
Qed.

Lemma Qsum_nonneg (l : list Q) : (forall x, In x l -> 0 <= x) -> 0 <= Qsum l.
Proof.
  induction l as [| x l IH]; simpl; intros Hl; [lra |].
  pose proof (Hl x (or_introl Logic.eq_refl)).
  assert (0 <= Qsum l) by (apply IH; intros; apply Hl; now right). lra.
Qed.

(** Part of a sum of non-negative terms. *)
Lemma Qsum_filter_le (keep : Q -> bool) (l : list Q) :
  (forall x, In x l -> 0 <= x) -> 0 <= Qsum (filter keep l) <= Qsum l.
Proof.
  induction l as [| x l IH]; simpl; intros Hl; [lra |].
  pose proof (Hl x (or_introl Logic.eq_refl)).
  assert (0 <= Qsum (filter keep l) <= Qsum l) by (apply IH; intros; apply Hl; now right).
  destruct (keep x); simpl; lra.
Qed.

Lemma columns_S (n : nat) : columns (S n) = columns n ++ [Z.of_nat n].
Proof. unfold columns. now rewrite seq_S, map_app. Qed.

Lemma zrange_columns (lo hi : Z) :
  zrange lo hi = map (fun u => lo + u)%Z (columns (Z.to_nat (hi - lo))).
Proof. unfold zrange, columns. now rewrite map_map. Qed.

Lemma integrate_prim (a b : Q) (f : Function Q) :
  integrate a b f == prim f b - prim f a.
Proof. rewrite integrate_eq. unfold prim. ring. Qed.

Lemma prim_eq (f : Function Q) (x y : Q) : x == y -> prim f x == prim f y.
Proof. intros E. unfold prim. rewrite E. reflexivity. Qed.

(** Over the first [n] columns the clamped abscissa runs from 0 to [x], or
    to [n] when [x] lies beyond. *)
Lemma prim_telescope (f : Function Q) (x : Q) (n : nat) :
  0 <= x ->
  let total :=
    Qsum (map (fun u => prim f (lim x u) - prim f (inject_Z u)) (columns n)) in
  (x <= inject_Z (Z.of_nat n) -> total == prim f x - prim f 0) /\
  (inject_Z (Z.of_nat n) <= x -> total == prim f (inject_Z (Z.of_nat n)) - prim f 0).
Proof.
  intros Hx. induction n as [| n IH]; intros total.
  - subst total. simpl. change (inject_Z 0) with 0. split; intros Hn.
    + rewrite (prim_eq f x 0) by lra. ring.
    + ring.
  - subst total. rewrite columns_S, map_app, Qsum_app. simpl map. simpl Qsum.
    cbv zeta in IH. destruct IH as [IHle IHge].
    assert (HS : inject_Z (Z.of_nat (S n)) == inject_Z (Z.of_nat n) + 1).
    { rewrite Nat2Z.inj_succ. unfold Z.succ. apply inject_Z_succ. }
    destruct (lim_cases x (Z.of_nat n)) as [(H1 & E) | [(H1 & H2 & E) | (H1 & E)]].
    + rewrite (prim_eq f _ _ E). rewrite IHle by exact H1.
      split; intros Hn; [ring |].
      exfalso. lra.
    + rewrite (prim_eq f _ _ E). rewrite IHge by lra.
      split; intros Hn; [ring |].
      rewrite (prim_eq f (inject_Z (Z.of_nat (S n))) x) by lra. ring.
    + rewrite (prim_eq f _ _ E). rewrite IHge by lra.
      split; intros Hn; [exfalso; lra |].
      rewrite (prim_eq f (inject_Z (Z.of_nat (S n))) _ HS). ring.
Qed.

(** An edge with both ends within the first [n] columns: its integrals add
    up to the area under the whole edge. *)
Lemma edge_total (p0 p1 q0 q1 : Q) (n : nat) :
  0 <= p0 <= inject_Z (Z.of_nat n) -> 0 <= q0 <= inject_Z (Z.of_nat n) ->
  Qsum (map (edge p0 p1 q0 q1) (columns n)) == (q0 - p0) * (p1 + q1) * (1 # 2).
Proof.
  intros [Hp0 Hpn] [Hq0 Hqn].
  set (f := line_through p0 p1 q0 q1).
  rewrite (Qsum_map_ext _
             (fun u => (prim f (lim q0 u) - prim f (inject_Z u))
                       + (-1) * (prim f (lim p0 u) - prim f (inject_Z u)))).
  2:{ intros u _. unfold edge. fold f. rewrite integrate_prim. ring. }
  rewrite Qsum_map_add.
  rewrite (Qsum_map_ext (fun u => (-1) * (prim f (lim p0 u) - prim f (inject_Z u)))
             (fun u => (prim f (lim p0 u) - prim f (inject_Z u)) * (-1)))
    by (intros; ring).
  rewrite Qsum_map_scale.
  rewrite (proj1 (prim_telescope f q0 n Hq0) Hqn).
  rewrite (proj1 (prim_telescope f p0 n Hp0) Hpn).
  destruct (Qeq_dec p0 q0) as [E | Hne].
  - rewrite (prim_eq f q0 p0) by lra.
    setoid_replace (q0 - p0) with 0 by lra. ring.
  - unfold prim, f, line_through. cbn [slope intersect]. exact_arith.
    field. lra.
Qed.

(** The column sums of a quadrilateral within the first [n] columns add up
    to minus its signed area. *)
Lemma around_total (a0 a1 b0 b1 c0 c1 d0 d1 : Q) (n : nat) :
  0 <= a0 <= inject_Z (Z.of_nat n) -> 0 <= b0 <= inject_Z (Z.of_nat n) ->
  0 <= c0 <= inject_Z (Z.of_nat n) -> 0 <= d0 <= inject_Z (Z.of_nat n) ->
  Qsum (map (around a0 a1 b0 b1 c0 c1 d0 d1) (columns n))
  == - ((1 # 2) * cross a0 a1 b0 b1 c0 c1 d0 d1).
Proof.
  intros Ha Hb Hc Hd. unfold around.
  rewrite !Qsum_map_add.
  rewrite !edge_total by assumption.
  unfold cross. ring.
Qed.

(** ** The split path *)

(** The weights the split path deposits, column by column. *)
Lemma split1D_weights (A0 A1 B0 B1 C0 C1 D0 D1 data : Q) (bin0_min bin0_max : Z) :
  map (@dcount Q) (split1D A0 A1 B0 B1 C0 C1 D0 D1 data bin0_min bin0_max)
  = map (fun u => Qabs (around A0 A1 B0 B1 C0 C1 D0 D1 u)
                  * (1 / area4 A0 A1 B0 B1 C0 C1 D0 D1))
        (columns (Z.to_nat (bin0_max + 1 - bin0_min))).
Proof.
  unfold split1D. rewrite zrange_columns, !map_map.
  apply map_ext. intros u. cbn [dcount].
  replace (bin0_min + u - bin0_min)%Z with u by lia.
  rewrite partial_area_edges. reflexivity.
Qed.

Lemma split1D_bins (A0 A1 B0 B1 C0 C1 D0 D1 data : Q) (bin0_min bin0_max : Z) :
  map (@bin Q) (split1D A0 A1 B0 B1 C0 C1 D0 D1 data bin0_min bin0_max)
  = zrange bin0_min (bin0_max + 1).
Proof.
  unfold split1D. rewrite map_map. cbn [bin]. apply map_id.
Qed.

Lemma split1D_unity (A0 A1 B0 B1 C0 C1 D0 D1 data : Q) (bin0_min bin0_max : Z) :
  let n := Z.to_nat (bin0_max + 1 - bin0_min) in
  within n A0 -> within n B0 -> within n C0 -> within n D0 ->
  separated A0 A1 B0 B1 C0 C1 D0 D1 ->
  0 < area4 A0 A1 B0 B1 C0 C1 D0 D1 ->
  let ws := map (@dcount Q) (split1D A0 A1 B0 B1 C0 C1 D0 D1 data bin0_min bin0_max) in
  (forall w, In w ws -> 0 <= w) /\ Qsum ws == 1.
Proof.
  intros n HA HB HC HD Hsep Harea ws. subst ws. rewrite split1D_weights. fold n.
  set (area := area4 A0 A1 B0 B1 C0 C1 D0 D1) in *.
  assert (Hinv : 0 < 1 / area) by (apply Qlt_shift_div_l; lra).
  split.
  - intros w Hw. apply in_map_iff in Hw. destruct Hw as (u & <- & _).
    apply Qmult_le_0_compat; [apply Qabs_nonneg | lra].
  - rewrite Qsum_map_scale.
    pose proof (around_total A0 A1 B0 B1 C0 C1 D0 D1 n HA HB HC HD) as Htot.
    pose proof (cross_turns A0 A1 B0 B1 C0 C1 D0 D1) as Hcross.
    assert (Harea' : area == (1 # 2) * Qabs (cross A0 A1 B0 B1 C0 C1 D0 D1))
      by (unfold area; rewrite area4_cross; reflexivity).
    destruct Hsep as [[H1 H2] | [H1 H2]].
    + rewrite (Qsum_map_ext _ (fun u => around A0 A1 B0 B1 C0 C1 D0 D1 u * (-1))).
      2:{ intros u _. rewrite Qabs_neg; [ring |].
          now apply (proj1 (around_sign A0 A1 B0 B1 C0 C1 D0 D1 u)). }
      rewrite Qsum_map_scale, Htot.
      rewrite Qabs_pos in Harea' by lra.
      setoid_replace (- ((1 # 2) * cross A0 A1 B0 B1 C0 C1 D0 D1) * -1) with area
        by (rewrite Harea'; ring).
      field. lra.
    + rewrite (Qsum_map_ext _ (around A0 A1 B0 B1 C0 C1 D0 D1)).
      2:{ intros u _. rewrite Qabs_pos; [reflexivity |].
          now apply (proj2 (around_sign A0 A1 B0 B1 C0 C1 D0 D1 u)). }
      rewrite Htot.
      rewrite Qabs_neg in Harea' by lra.
      setoid_replace (- ((1 # 2) * cross A0 A1 B0 B1 C0 C1 D0 D1)) with area
        by (rewrite Harea'; ring).
      field. lra.
Qed.

(** ** The pixel *)

Lemma min2_cases (a b : Q) : (min2 a b = a /\ a <= b) \/ (min2 a b = b /\ b <= a).
Proof. unfold min2. exact_arith. case_lt b a; [right | left]; split; lra || reflexivity. Qed.

Lemma max2_cases (a b : Q) : (max2 a b = a /\ b <= a) \/ (max2 a b = b /\ a <= b).
Proof. unfold max2. exact_arith. case_lt a b; [right | left]; split; lra || reflexivity. Qed.

Lemma min4_spec (a b c d : Q) :
  let m := min4 a b c d in
  (m <= a /\ m <= b /\ m <= c /\ m <= d) /\ (m = a \/ m = b \/ m = c \/ m = d).
Proof.
  unfold min4.
  destruct (min2_cases a b) as [[-> H1] | [-> H1]];
    (match goal with |- context [min2 (min2 ?x c) d] =>
       destruct (min2_cases x c) as [[-> H2] | [-> H2]] end);
    (match goal with |- context [min2 ?x d] =>
       destruct (min2_cases x d) as [[-> H3] | [-> H3]] end);
    cbv zeta; (split; [repeat split; lra | tauto]).
Qed.

Lemma max4_spec (a b c d : Q) :
  let m := max4 a b c d in
  (a <= m /\ b <= m /\ c <= m /\ d <= m) /\ (m = a \/ m = b \/ m = c \/ m = d).
Proof.
  unfold max4.
  destruct (max2_cases a b) as [[-> H1] | [-> H1]];
    (match goal with |- context [max2 (max2 ?x c) d] =>
       destruct (max2_cases x c) as [[-> H2] | [-> H2]] end);
    (match goal with |- context [max2 ?x d] =>
       destruct (max2_cases x d) as [[-> H3] | [-> H3]] end);
    cbv zeta; (split; [repeat split; lra | tauto]).
Qed.

Lemma to_int_floor (x : Q) (z : Z) :
  to_int x = Ok z -> inject_Z z <= x /\ x < inject_Z z + 1.
Proof.
  unfold to_int. cbn [floor_int ArithQ]. unfold Qfloor_int.
  destruct (fits_int (Qfloor x)); [| discriminate].
  intros [= <-]. split; [apply Qfloor_le |].
  rewrite <- inject_Z_succ. apply Qlt_floor.
Qed.

Lemma inject_Z_le (a b : Z) : inject_Z a <= inject_Z b <-> (a <= b)%Z.
Proof. rewrite <- Zle_Qle. reflexivity. Qed.

Lemma inject_Z_lt (a b : Z) : inject_Z a < inject_Z b <-> (a < b)%Z.
Proof. rewrite <- Zlt_Qlt. reflexivity. Qed.

Lemma turn_shifted (lo d : Q) (m : Z) (p0 p1 q0 q1 r0 r1 : Q) :
  ~ d == 0 ->
  turn (shifted lo d m p0) p1 (shifted lo d m q0) q1 (shifted lo d m r0) r1
  == turn p0 p1 q0 q1 r0 r1 / d.
Proof. intros Hd. unfold turn, shifted. field. exact Hd. Qed.

Lemma cross_shifted (lo d : Q) (m : Z) (a0 a1 b0 b1 c0 c1 d0 d1 : Q) :
  ~ d == 0 ->
  cross (shifted lo d m a0) a1 (shifted lo d m b0) b1
        (shifted lo d m c0) c1 (shifted lo d m d0) d1
  == cross a0 a1 b0 b1 c0 c1 d0 d1 / d.
Proof. intros Hd. unfold cross, shifted. field. exact Hd. Qed.

Lemma Qsum_landed (bins : Z) (ds : list (deposit Q)) :
  (forall d, In d ds -> 0 <= dcount d) ->
  0 <= Qsum (map (@dcount Q) (landed bins ds)) <= Qsum (map (@dcount Q) ds).
Proof.
  unfold landed. induction ds as [| d ds IH]; simpl; intros Hds; [lra |].
  pose proof (Hds d (or_introl Logic.eq_refl)).
  assert (0 <= Qsum (map (@dcount Q) (filter (fun d => in_bounds (bin d) bins) ds))
          <= Qsum (map (@dcount Q) ds)) by (apply IH; intros; apply Hds; now right).
  destruct (in_bounds (bin d) bins); simpl; lra.
Qed.

Lemma landed_all (bins : Z) (ds : list (deposit Q)) :
  (forall d, In d ds -> in_bounds (bin d) bins = true) -> landed bins ds = ds.
Proof.
  unfold landed. induction ds as [| d ds IH]; simpl; intros Hds; [reflexivity |].
  rewrite (Hds d (or_introl Logic.eq_refl)). f_equal.
  apply IH. intros; apply Hds; now right.
Qed.

Lemma shifted_getBinNr (lo d : Q) (m : Z) (x : Q) :
  (getBinNr x lo d - inject_Z m)%Q = shifted lo d m x.
Proof. reflexivity. Qed.

Lemma Qabs_div_pos (x d : Q) : 0 < d -> Qabs (x / d) == Qabs x / d.
Proof.
  intros Hd. unfold Qdiv. rewrite Qabs_Qmult.
  rewrite (Qabs_pos (/ d)); [reflexivity |].
  apply Qlt_le_weak. now apply Qinv_lt_0_compat.
Qed.

Lemma bin_width_pos (lo hi : Q) (bins : Z) :
  lo < hi -> (0 < bins)%Z ->
  0 < bin_width lo hi bins /\ inject_Z bins * bin_width lo hi bins == hi - lo.
Proof.
  intros Hr Hb. unfold bin_width. exact_arith.
  assert (HB : 0 < inject_Z bins) by (change 0 with (inject_Z 0); now apply <- inject_Z_lt).
  split; [apply Qlt_shift_div_l; lra | field; lra].
Qed.

(** ** Columns of positive weight *)

Lemma lim_low (x : Q) (k : Z) : x <= inject_Z k -> lim x k == inject_Z k.
Proof.
  intros Hx. destruct (lim_cases x k) as [(H1 & E) | [(H1 & H2 & E) | (H1 & E)]];
    rewrite E; lra.
Qed.

Lemma lim_high (x : Q) (k : Z) : inject_Z k + 1 <= x -> lim x k == inject_Z k + 1.
Proof.
  intros Hx. destruct (lim_cases x k) as [(H1 & E) | [(H1 & H2 & E) | (H1 & E)]];
    rewrite E; lra.
Qed.

Lemma lim_id (x : Q) (k : Z) : inject_Z k <= x <= inject_Z k + 1 -> lim x k == x.
Proof.
  intros Hx. destruct (lim_cases x k) as [(H1 & E) | [(H1 & H2 & E) | (H1 & E)]];
    rewrite E; lra.
Qed.

Lemma convex4_separated (a0 a1 b0 b1 c0 c1 d0 d1 : Q) :
  convex4 a0 a1 b0 b1 c0 c1 d0 d1 ->
  separated a0 a1 b0 b1 c0 c1 d0 d1 /\ separated b0 b1 c0 c1 d0 d1 a0 a1.
Proof.
  unfold convex4, separated.
  pose proof (turn_rot a0 a1 c0 c1 d0 d1) as R1.
  pose proof (turn_rot b0 b1 d0 d1 a0 a1) as R2.
  intros [(H1 & H2 & H3 & H4) | (H1 & H2 & H3 & H4)]; split; [left | left | right | right];
    split; lra.
Qed.

Lemma around_rot (a0 a1 b0 b1 c0 c1 d0 d1 : Q) (u : Z) :
  around b0 b1 c0 c1 d0 d1 a0 a1 u == around a0 a1 b0 b1 c0 c1 d0 d1 u.
Proof. unfold around. ring. Qed.

Lemma cross_rot (a0 a1 b0 b1 c0 c1 d0 d1 : Q) :
  cross b0 b1 c0 c1 d0 d1 a0 a1 == cross a0 a1 b0 b1 c0 c1 d0 d1.
Proof. unfold cross. ring. Qed.

(** In a convex quadrilateral of nonzero area, a column sum vanishes only
    where the column sees all four corners at one abscissa. *)
Lemma around_zero_flat (a0 a1 b0 b1 c0 c1 d0 d1 : Q) (u : Z) :
  convex4 a0 a1 b0 b1 c0 c1 d0 d1 ->
  ~ cross a0 a1 b0 b1 c0 c1 d0 d1 == 0 ->
  around a0 a1 b0 b1 c0 c1 d0 d1 u == 0 ->
  flat4 a0 b0 c0 d0 u.
Proof.
  intros Hconv Hcross Hzero.
  destruct (convex4_separated _ _ _ _ _ _ _ _ Hconv) as [S1 S2].
  destruct (around_zero _ _ _ _ _ _ _ _ u S1 Hzero) as [T1 T2].
  assert (Hzero' : around b0 b1 c0 c1 d0 d1 a0 a1 u == 0) by (rewrite around_rot; exact Hzero).
  destruct (around_zero _ _ _ _ _ _ _ _ u S2 Hzero') as [T3 T4].
  pose proof (cross_turns a0 a1 b0 b1 c0 c1 d0 d1) as C1.
  pose proof (cross_turns b0 b1 c0 c1 d0 d1 a0 a1) as C2.
  rewrite cross_rot in C2.
  assert (F1 : flat3 a0 b0 c0 u \/ flat3 a0 c0 d0 u).
  { destruct T1 as [Z1 | F]; [| now left].
    destruct T2 as [Z2 | F]; [| now right].
    exfalso. apply Hcross. lra. }
  assert (F2 : flat3 b0 c0 d0 u \/ flat3 b0 d0 a0 u).
  { destruct T3 as [Z1 | F]; [| now left].
    destruct T4 as [Z2 | F]; [| now right].
    exfalso. apply Hcross. lra. }
  unfold flat3, flat4 in *.
  destruct F1 as [[? ?] | [? ?]], F2 as [[? ?] | [? ?]]; repeat split; lra.
Qed.

(** ** Deposits that miss the output *)

Lemma Qsum_landed_missed (bins : Z) (ds : list (deposit Q)) :
  Qsum (map (@dcount Q) ds)
  == Qsum (map (@dcount Q) (landed bins ds)) + Qsum (map (@dcount Q) (missed bins ds)).
Proof.
  unfold landed, missed. induction ds as [| d ds IH]; simpl; [ring |].
  destruct (in_bounds (bin d) bins); simpl; rewrite IH; ring.
Qed.

Lemma Qsum_zero (l : list Q) :
  (forall x, In x l -> 0 <= x) -> Qsum l == 0 -> forall x, In x l -> x == 0.
Proof.
  induction l as [| y l IH]; simpl; intros Hl Hz x Hx; [contradiction |].
  pose proof (Hl y (or_introl Logic.eq_refl)) as Hy.
  assert (Hrest : 0 <= Qsum l) by (apply Qsum_nonneg; intros; apply Hl; now right).
  destruct Hx as [<- | Hx]; [lra |].
  apply IH; [intros; apply Hl; now right | lra | exact Hx].
Qed.

Lemma Qsum_all_zero (l : list Q) : (forall x, In x l -> x == 0) -> Qsum l == 0.
Proof.
  induction l as [| y l IH]; simpl; intros Hl; [reflexivity |].
  rewrite (Hl y) by now left. rewrite IH; [ring |]. intros; apply Hl; now right.
Qed.

Lemma missed_In (bins : Z) (ds : list (deposit Q)) (d : deposit Q) :
  In d (missed bins ds) <-> In d ds /\ in_bounds (bin d) bins = false.
Proof.
  unfold missed. rewrite filter_In, negb_true_iff. reflexivity.
Qed.

(** The deposits of the split path, one per column. *)
Lemma split1D_In (A0 A1 B0 B1 C0 C1 D0 D1 data : Q) (bin0_min bin0_max : Z)
    (d : deposit Q) :
  In d (split1D A0 A1 B0 B1 C0 C1 D0 D1 data bin0_min bin0_max) <->
  exists b, (bin0_min <= b <= bin0_max)%Z /\
    d = {| bin := b;
           dcount := Qabs (around A0 A1 B0 B1 C0 C1 D0 D1 (b - bin0_min))
                     * (1 / area4 A0 A1 B0 B1 C0 C1 D0 D1);
           ddata := data * (Qabs (around A0 A1 B0 B1 C0 C1 D0 D1 (b - bin0_min))
                            * (1 / area4 A0 A1 B0 B1 C0 C1 D0 D1)) |}.
Proof.
  unfold split1D. rewrite in_map_iff. split.
  - intros (b & <- & Hb). apply zrange_In in Hb. exists b. split; [lia | reflexivity].
  - intros (b & Hb & ->). exists b. split; [reflexivity | apply zrange_In; lia].
Qed.

Lemma Qabs_zero (x : Q) : Qabs x == 0 -> x == 0.
Proof.
  intros E. destruct (Qlt_le_dec x 0) as [Hx | Hx].
  - rewrite Qabs_neg in E by lra. lra.
  - rewrite Qabs_pos in E by lra. exact E.
Qed.

Lemma weight_zero (s area : Q) : 0 < area -> Qabs s * (1 / area) == 0 -> s == 0.
Proof.
  intros Ha E. apply Qabs_zero.
  assert (Hinv : 0 < 1 / area) by (apply Qlt_shift_div_l; lra).
  apply Qmult_integral in E. destruct E; lra.
Qed.

(** A column that does not see all corners at one abscissa. *)
Lemma not_flat4 (a0 b0 c0 d0 x y : Q) (u : Z) :
  (x = a0 \/ x = b0 \/ x = c0 \/ x = d0) -> (y = a0 \/ y = b0 \/ y = c0 \/ y = d0) ->
  lim x u < lim y u -> ~ flat4 a0 b0 c0 d0 u.
Proof.
  unfold flat4. intros Hx Hy Hlt (E1 & E2 & E3).
  destruct Hx as [-> | [-> | [-> | ->]]], Hy as [-> | [-> | [-> | ->]]]; lra.
Qed.

(** ** A pixel in bin coordinates *)

Section Pixel.

(** The corners in bin coordinates, the bins of the smallest and the
    largest abscissa, and the deposits of the loop body. *)
Variables (A0 A1 B0 B1 C0 C1 D0 D1 data : Q) (bin0_min bin0_max bins : Z).
Variable ds : list (deposit Q).

Let min0 : Q := min4 A0 B0 C0 D0.
Let max0 : Q := max4 A0 B0 C0 D0.
Let tA : Q := A0 - inject_Z bin0_min.
Let tB : Q := B0 - inject_Z bin0_min.
Let tC : Q := C0 - inject_Z bin0_min.
Let tD : Q := D0 - inject_Z bin0_min.

Hypothesis Hmin : inject_Z bin0_min <= min0 /\ min0 < inject_Z bin0_min + 1.
Hypothesis Hmax : inject_Z bin0_max <= max0 /\ max0 < inject_Z bin0_max + 1.
Hypothesis Haccepted : 0 <= max0 /\ min0 < inject_Z bins.
Hypothesis Hpath :
  (bin0_min = bin0_max /\ ds = [ {| bin := bin0_min; dcount := 1; ddata := data |} ]) \/
  (bin0_min <> bin0_max /\ ds = split1D tA A1 tB B1 tC C1 tD D1 data bin0_min bin0_max).
Hypothesis Hconvex : convex4 tA A1 tB B1 tC C1 tD D1.
Hypothesis Harea : 0 < area4 tA A1 tB B1 tC C1 tD D1.

Lemma corners_between :
  forall X0, X0 = A0 \/ X0 = B0 \/ X0 = C0 \/ X0 = D0 -> min0 <= X0 <= max0.
Proof.
  intros X0 HX.
  destruct (min4_spec A0 B0 C0 D0) as [(? & ? & ? & ?) _].
  destruct (max4_spec A0 B0 C0 D0) as [(? & ? & ? & ?) _].
  unfold min0, max0. destruct HX as [-> | [-> | [-> | ->]]]; lra.
Qed.

Lemma min0_is : min0 = A0 \/ min0 = B0 \/ min0 = C0 \/ min0 = D0.
Proof. apply (min4_spec A0 B0 C0 D0). Qed.

Lemma max0_is : max0 = A0 \/ max0 = B0 \/ max0 = C0 \/ max0 = D0.
Proof. apply (max4_spec A0 B0 C0 D0). Qed.

Lemma min0_le_max0 : min0 <= max0.
Proof. pose proof (corners_between A0 (or_introl Logic.eq_refl)). lra. Qed.

Lemma bins_ordered : (bin0_min <= bin0_max)%Z.
Proof.
  pose proof min0_le_max0.
  assert (Hlt : inject_Z bin0_min < inject_Z (bin0_max + 1))
    by (rewrite inject_Z_succ; lra).
  apply -> inject_Z_lt in Hlt. lia.
Qed.

Lemma cross_nonzero : ~ cross tA A1 tB B1 tC C1 tD D1 == 0.
Proof.
  intros E. rewrite area4_cross, E in Harea. vm_compute in Harea. discriminate.
Qed.

(** The clamps of the extreme corners in column [b - bin0_min]. *)
Lemma translated_is (x : Q) :
  x = A0 \/ x = B0 \/ x = C0 \/ x = D0 ->
  x - inject_Z bin0_min = tA \/ x - inject_Z bin0_min = tB \/
  x - inject_Z bin0_min = tC \/ x - inject_Z bin0_min = tD.
Proof.
  intros [-> | [-> | [-> | ->]]]; tauto.
Qed.

Lemma column_of (b : Z) : inject_Z (b - bin0_min) == inject_Z b - inject_Z bin0_min.
Proof. unfold Z.sub. rewrite inject_Z_plus, inject_Z_opp. reflexivity. Qed.

(** A column that meets the pixel between its extreme abscissas has a
    positive weight. *)
Lemma column_weight_pos (b : Z) :
  lim (min0 - inject_Z bin0_min) (b - bin0_min)
  < lim (max0 - inject_Z bin0_min) (b - bin0_min) ->
  ~ around tA A1 tB B1 tC C1 tD D1 (b - bin0_min) == 0.
Proof.
  intros Hlt Hzero.
  apply (around_zero_flat _ _ _ _ _ _ _ _ _ Hconvex cross_nonzero) in Hzero.
  revert Hzero.
  apply (not_flat4 tA tB tC tD (min0 - inject_Z bin0_min) (max0 - inject_Z bin0_min));
    [apply translated_is, min0_is | apply translated_is, max0_is | exact Hlt].
Qed.

(** The deposit of the split path for bin [b]. *)
Let column_deposit (b : Z) : deposit Q :=
  {| bin := b;
     dcount := Qabs (around tA A1 tB B1 tC C1 tD D1 (b - bin0_min))
               * (1 / area4 tA A1 tB B1 tC C1 tD D1);
     ddata := data * (Qabs (around tA A1 tB B1 tC C1 tD D1 (b - bin0_min))
                      * (1 / area4 tA A1 tB B1 tC C1 tD D1)) |}.

Lemma column_deposit_missed (b : Z) :
  ds = split1D tA A1 tB B1 tC C1 tD D1 data bin0_min bin0_max ->
  (bin0_min <= b <= bin0_max)%Z -> in_bounds b bins = false ->
  lim (min0 - inject_Z bin0_min) (b - bin0_min)
  < lim (max0 - inject_Z bin0_min) (b - bin0_min) ->
  exists d, In d (missed bins ds) /\ ~ dcount d == 0.
Proof.
  intros Hds Hb Hout Hlt. exists (column_deposit b). split.
  - apply missed_In. split; [| exact Hout].
    rewrite Hds. apply split1D_In. exists b. split; [lia | reflexivity].
  - cbn [dcount column_deposit]. intros Hz. apply weight_zero in Hz; [| exact Harea].
    revert Hz. apply column_weight_pos. exact Hlt.
Qed.

(** The weights are non-negative and add up to 1. *)
Lemma deposits_unity :
  (forall d, In d ds -> 0 <= dcount d) /\ Qsum (map (@dcount Q) ds) == 1.
Proof.
  pose proof bins_ordered as Hle.
  destruct Hpath as [[_ ->] | [Hneq ->]].
  - split; [| simpl; ring].
    intros x [<- | []]. simpl. lra.
  - set (n := Z.to_nat (bin0_max + 1 - bin0_min)).
    assert (Hn : inject_Z (Z.of_nat n) == inject_Z bin0_max + 1 - inject_Z bin0_min).
    { unfold n. rewrite Z2Nat.id by lia.
      unfold Z.sub. rewrite !inject_Z_plus, inject_Z_opp. reflexivity. }
    assert (Hwithin : forall X0, X0 = A0 \/ X0 = B0 \/ X0 = C0 \/ X0 = D0 ->
                                 within n (X0 - inject_Z bin0_min)).
    { intros X0 HX. pose proof (corners_between X0 HX).
      unfold within. rewrite Hn. lra. }
    destruct (split1D_unity tA A1 tB B1 tC C1 tD D1 data bin0_min bin0_max)
      as [Hnonneg Hsum]; try (apply Hwithin; tauto).
    + apply (convex4_separated _ _ _ _ _ _ _ _ Hconvex).
    + exact Harea.
    + split; [| exact Hsum].
      intros x Hx. apply Hnonneg. now apply in_map.
Qed.

(** A pixel whose corners have bin coordinates from 0 and below [bins]
    only writes to bins of the output. *)
Lemma deposits_land :
  0 <= min0 -> max0 < inject_Z bins -> landed bins ds = ds.
Proof.
  intros Hlo Hhi. apply landed_all.
  pose proof bins_ordered as Hle.
  assert (Hb0 : (0 <= bin0_min)%Z).
  { assert (Hlt : inject_Z (-1) < inject_Z bin0_min)
      by (change (inject_Z (-1)) with (-1); lra).
    apply -> inject_Z_lt in Hlt. lia. }
  assert (Hb1 : (bin0_max < bins)%Z) by (apply -> inject_Z_lt; lra).
  intros x Hx. unfold in_bounds.
  assert (Hbin : (bin0_min <= bin x <= bin0_max)%Z).
  { destruct Hpath as [[Heq ->] | [Hneq ->]].
    - destruct Hx as [<- | []]. simpl. lia.
    - apply split1D_In in Hx. destruct Hx as (b & Hb & ->). simpl. lia. }
  apply andb_true_iff. split; [apply Z.leb_le | apply Z.ltb_lt]; lia.
Qed.

(** Within the closed range, the deposits that miss the output weigh
    nothing. *)
Lemma missed_weigh_nothing :
  0 <= min0 -> max0 <= inject_Z bins ->
  forall w, In w (map (@dcount Q) (missed bins ds)) -> w == 0.
Proof.
  intros Hlo Hhi w Hw. apply in_map_iff in Hw. destruct Hw as (x & <- & Hx).
  apply missed_In in Hx. destruct Hx as [Hx Hout].
  pose proof bins_ordered as Hle.
  assert (Hb0 : (0 <= bin0_min)%Z).
  { assert (Hlt : inject_Z (-1) < inject_Z bin0_min)
      by (change (inject_Z (-1)) with (-1); lra).
    apply -> inject_Z_lt in Hlt. lia. }
  assert (Hb1 : (bin0_max <= bins)%Z) by (apply -> inject_Z_le; lra).
  assert (Hb2 : (bin0_min < bins)%Z) by (apply -> inject_Z_lt; lra).
  unfold in_bounds in Hout. apply andb_false_iff in Hout.
  destruct Hpath as [[Heq ->] | [Hneq ->]].
  - destruct Hx as [<- | []]. simpl in Hout.
    destruct Hout as [Hout | Hout]; [apply Z.leb_gt in Hout | apply Z.ltb_ge in Hout]; lia.
  - apply split1D_In in Hx. destruct Hx as (b & Hb & ->). cbn [dcount bin] in Hout |- *.
    assert (Hbb : b = bins).
    { destruct Hout as [Hout | Hout]; [apply Z.leb_gt in Hout | apply Z.ltb_ge in Hout]; lia. }
    (* the pixel ends where column [bins] starts *)
    assert (Hflat : forall X0, X0 = A0 \/ X0 = B0 \/ X0 = C0 \/ X0 = D0 ->
              lim (X0 - inject_Z bin0_min) (b - bin0_min) == inject_Z (b - bin0_min)).
    { intros X0 HX. pose proof (corners_between X0 HX).
      apply lim_low. rewrite column_of, Hbb. lra. }
    assert (Hzero : around tA A1 tB B1 tC C1 tD D1 (b - bin0_min) == 0).
    { unfold around.
      rewrite (edge_flat tA A1 tB B1), (edge_flat tB B1 tC C1),
        (edge_flat tC C1 tD D1), (edge_flat tD D1 tA A1);
        [ring | unfold tD, tA | unfold tC, tD | unfold tB, tC | unfold tA, tB];
        rewrite !Hflat by tauto; reflexivity. }
    rewrite Hzero. reflexivity.
Qed.

(** A corner below the range leaves a positive weight in the first
    column, which misses the output. *)
Lemma left_overhang : min0 < 0 -> exists d, In d (missed bins ds) /\ ~ dcount d == 0.
Proof.
  intros Hneg. pose proof bins_ordered as Hle.
  assert (Hb0 : (bin0_min < 0)%Z).
  { apply -> inject_Z_lt. change (inject_Z 0) with 0. lra. }
  assert (Hout : in_bounds bin0_min bins = false).
  { unfold in_bounds. apply andb_false_iff. left. apply Z.leb_gt. exact Hb0. }
  destruct Hpath as [[Heq Hds] | [Hneq Hds]].
  - exists {| bin := bin0_min; dcount := 1; ddata := data |}. split.
    + apply missed_In. split; [rewrite Hds; left; reflexivity | exact Hout].
    + simpl. lra.
  - apply (column_deposit_missed bin0_min Hds); [lia | exact Hout |].
    rewrite Z.sub_diag.
    assert (H1 : inject_Z bin0_min + 1 <= inject_Z bin0_max).
    { rewrite <- inject_Z_succ. apply <- inject_Z_le. lia. }
    rewrite (lim_high (max0 - inject_Z bin0_min) 0)
      by (change (inject_Z 0) with 0; lra).
    change (inject_Z 0) with 0.
    destruct (lim_cases (min0 - inject_Z bin0_min) 0)
      as [(G1 & E) | [(G1 & G2 & E) | (G1 & E)]];
      change (inject_Z 0) with 0 in *; rewrite E; lra.
Qed.

(** A corner above the range leaves a positive weight in the last column
    the pixel enters, which misses the output. *)
Lemma right_overhang :
  inject_Z bins < max0 -> exists d, In d (missed bins ds) /\ ~ dcount d == 0.
Proof.
  intros Hbig. pose proof bins_ordered as Hle.
  assert (Hb1 : (bins <= bin0_max)%Z).
  { assert (Hlt : inject_Z bins < inject_Z (bin0_max + 1)) by (rewrite inject_Z_succ; lra).
    apply -> inject_Z_lt in Hlt. lia. }
  assert (Hb2 : (bin0_min < bins)%Z) by (apply -> inject_Z_lt; lra).
  destruct Hpath as [[Heq Hds] | [Hneq Hds]]; [lia |].
  assert (Hmiss : forall b, (bins <= b <= bin0_max)%Z ->
            lim (min0 - inject_Z bin0_min) (b - bin0_min)
            < lim (max0 - inject_Z bin0_min) (b - bin0_min) ->
            exists d, In d (missed bins ds) /\ ~ dcount d == 0).
  { intros b Hb Hlt. apply (column_deposit_missed b Hds); [lia | | exact Hlt].
    unfold in_bounds. apply andb_false_iff. right. apply Z.ltb_ge. lia. }
  destruct (Qlt_le_dec (inject_Z bin0_max) max0) as [Hfrac | Hint].
  - (* the largest abscissa lies inside the last column *)
    apply (Hmiss bin0_max); [lia |].
    assert (H1 : inject_Z bin0_min + 1 <= inject_Z bin0_max).
    { rewrite <- inject_Z_succ. apply <- inject_Z_le. lia. }
    rewrite (lim_low (min0 - inject_Z bin0_min)) by (rewrite column_of; lra).
    rewrite (lim_id (max0 - inject_Z bin0_min)) by (rewrite column_of; lra).
    rewrite column_of. lra.
  - (* it lies on the edge of the last column: take the one before *)
    assert (Hb3 : (bins < bin0_max)%Z) by (apply -> inject_Z_lt; lra).
    apply (Hmiss (bin0_max - 1)%Z); [lia |].
    assert (Hcol : inject_Z (bin0_max - 1 - bin0_min)
                   == inject_Z bin0_max - 1 - inject_Z bin0_min).
    { unfold Z.sub. rewrite !inject_Z_plus, !inject_Z_opp. reflexivity. }
    assert (H1 : inject_Z bin0_min + 1 <= inject_Z bin0_max).
    { rewrite <- inject_Z_succ. apply <- inject_Z_le. lia. }
    rewrite (lim_high (max0 - inject_Z bin0_min)) by (rewrite Hcol; lra).
    destruct (lim_cases (min0 - inject_Z bin0_min) (bin0_max - 1 - bin0_min))
      as [(G1 & E) | [(G1 & G2 & E) | (G1 & E)]]; rewrite E; rewrite Hcol in *; lra.
Qed.

(** The weights that land add up to 1 exactly when the corners lie in the
    closed range of the output. *)
Lemma landed_unity :
  Qsum (map (@dcount Q) (landed bins ds)) == 1 <-> (0 <= min0 /\ max0 <= inject_Z bins).
Proof.
  destruct deposits_unity as [Hnonneg Hsum].
  pose proof (Qsum_landed_missed bins ds) as Hparts. split.
  - intros Hone.
    assert (Hmissed : forall d, In d (missed bins ds) -> dcount d == 0).
    { intros d Hd.
      apply (Qsum_zero (map (@dcount Q) (missed bins ds))).
      - intros w Hw. apply in_map_iff in Hw. destruct Hw as (x & <- & Hx).
        apply Hnonneg. apply missed_In in Hx. tauto.
      - lra.
      - now apply in_map. }
    split.
    + destruct (Qlt_le_dec min0 0) as [Hneg |]; [| assumption].
      destruct (left_overhang Hneg) as (d & Hd & Hw). exfalso. auto.
    + destruct (Qlt_le_dec (inject_Z bins) max0) as [Hbig |]; [| assumption].
      destruct (right_overhang Hbig) as (d & Hd & Hw). exfalso. auto.
  - intros [Hlo Hhi].
    rewrite (Qsum_all_zero (map (@dcount Q) (missed bins ds))) in Hparts
      by (apply missed_weigh_nothing; assumption).
    lra.
Qed.

End Pixel.

(** ** The pixel loop *)

(** What the 1D loop does with one pixel: nothing when it is not accepted,
    one deposit when it lies in one bin, the split path otherwise. *)
Lemma pixel1D_cases (pos : list (pixel Q)) (weights : list Q) (bins : Z) (o : options Q)
    (r : bounds Q) (idx : nat) (ds : list (deposit Q)) :
  let lo := pos0_min r in
  let d := bin_width (pos0_min r) (pos0_max r) bins in
  pixel1D o weights pos bins lo d false (pos1_min r) (pos1_maxin r) idx = Ok ds ->
  let p := nth idx pos default_pixel in
  let A0 := getBinNr (c0 (cornerA p)) lo d in
  let B0 := getBinNr (c0 (cornerB p)) lo d in
  let C0 := getBinNr (c0 (cornerC p)) lo d in
  let D0 := getBinNr (c0 (cornerD p)) lo d in
  let data := corrected o idx (nth idx weights zero) in
  (accepted1D pos weights bins o r idx = false /\ ds = []) \/
  (accepted1D pos weights bins o r idx = true /\
   exists bin0_min bin0_max,
    (0 <= max4 A0 B0 C0 D0 /\ min4 A0 B0 C0 D0 < inject_Z bins) /\
    to_int (min4 A0 B0 C0 D0) = Ok bin0_min /\
    to_int (max4 A0 B0 C0 D0) = Ok bin0_max /\
    ((bin0_min = bin0_max /\
      ds = [ {| bin := bin0_min; dcount := 1; ddata := data |} ]) \/
     (bin0_min <> bin0_max /\
      ds = split1D (A0 - inject_Z bin0_min) (c1 (cornerA p))
                   (B0 - inject_Z bin0_min) (c1 (cornerB p))
                   (C0 - inject_Z bin0_min) (c1 (cornerC p))
                   (D0 - inject_Z bin0_min) (c1 (cornerD p))
                   data bin0_min bin0_max))).
Proof.
  intros lo d Hds p A0 B0 C0 D0 data. subst lo d p A0 B0 C0 D0 data.
  unfold pixel1D in Hds. unfold accepted1D. cbv zeta in *.
  destruct (skip1D o weights idx); [injection Hds as <-; left; split; reflexivity |].
  match type of Hds with
  | (if ?c then _ else _) = _ =>
      destruct c eqn:Hrange;
      [injection Hds as <-; left; split; reflexivity |]
  end.
  right. split; [reflexivity |].
  apply orb_false_iff in Hrange. destruct Hrange as [Hr1 Hr2].
  apply Qlt_bool_false in Hr1. apply Qle_bool_false in Hr2.
  cbn [andb] in Hds. cbv iota in Hds.
  inv_bind_as Hds bin0_min Hmin. inv_bind_as Hds bin0_max Hmax.
  exists bin0_min, bin0_max.
  split; [split; assumption |].
  split; [assumption |]. split; [assumption |].
  destruct (Z.eqb_spec bin0_min bin0_max) as [Heq | Hneq]; injection Hds as <-.
  - left. split; [assumption | reflexivity].
  - right. split; [assumption | reflexivity].
Qed.

(** Positions and bin coordinates. *)
Lemma getBinNr_order (lo hi x : Q) (bins : Z) :
  lo < hi -> (0 < bins)%Z ->
  let X := getBinNr x lo (bin_width lo hi bins) in
  (lo <= x <-> 0 <= X) /\ (x <= hi <-> X <= inject_Z bins) /\
  (x < hi <-> X < inject_Z bins).
Proof.
  intros Hr Hb X.
  destruct (bin_width_pos lo hi bins Hr Hb) as [Hd Hbd].
  assert (HX : X * bin_width lo hi bins == x - lo).
  { unfold X, getBinNr. exact_arith. field. lra. }
  set (d := bin_width lo hi bins) in *. clearbody X d.
  assert (Hmono : forall a b, a <= b <-> a * d <= b * d).
  { intros a b. split; intros Hab.
    - apply Qmult_le_compat_r; lra.
    - apply Qmult_lt_0_le_reg_r in Hab; assumption. }
  assert (Hmono' : forall a b, a < b <-> a * d < b * d).
  { intros a b. split; intros Hab.
    - apply Qmult_lt_compat_r; assumption.
    - destruct (Qlt_le_dec a b) as [| Hba]; [assumption |].
      apply Hmono in Hba. lra. }
  split; [| split].
  - rewrite (Hmono 0 X). rewrite Qmult_0_l. split; lra.
  - rewrite (Hmono X (inject_Z bins)). split; lra.
  - rewrite (Hmono' X (inject_Z bins)). split; lra.
Qed.

Lemma convex_shifted (p : pixel Q) (lo d : Q) (m : Z) :
  0 < d -> convex p ->
  convex4 (getBinNr (c0 (cornerA p)) lo d - inject_Z m) (c1 (cornerA p))
          (getBinNr (c0 (cornerB p)) lo d - inject_Z m) (c1 (cornerB p))
          (getBinNr (c0 (cornerC p)) lo d - inject_Z m) (c1 (cornerC p))
          (getBinNr (c0 (cornerD p)) lo d - inject_Z m) (c1 (cornerD p)).
Proof.
  intros Hd Hconv. rewrite !shifted_getBinNr.
  unfold convex4. rewrite !turn_shifted by lra.
  unfold convex in Hconv. cbv zeta in Hconv.
  destruct Hconv as [(H1 & H2 & H3 & H4) | (H1 & H2 & H3 & H4)]; [left | right];
    repeat split;
    (apply Qle_shift_div_l; lra) || (apply Qle_shift_div_r; lra).
Qed.

Lemma area_shifted (p : pixel Q) (lo d : Q) (m : Z) :
  0 < d -> 0 < pixel_area p ->
  0 < area4 (getBinNr (c0 (cornerA p)) lo d - inject_Z m) (c1 (cornerA p))
            (getBinNr (c0 (cornerB p)) lo d - inject_Z m) (c1 (cornerB p))
            (getBinNr (c0 (cornerC p)) lo d - inject_Z m) (c1 (cornerC p))
            (getBinNr (c0 (cornerD p)) lo d - inject_Z m) (c1 (cornerD p)).
Proof.
  intros Hd Harea. rewrite !shifted_getBinNr.
  rewrite area4_cross, cross_shifted by lra.
  rewrite Qabs_div_pos by exact Hd.
  unfold pixel_area in Harea. rewrite area4_cross in Harea.
  assert (0 < Qabs (cross (c0 (cornerA p)) (c1 (cornerA p)) (c0 (cornerB p))
                          (c1 (cornerB p)) (c0 (cornerC p)) (c1 (cornerC p))
                          (c0 (cornerD p)) (c1 (cornerD p))) / d)
    by (apply Qlt_shift_div_l; lra).
  lra.
Qed.

Lemma unity_nonempty (ds : list (deposit Q)) :
  Qsum (map (@dcount Q) ds) == 1 -> ds <> [].
Proof. intros Hsum ->. revert Hsum. vm_compute. discriminate. Qed.

Lemma landed_bounds (bins : Z) (ds : list (deposit Q)) :
  (forall d, In d ds -> 0 <= dcount d) -> Qsum (map (@dcount Q) ds) == 1 ->
  0 <= Qsum (map (@dcount Q) (landed bins ds)) <= 1.
Proof. intros Hnonneg Hsum. pose proof (Qsum_landed bins ds Hnonneg). lra. Qed.

(** A positive upper bound is expanded: what lies up to [top] lies below
    [top * (1 + eps)]. *)
Lemma inside_expanded (p : pixel Q) (lo top hi : Q) :
  0 < top -> hi = top * (1 + eps32) -> inside p lo top ->
  inside p lo hi /\ below p hi.
Proof.
  intros Htop -> ([a1 a2] & [b1 b2] & [c1 c2] & [d1 d2]).
  change (@eps32 Q ArithQ) with (1 # 8388608).
  assert (0 < top * (1 # 8388608)) by (apply Qmult_lt_0_compat; [exact Htop | reflexivity]).
  unfold inside, below. repeat split; lra.
Qed.

(** X1.  For a pixel that the 1D loop accepts, convex and of nonzero area,
    over a non-empty effective range [pos0_min < pos0_max] (the upper bound
    the code computes, [pos0_maxin * (1 + eps)]) and in exact arithmetic:
    the pixel deposits, every deposited weight is non-negative and all of
    them add up to 1; the weights that land in bins of the output add up to
    a value in [0, 1], which is 1 exactly when the four corners lie between
    [pos0_min] and [pos0_max]; when they also lie below [pos0_max] every
    deposit lands, as it does when they lie between [pos0_min] and a
    positive [pos0_maxin]. *)
Theorem accepted_pixel_unity (pos : list (pixel Q)) (weights : list Q) (bins : Z)
    (o : options Q) (idx : nat) (r : bounds Q) (ds : list (deposit Q)) :
  ranges eps32 pos o = Ok r ->
  (0 < bins)%Z -> pos0_min r < pos0_max r ->
  accepted1D pos weights bins o r idx = true ->
  deposits1D pos weights bins o idx = Ok ds ->
  let p := nth idx pos default_pixel in
  convex p -> 0 < pixel_area p ->
  ds <> [] /\
  (forall d, In d ds -> 0 <= dcount d) /\
  Qsum (map (@dcount Q) ds) == 1 /\
  0 <= Qsum (map (@dcount Q) (landed bins ds)) <= 1 /\
  (Qsum (map (@dcount Q) (landed bins ds)) == 1 <->
   inside p (pos0_min r) (pos0_max r)) /\
  (inside p (pos0_min r) (pos0_max r) -> below p (pos0_max r) ->
   landed bins ds = ds) /\
  (0 < pos0_maxin r -> inside p (pos0_min r) (pos0_maxin r) -> landed bins ds = ds).
Proof.
  intros Hr Hbins Hrange Hyes Hds p Hconv Harea.
  pose proof (Ranges.ranges_Ok _ _ _ _ Hr) as (_ & Hexp & _).
  unfold deposits1D in Hds. rewrite Hr in Hds. cbn [bind] in Hds.
  apply pixel1D_cases in Hds. cbv zeta in Hds.
  destruct Hds as [[Hno _] | [_ (bin0_min & bin0_max & Hacc & Hmin & Hmax & Hpath)]];
    [rewrite Hno in Hyes; discriminate |].
  clear Hyes. fold p in Hacc, Hmin, Hmax, Hpath.
  set (lo := pos0_min r) in *. set (hi := pos0_max r) in *.
  set (top := pos0_maxin r) in *.
  destruct (bin_width_pos lo hi bins Hrange Hbins) as [Hd _].
  pose proof (getBinNr_order lo hi (c0 (cornerA p)) bins Hrange Hbins) as (LA & HA & SA).
  pose proof (getBinNr_order lo hi (c0 (cornerB p)) bins Hrange Hbins) as (LB & HB & SB).
  pose proof (getBinNr_order lo hi (c0 (cornerC p)) bins Hrange Hbins) as (LC & HC & SC).
  pose proof (getBinNr_order lo hi (c0 (cornerD p)) bins Hrange Hbins) as (LD & HD & SD).
  cbv zeta in LA, HA, SA, LB, HB, SB, LC, HC, SC, LD, HD, SD.
  set (d := bin_width lo hi bins) in *.
  apply to_int_floor in Hmin, Hmax.
  pose proof (convex_shifted p lo d bin0_min Hd Hconv) as Hconv4.
  pose proof (area_shifted p lo d bin0_min Hd Harea) as Harea4.
  set (data := corrected o idx (nth idx weights zero)) in *.
  set (A0 := getBinNr (c0 (cornerA p)) lo d) in *.
  set (B0 := getBinNr (c0 (cornerB p)) lo d) in *.
  set (C0 := getBinNr (c0 (cornerC p)) lo d) in *.
  set (D0 := getBinNr (c0 (cornerD p)) lo d) in *.
  clearbody A0 B0 C0 D0 data. clearbody d. clearbody p lo hi top.
  destruct (deposits_unity _ _ _ _ _ _ _ _ _ _ _ _ _ Hmin Hmax Hacc Hpath Hconv4 Harea4)
    as [Hnonneg Hsum].
  pose proof (landed_unity _ _ _ _ _ _ _ _ _ _ _ _ _ Hmin Hmax Hacc Hpath Hconv4 Harea4)
    as Hiff.
  destruct (min4_spec A0 B0 C0 D0) as [(HmA & HmB & HmC & HmD) Hmin_is].
  destruct (max4_spec A0 B0 C0 D0) as [(HMA & HMB & HMC & HMD) Hmax_is].
  (* the corners lie in the range exactly when the extreme bin coordinates do *)
  assert (Hin : inside p lo hi <->
                (0 <= min4 A0 B0 C0 D0 /\ max4 A0 B0 C0 D0 <= inject_Z bins)).
  { unfold inside. split.
    - intros ([a1 a2] & [b1 b2] & [c1 c2] & [d1 d2]).
      apply LA in a1. apply LB in b1. apply LC in c1. apply LD in d1.
      apply HA in a2. apply HB in b2. apply HC in c2. apply HD in d2.
      split.
      + destruct Hmin_is as [E | [E | [E | E]]]; rewrite E; assumption.
      + destruct Hmax_is as [E | [E | [E | E]]]; rewrite E; assumption.
    - intros [Hlo Hhi].
      repeat split;
        first [apply LA | apply LB | apply LC | apply LD
              | apply HA | apply HB | apply HC | apply HD];
        eauto using Qle_trans. }
  assert (Hland : inside p lo hi -> below p hi -> landed bins ds = ds).
  { intros Hins (BA & BB & BC & BD).
    apply Hin in Hins. destruct Hins as [Hlo _].
    apply (deposits_land _ _ _ _ _ _ _ _ _ _ _ _ _ Hmin Hmax Hpath Hlo).
    apply SA in BA. apply SB in BB. apply SC in BC. apply SD in BD.
    destruct Hmax_is as [E | [E | [E | E]]]; rewrite E; assumption. }
  split; [exact (unity_nonempty ds Hsum) |].
  split; [exact Hnonneg |]. split; [exact Hsum |].
  split; [exact (landed_bounds bins ds Hnonneg Hsum) |].
  split; [split; intros Hone; [apply Hin, Hiff | apply Hiff, Hin]; exact Hone |].
  split; [exact Hland |].
  intros Htop Hnom.
  destruct (inside_expanded p lo top hi Htop Hexp Hnom) as [H1 H2].
  exact (Hland H1 H2).
Qed.

(** C1, on the code.  The pixel with [pos0] from -3/2 to -1, convex and of
    area 1/2, alone in the image and split over two bins, with the range
    taken from the data: it lies in the output range, from the minimum -3/2
    to the maximum -1, and is accepted.  The upper bound of the bins is
    -1 * (1 + eps), below -1, so that the bin coordinate of the maximum
    exceeds 2: the loop deposits in bins 0, 1 and 2, the two bins of the
    output receive 4194303/4194304 of the pixel, not all of it, and the
    third accumulation is outside the output arrays, in exact arithmetic as
    in binary64. *)
Theorem unity_lost_inside_range :
  let p := quad (- (3 # 2)) 0 (- (1)) 0 (- (1)) 1 (- (3 # 2)) 1 in
  let o := with_ranges None None in
  convex p /\ pixel_area p == 1 # 2 /\
  (exists r ds,
     ranges eps32 [p] o = Ok r /\
     pos0_min r == - (3 # 2) /\ pos0_maxin r == - (1) /\
     pos0_max r == - (8388609 # 8388608) /\
     inside p (pos0_min r) (pos0_maxin r) /\
     accepted1D [p] [10] 2 o r 0 = true /\
     deposits1D [p] [10] 2 o 0 = Ok ds /\
     map (@bin Q) ds = [0; 1; 2]%Z /\
     Qsum (map (@dcount Q) ds) == 1 /\
     Qsum (map (@dcount Q) (landed 2 ds)) == 4194303 # 4194304) /\
  fullSplit1D [p] [10] 2 o = Undefined OutOfBounds /\
  fullSplit1D [quad (-1.5) 0 (-1) 0 (-1) 1 (-1.5) 1]%float [10%float] 2
              (with_ranges None None)
  = Undefined OutOfBounds.
Proof.
  intros p o.
  split; [left; repeat split; vm_compute; discriminate |].
  split; [reflexivity |].
  split.
  - destruct (ranges eps32 [p] o) as [r | e | u] eqn:Er;
      [| vm_compute in Er; discriminate ..].
    destruct (deposits1D [p] [10] 2 o 0) as [ds | e | u] eqn:Eds;
      [| vm_compute in Eds; discriminate ..].
    exists r, ds. vm_compute in Er. injection Er as <-.
    vm_compute in Eds. injection Eds as <-.
    split; [reflexivity |].
    repeat split; vm_compute; try reflexivity; discriminate.
  - split; vm_compute; reflexivity.
Qed.

End Unity.

(** The pixel [0.5, 1.5] x [0, 1] over three bins on [0, 3]: it is split
    between bins 0 and 1, and the two weights add up to 1. *)
Lemma accepted_pixel_unity_witness :
  let p := quad (1 # 2) 0 (3 # 2) 0 (3 # 2) 1 (1 # 2) 1 in
  let o := with_ranges (Some [0; 3]) None in
  exists ds, deposits1D [p] [10] 3 o 0 = Ok ds /\
    map (@bin Q) ds = [0; 1]%Z /\
    Qsum (map (@dcount Q) ds) == 1 /\
    Qsum (map (@dcount Q) (landed 3 ds)) == 1 /\
    landed 3 ds = ds.
Proof.
  intros p o.
  destruct (deposits1D [p] [10] 3 o 0) as [ds | e | u] eqn:E;
    [| vm_compute in E; discriminate ..].
  exists ds. split; [reflexivity |].
  assert (Hconv : convex (nth 0 [p] default_pixel)).
  { left. repeat split; vm_compute; discriminate. }
  assert (Hin : inside (nth 0 [p] default_pixel) 0 (3 * (1 + (1 # 2 ^ 23)))).
  { repeat split; vm_compute; discriminate. }
  assert (Hin' : inside (nth 0 [p] default_pixel) 0 3).
  { repeat split; vm_compute; discriminate. }
  destruct (Unity.accepted_pixel_unity [p] [10] 3 o 0 _ ds Logic.eq_refl Logic.eq_refl
              Logic.eq_refl Logic.eq_refl E Hconv Logic.eq_refl)
    as (_ & _ & Hsum & _ & Hiff & _ & Hland).
  split; [vm_compute in E; injection E as <-; reflexivity |].
  split; [exact Hsum |]. split; [exact (proj2 Hiff Hin) |].
  apply Hland; [reflexivity | exact Hin'].
Defined.

(* ================================================================== *)
(** * The accumulators *)
(* ================================================================== *)

Section Accumulation.

Context {F : Type} `{Arith F}.

Lemma in_bounds_nat (k : Z) (n : nat) :
  in_bounds k (Z.of_nat n) = true <-> (0 <= k)%Z /\ (Z.to_nat k < n)%nat.
Proof.
  unfold in_bounds. rewrite andb_true_iff, Z.leb_le, Z.ltb_lt. lia.
Qed.

Lemma add_at_Ok (a : list F) (k : Z) (v : F) (a' : list F) :
  add_at a k v = Ok a' <->
  in_bounds k (Z.of_nat (length a)) = true /\
  a' = upd (Z.to_nat k) (add (nth (Z.to_nat k) a zero) v) a.
Proof.
  unfold add_at. destruct (in_bounds k (Z.of_nat (length a))); split.
  - intros E. injection E as <-. split; reflexivity.
  - intros [_ ->]. reflexivity.
  - discriminate.
  - intros [E _]. discriminate.
Qed.

Lemma accumulate_Ok (oc od : list F) (d : deposit F) (oc' od' : list F) :
  accumulate (oc, od) d = Ok (oc', od') <->
  in_bounds (bin d) (Z.of_nat (length oc)) = true /\
  in_bounds (bin d) (Z.of_nat (length od)) = true /\
  oc' = upd (Z.to_nat (bin d)) (add (nth (Z.to_nat (bin d)) oc zero) (dcount d)) oc /\
  od' = upd (Z.to_nat (bin d)) (add (nth (Z.to_nat (bin d)) od zero) (ddata d)) od.
Proof.
  unfold accumulate. split.
  - intros E. inv_bind_as E oc1 E1. inv_bind_as E od1 E2. injection E as <- <-.
    apply add_at_Ok in E1, E2. tauto.
  - intros (H1 & H2 & -> & ->).
    rewrite (proj2 (add_at_Ok oc _ _ _) (conj H1 Logic.eq_refl)). cbn [bind].
    rewrite (proj2 (add_at_Ok od _ _ _) (conj H2 Logic.eq_refl)). reflexivity.
Qed.

Lemma accumulate_outside (oc od : list F) (d : deposit F) :
  in_bounds (bin d) (Z.of_nat (length oc)) = false ->
  accumulate (oc, od) d = Undefined OutOfBounds.
Proof.
  intros Hb. unfold accumulate, add_at. rewrite Hb. reflexivity.
Qed.

(** What a sequence of accumulations leaves in every bin. *)
Lemma accumulate_values (ds : list (deposit F)) (oc od oc' od' : list F) :
  length oc = length od ->
  for_each accumulate ds (oc, od) = Ok (oc', od') ->
  length oc' = length oc /\ length od' = length od /\
  (forall b : nat,
      nth b oc' zero = fold_left add (counts_for b ds) (nth b oc zero) /\
      nth b od' zero = fold_left add (data_for b ds) (nth b od zero)).
Proof.
  revert oc od. induction ds as [| d ds IH]; intros oc od Hlen E.
  - simpl in E. injection E as <- <-. repeat split; reflexivity.
  - cbn [for_each] in E. inv_bind_as E acc Ed. destruct acc as [oc1 od1].
    apply accumulate_Ok in Ed. destruct Ed as (Hb1 & Hb2 & -> & ->).
    apply IH in E; [| now rewrite !upd_length].
    destruct E as (L1 & L2 & Hnth).
    rewrite upd_length in L1, L2.
    split; [assumption |]. split; [assumption |].
    intros b. destruct (Hnth b) as [Hc Hd]. rewrite Hc, Hd.
    unfold counts_for, data_for. cbn [filter].
    apply in_bounds_nat in Hb1, Hb2.
    destruct (Z.eqb_spec (bin d) (Z.of_nat b)) as [Eb | Eb].
    + cbn [map fold_left]. rewrite Eb, Nat2Z.id in *.
      rewrite !nth_upd_same by lia. split; reflexivity.
    + rewrite !nth_upd_other by lia. split; reflexivity.
Qed.

(** The accumulations succeed when every deposit addresses a bin. *)
Lemma accumulate_total (ds : list (deposit F)) (oc od : list F) :
  length oc = length od ->
  (forall d, In d ds -> in_bounds (bin d) (Z.of_nat (length oc)) = true) ->
  exists acc, for_each accumulate ds (oc, od) = Ok acc.
Proof.
  revert oc od. induction ds as [| d ds IH]; intros oc od Hlen Hin.
  - exists (oc, od). reflexivity.
  - cbn [for_each].
    pose proof (Hin d (or_introl Logic.eq_refl)) as Hb.
    assert (Hb' : in_bounds (bin d) (Z.of_nat (length od)) = true)
      by (rewrite <- Hlen; exact Hb).
    rewrite (proj2 (accumulate_Ok oc od d _ _)
               (conj Hb (conj Hb' (conj Logic.eq_refl Logic.eq_refl)))).
    cbn [bind]. apply IH.
    + now rewrite !upd_length.
    + intros d' Hd'. rewrite upd_length. apply Hin. now right.
Qed.

(** They index outside the arrays as soon as one deposit does not. *)
Lemma accumulate_escapes (ds : list (deposit F)) (oc od : list F) :
  length oc = length od ->
  (exists d, In d ds /\ in_bounds (bin d) (Z.of_nat (length oc)) = false) ->
  for_each accumulate ds (oc, od) = Undefined OutOfBounds.
Proof.
  revert oc od. induction ds as [| d ds IH]; intros oc od Hlen (d' & Hd' & Hout).
  - destruct Hd'.
  - cbn [for_each].
    destruct (in_bounds (bin d) (Z.of_nat (length oc))) eqn:Hb.
    + assert (Hb' : in_bounds (bin d) (Z.of_nat (length od)) = true)
        by (rewrite <- Hlen; exact Hb).
      rewrite (proj2 (accumulate_Ok oc od d _ _)
                 (conj Hb (conj Hb' (conj Logic.eq_refl Logic.eq_refl)))).
      cbn [bind]. apply IH; [now rewrite !upd_length |].
      exists d'. rewrite upd_length. split; [| exact Hout].
      destruct Hd' as [-> | Hd']; [congruence | exact Hd'].
    + rewrite (accumulate_outside _ _ _ Hb). reflexivity.
Qed.

(** X2.  The accumulations of a list of deposits into [outCount] and
    [outData], two arrays of one length: they succeed exactly when every
    deposit addresses a bin of the arrays, and index outside them otherwise;
    when they succeed the arrays keep their length and every bin holds its
    former value with the values of the deposits addressed to it added in
    their order, the other bins being left as they were. *)
Theorem accumulate_bins (ds : list (deposit F)) (oc od : list F) :
  length oc = length od ->
  ((exists acc, for_each accumulate ds (oc, od) = Ok acc) <->
   (forall d, In d ds -> in_bounds (bin d) (Z.of_nat (length oc)) = true)) /\
  ((exists d, In d ds /\ in_bounds (bin d) (Z.of_nat (length oc)) = false) ->
   for_each accumulate ds (oc, od) = Undefined OutOfBounds) /\
  (forall oc' od', for_each accumulate ds (oc, od) = Ok (oc', od') ->
     length oc' = length oc /\ length od' = length od /\
     forall b : nat,
       nth b oc' zero = fold_left add (counts_for b ds) (nth b oc zero) /\
       nth b od' zero = fold_left add (data_for b ds) (nth b od zero)).
Proof.
  intros Hlen. split; [split |]; [| | split].
  - intros (acc & E) d Hd.
    destruct (in_bounds (bin d) (Z.of_nat (length oc))) eqn:Hb; [reflexivity |].
    rewrite (accumulate_escapes ds oc od Hlen) in E; [discriminate |].
    exists d. split; assumption.
  - apply accumulate_total. exact Hlen.
  - apply accumulate_escapes. exact Hlen.
  - intros oc' od'. apply accumulate_values. exact Hlen.
Qed.

End Accumulation.

(** Two deposits in bin 1 and one in bin 0 of three. *)
Lemma accumulate_bins_witness :
  let ds := [ {| bin := 1%Z; dcount := 1 # 2; ddata := 5 |};
              {| bin := 0%Z; dcount := 1; ddata := 7 |};
              {| bin := 1%Z; dcount := 1 # 4; ddata := 3 |} ] in
  exists oc od,
    for_each accumulate ds ([0; 0; 0], [0; 0; 0]) = Ok (oc, od) /\
    nth 1 oc 0 = 0 + (1 # 2) + (1 # 4) /\ nth 1 od 0 = 0 + 5 + 3 /\
    nth 2 oc 0 = 0.
Proof.
  intros ds.
  destruct (accumulate_bins ds [0; 0; 0] [0; 0; 0] Logic.eq_refl) as (Hok & _ & Hval).
  destruct (proj2 Hok) as ([oc od] & E).
  { intros d [<- | [<- | [<- | []]]]; reflexivity. }
  exists oc, od. split; [exact E |].
  destruct (Hval oc od E) as (_ & _ & Hnth).
  split; [exact (proj1 (Hnth 1%nat)) |].
  split; [exact (proj2 (Hnth 1%nat)) | exact (proj1 (Hnth 2%nat))].
Defined.

(* ================================================================== *)
(** * Conservation of the counts and of the intensity *)
(* ================================================================== *)

Module Conservation.

Import Unity.

Lemma Qsum_upd (n : nat) (v : Q) (l : list Q) :
  (n < length l)%nat -> Qsum (upd n v l) == Qsum l - nth n l 0 + v.
Proof.
  revert n. induction l as [| x l IH]; intros [| n] Hn; simpl in *; try lia.
  - ring.
  - rewrite IH by lia. ring.
Qed.

Lemma Qsum_add_at (a : list Q) (k : Z) (v : Q) (a' : list Q) :
  add_at a k v = Ok a' -> Qsum a' == Qsum a + v.
Proof.
  intros E. apply add_at_Ok in E. destruct E as [Hb ->].
  apply in_bounds_nat in Hb. rewrite Qsum_upd by lia.
  change (@zero Q ArithQ) with 0. change (@add Q ArithQ) with Qplus.
  ring.
Qed.

Lemma Qsum_accumulate (ds : list (deposit Q)) (acc acc' : list Q * list Q) :
  for_each accumulate ds acc = Ok acc' ->
  Qsum (fst acc') == Qsum (fst acc) + Qsum (map (@dcount Q) ds) /\
  Qsum (snd acc') == Qsum (snd acc) + Qsum (map (@ddata Q) ds).
Proof.
  revert acc. induction ds as [| d ds IH]; intros [oc od] E.
  - simpl in E. injection E as <-. simpl. split; ring.
  - cbn [for_each] in E. inv_bind_as E acc1 Ed. destruct acc1 as [oc1 od1].
    unfold accumulate in Ed. inv_bind_as Ed oc2 E1. inv_bind_as Ed od2 E2.
    injection Ed as <- <-.
    apply Qsum_add_at in E1, E2.
    apply IH in E. cbn [fst snd] in *. destruct E as [-> ->].
    rewrite E1, E2. simpl. split; ring.
Qed.

Lemma Qsum_loop {S : Type} (total : S -> Q) (body : S -> nat -> outcome S)
    (w : nat -> Q) (l : list nat) :
  (forall s idx s', In idx l -> body s idx = Ok s' -> total s' == total s + w idx) ->
  forall s s', for_each body l s = Ok s' -> total s' == total s + Qsum (map w l).
Proof.
  induction l as [| idx l IH]; intros Hbody s s' E.
  - simpl in E. injection E as <-. simpl. ring.
  - cbn [for_each] in E. inv_bind_as E s1 E1.
    apply IH in E; [| intros; eapply Hbody; [right |]; eassumption].
    apply Hbody in E1; [| now left]. rewrite E, E1. simpl. ring.
Qed.

Lemma Qsum_full (n : Z) : Qsum (full n zero) == 0.
Proof.
  unfold full. induction (Z.to_nat n) as [| k IH]; simpl; [reflexivity |].
  rewrite IH. reflexivity.
Qed.

Lemma Qsum_indicator {A : Type} (keep : A -> bool) (f : A -> Q) (l : list A) :
  Qsum (map (fun x => if keep x then f x else 0) l) == Qsum (map f (filter keep l)).
Proof.
  induction l as [| x l IH]; simpl; [reflexivity |].
  destruct (keep x); simpl; rewrite IH; ring.
Qed.

Lemma Qsum_ones {A : Type} (l : list A) :
  Qsum (map (fun _ => 1) l) == inject_Z (Z.of_nat (length l)).
Proof.
  induction l as [| x l IH]; [reflexivity |].
  cbn [map Qsum fold_right length]. fold (Qsum (map (fun _ : A => 1) l)). rewrite IH.
  rewrite Nat2Z.inj_succ. unfold Z.succ. rewrite inject_Z_plus. ring.
Qed.

(** The deposits of one pixel carry its corrected intensity, shared out by
    the weights. *)
Lemma pixel1D_data (pos : list (pixel Q)) (weights : list Q) (bins : Z) (o : options Q)
    (r : bounds Q) (idx : nat) (ds : list (deposit Q)) :
  pixel1D o weights pos bins (pos0_min r) (bin_width (pos0_min r) (pos0_max r) bins)
          false (pos1_min r) (pos1_maxin r) idx = Ok ds ->
  forall d, In d ds -> ddata d == corrected o idx (nth idx weights zero) * dcount d.
Proof.
  intros Hds. apply pixel1D_cases in Hds. cbv zeta in Hds.
  destruct Hds as [[_ ->] | [_ (m & M & _ & _ & _ & [[_ ->] | [_ ->]])]].
  - intros d [].
  - intros d [<- | []]. cbn [ddata dcount]. ring.
  - intros d Hd. unfold split1D in Hd. apply in_map_iff in Hd.
    destruct Hd as (b & <- & _). cbn [ddata dcount]. reflexivity.
Qed.

(** The totals one pixel adds to the two accumulators. *)
Lemma pixel1D_totals (pos : list (pixel Q)) (weights : list Q) (bins : Z) (o : options Q)
    (r : bounds Q) (idx : nat) (ds : list (deposit Q)) :
  (0 < bins)%Z -> pos0_min r < pos0_max r ->
  (accepted1D pos weights bins o r idx = true ->
   convex (nth idx pos default_pixel) /\ 0 < pixel_area (nth idx pos default_pixel)) ->
  pixel1D o weights pos bins (pos0_min r) (bin_width (pos0_min r) (pos0_max r) bins)
          false (pos1_min r) (pos1_maxin r) idx = Ok ds ->
  Qsum (map (@dcount Q) ds)
  == (if accepted1D pos weights bins o r idx then 1 else 0) /\
  Qsum (map (@ddata Q) ds)
  == (if accepted1D pos weights bins o r idx
      then corrected o idx (nth idx weights zero) else 0).
Proof.
  intros Hbins Hrange Hpix Hds.
  assert (Hdata : Qsum (map (@ddata Q) ds)
                  == corrected o idx (nth idx weights zero) * Qsum (map (@dcount Q) ds)).
  { rewrite (Qsum_map_ext (@ddata Q)
               (fun d => dcount d * corrected o idx (nth idx weights zero))).
    - rewrite Qsum_map_scale. ring.
    - intros d Hd. rewrite (pixel1D_data _ _ _ _ _ _ _ Hds d Hd). ring. }
  assert (Hcount : Qsum (map (@dcount Q) ds)
                   == (if accepted1D pos weights bins o r idx then 1 else 0)).
  { destruct (bin_width_pos _ _ bins Hrange Hbins) as [Hd _].
    apply pixel1D_cases in Hds. cbv zeta in Hds.
    destruct Hds as [[-> ->] | [Hyes (m & M & Hacc & Hmin & Hmax & Hpath)]];
      [reflexivity |].
    destruct (Hpix Hyes) as [Hconv Harea]. rewrite Hyes.
    apply to_int_floor in Hmin, Hmax.
    pose proof (convex_shifted _ (pos0_min r) _ m Hd Hconv) as Hconv4.
    pose proof (area_shifted _ (pos0_min r) _ m Hd Harea) as Harea4.
    apply (deposits_unity _ _ _ _ _ _ _ _ _ _ _ _ _ Hmin Hmax Hacc Hpath Hconv4 Harea4). }
  split; [exact Hcount |].
  rewrite Hdata, Hcount. destruct (accepted1D pos weights bins o r idx); ring.
Qed.

(** The pixel loop of a run that returns. *)
Lemma fullSplit1D_loop {F : Type} `{Arith F} {M : Memory} (pos : list (pixel F))
    (weights : list F) (bins : Z) (o : options F) outPos outMerge outData outCount :
  fullSplit1D pos weights bins o = Ok (outPos, outMerge, outData, outCount) ->
  (1 < bins)%Z /\ length pos = length weights /\
  exists r, ranges eps32 pos o = Ok r /\
    for_each (step1D pos weights bins o r) (seq 0 (length weights))
             (full bins zero, full bins zero) = Ok (outCount, outData).
Proof.
  unfold fullSplit1D. intros E.
  destruct ((bins <? 0) || (2 ^ 64 <=? bins))%Z; [discriminate |].
  inv_bind_as E u1 Hlen. inv_bind_as E u2 Hbins.
  unfold assert in Hlen, Hbins.
  destruct (Nat.eqb_spec (length pos) (length weights)); [| discriminate].
  destruct (Z.ltb_spec 1 bins); [| discriminate].
  inv_bind_as E od0 Hod. inv_bind_as E oc0 Hoc. inv_bind_as E om0 Hom.
  apply zeros_Ok in Hod, Hoc. destruct Hod as [_ ->]. destruct Hoc as [_ ->].
  inv_bind_as E r Hr.
  destruct (dummy_setup o) as [[check_dummy cdummy] cddummy].
  do 5 inv_bind E. inv_bind_as E acc Hloop. destruct acc as [oc od].
  injection E as <- <- <- <-.
  split; [assumption |]. split; [assumption |]. exists r. split; [assumption |].
  exact Hloop.
Qed.

(** X3.  A run of [fullSplit1D] that returns, in exact arithmetic, over a
    non-empty effective range and with every accepted pixel convex and of
    nonzero area: the counts of all bins add up to the number of accepted
    pixels, and the weighted histogram adds up to the sum of their corrected
    intensities.  No intensity is lost or counted twice. *)
Theorem conservation {M : Memory} (pos : list (pixel Q)) (weights : list Q) (bins : Z)
    (o : options Q) (r : bounds Q) outPos outMerge outData outCount :
  fullSplit1D pos weights bins o = Ok (outPos, outMerge, outData, outCount) ->
  ranges eps32 pos o = Ok r -> pos0_min r < pos0_max r ->
  (forall idx, (idx < length weights)%nat ->
     accepted1D pos weights bins o r idx = true ->
     convex (nth idx pos default_pixel) /\ 0 < pixel_area (nth idx pos default_pixel)) ->
  let hit := filter (accepted1D pos weights bins o r) (seq 0 (length weights)) in
  Qsum outCount == inject_Z (Z.of_nat (length hit)) /\
  Qsum outData == Qsum (map (fun idx => corrected o idx (nth idx weights zero)) hit).
Proof.
  intros Hrun Hr Hrange Hpix hit.
  apply fullSplit1D_loop in Hrun.
  destruct Hrun as (Hbins & Hlen & r' & Hr' & Hloop).
  rewrite Hr in Hr'. injection Hr' as <-.
  assert (Hbody : forall idx acc acc',
             In idx (seq 0 (length weights)) ->
             step1D pos weights bins o r acc idx = Ok acc' ->
             Qsum (fst acc') == Qsum (fst acc)
                                + (if accepted1D pos weights bins o r idx then 1 else 0) /\
             Qsum (snd acc') == Qsum (snd acc)
                                + (if accepted1D pos weights bins o r idx
                                   then corrected o idx (nth idx weights zero) else 0)).
  { intros idx acc acc' Hidx E. unfold step1D in E. inv_bind_as E ds Hds.
    destruct (pixel1D_totals pos weights bins o r idx ds) as [Hc Hd];
      try assumption; [lia | apply Hpix; apply in_seq in Hidx; lia |].
    apply Qsum_accumulate in E. destruct E as [E1 E2].
    rewrite E1, E2, Hc, Hd. split; reflexivity. }
  split.
  - pose proof (Qsum_loop (fun acc => Qsum (fst acc)) _
                  (fun idx => if accepted1D pos weights bins o r idx then 1 else 0)
                  (seq 0 (length weights))
                  (fun s idx s' Hin E => proj1 (Hbody idx s s' Hin E)) _ _ Hloop) as Hsum.
    cbn [fst] in Hsum. rewrite Hsum, Qsum_full.
    rewrite (Qsum_indicator _ (fun _ => 1)), Qsum_ones. fold hit. ring.
  - pose proof (Qsum_loop (fun acc => Qsum (snd acc)) _
                  (fun idx => if accepted1D pos weights bins o r idx
                              then corrected o idx (nth idx weights zero) else 0)
                  (seq 0 (length weights))
                  (fun s idx s' Hin E => proj2 (Hbody idx s s' Hin E)) _ _ Hloop) as Hsum.
    cbn [snd] in Hsum. rewrite Hsum, Qsum_full.
    rewrite (Qsum_indicator _ (fun idx => corrected o idx (nth idx weights zero))).
    fold hit. ring.
Qed.

End Conservation.

(** Two pixels over three bins on [0, 3], the first split between bins 0
    and 1, the second inside bin 2, with a dark current subtracted: the
    counts add up to 2 and the histogram to (10 - 1) + (4 - 1). *)
Lemma conservation_witness :
  let p := quad (1 # 2) 0 (3 # 2) 0 (3 # 2) 1 (1 # 2) 1 in
  let q := quad (9 # 4) 0 (11 # 4) 0 (11 # 4) 1 (9 # 4) 1 in
  let o := {| pos0Range := Some [0; 3]; pos1Range := None; dummy := None;
              delta_dummy := None; mask := None; dark := Some [1; 1]; flat := None;
              solidangle := None; polarization := None |} in
  exists outPos outMerge outData outCount,
    fullSplit1D [p; q] [10; 4] 3 o = Ok (outPos, outMerge, outData, outCount) /\
    Qsum outCount == 2 /\ Qsum outData == 12.
Proof.
  intros p q o.
  destruct (fullSplit1D [p; q] [10; 4] 3 o)
    as [[[[outPos outMerge] outData] outCount] | e | u] eqn:E;
    [| vm_compute in E; discriminate ..].
  exists outPos, outMerge, outData, outCount. split; [reflexivity |].
  refine (Conservation.conservation [p; q] [10; 4] 3 o _ _ _ _ _ E
            Logic.eq_refl Logic.eq_refl _).
  intros [| [| idx]] Hidx _; [| | simpl in Hidx; lia];
    (split; [left; repeat split; vm_compute; discriminate | reflexivity]).
Defined.

(* ================================================================== *)
(** * The single-row and single-column paths of [fullSplit2D] *)
(* ================================================================== *)

Module SplitPaths.

Import Unity.

Lemma zrange_0 (n : Z) : zrange 0 n = columns (Z.to_nat n).
Proof.
  unfold zrange, columns. rewrite Z.sub_0_r. apply map_ext. intros k. lia.
Qed.

(** The weights of the single-row path are those of the 1D split path. *)
Lemma split2D_row_weights (A0 A1 B0 B1 C0 C1 D0 D1 data : Q)
    (bin0_min bin0_max bin1_min : Z) :
  map (@dcount2 Q) (split2D_row A0 A1 B0 B1 C0 C1 D0 D1 data bin0_min bin0_max bin1_min)
  = map (@dcount Q) (split1D A0 A1 B0 B1 C0 C1 D0 D1 data bin0_min bin0_max).
Proof.
  rewrite split1D_weights. unfold split2D_row. rewrite zrange_0, map_map.
  apply map_ext. intros u. cbn [dcount2 mk_deposit2].
  rewrite partial_area_edges. reflexivity.
Qed.

Lemma area4_transpose (a0 a1 b0 b1 c0 c1 d0 d1 : Q) :
  area4 a1 a0 b1 b0 c1 c0 d1 d0 == area4 a0 a1 b0 b1 c0 c1 d0 d1.
Proof.
  rewrite !area4_cross.
  setoid_replace (cross a1 a0 b1 b0 c1 c0 d1 d0) with (- cross a0 a1 b0 b1 c0 c1 d0 d1)
    by (unfold cross; ring).
  rewrite Qabs_opp. reflexivity.
Qed.

Lemma turn_transpose (p0 p1 q0 q1 r0 r1 : Q) :
  turn p1 p0 q1 q0 r1 r0 == - turn p0 p1 q0 q1 r0 r1.
Proof. unfold turn. ring. Qed.

Lemma separated_transpose (a0 a1 b0 b1 c0 c1 d0 d1 : Q) :
  separated a0 a1 b0 b1 c0 c1 d0 d1 -> separated a1 a0 b1 b0 c1 c0 d1 d0.
Proof.
  unfold separated. intros Hsep.
  rewrite (turn_transpose a0 a1 b0 b1 c0 c1), (turn_transpose a0 a1 c0 c1 d0 d1).
  destruct Hsep as [[H1 H2] | [H1 H2]]; [right | left]; split; lra.
Qed.

(** The weights of the single-column path are those of the 1D split path
    on the transposed pixel. *)
Lemma split2D_column_weights (A0 A1 B0 B1 C0 C1 D0 D1 data : Q)
    (bin0_min bin1_min bin1_max : Z) :
  Forall2 Qeq
    (map (@dcount2 Q)
         (split2D_column A0 A1 B0 B1 C0 C1 D0 D1 data bin0_min bin1_min bin1_max))
    (map (@dcount Q) (split1D A1 A0 B1 B0 C1 C0 D1 D0 data bin1_min bin1_max)).
Proof.
  rewrite split1D_weights. unfold split2D_column. rewrite zrange_0, map_map.
  induction (columns (Z.to_nat (bin1_max + 1 - bin1_min))) as [| u l IH];
    [constructor |].
  cbn [map]. constructor; [| exact IH].
  cbn [dcount2 mk_deposit2]. rewrite partial_area_edges.
  fold (around A1 A0 B1 B0 C1 C0 D1 D0 u).
  change (@onef Q ArithQ) with 1. change (@fabs Q ArithQ) with Qabs.
  change (@mul Q ArithQ) with Qmult. change (@div Q ArithQ) with Qdiv.
  rewrite area4_transpose. reflexivity.
Qed.

Lemma Qsum_Forall2 (l l' : list Q) : Forall2 Qeq l l' -> Qsum l == Qsum l'.
Proof.
  induction 1 as [| x y l l' E _ IH]; simpl; [reflexivity |]. rewrite E, IH. reflexivity.
Qed.

Lemma Forall2_nonneg (l l' : list Q) :
  Forall2 Qeq l l' -> (forall w, In w l' -> 0 <= w) -> forall w, In w l -> 0 <= w.
Proof.
  induction 1 as [| x y l l' E _ IH]; intros Hl' w; [intros [] |].
  intros [<- | Hw].
  - rewrite E. apply Hl'. now left.
  - apply IH; [| exact Hw]. intros; apply Hl'; now right.
Qed.

(** X4.  The single-row path of [fullSplit2D], in exact arithmetic, for a
    pixel of nonzero area whose diagonal AC separates B from D (every
    convex quadrilateral) and whose translated corners lie within the
    columns it spans: it deposits once in every column from [bin0_min] to
    [bin0_max], all in row [bin1_min], with non-negative weights that add
    up to 1, and the deposited intensities add up to the intensity of the
    pixel. *)
Theorem row_split_unity (A0 A1 B0 B1 C0 C1 D0 D1 data : Q)
    (bin0_min bin0_max bin1_min : Z) :
  let n := Z.to_nat (bin0_max + 1 - bin0_min) in
  within n A0 -> within n B0 -> within n C0 -> within n D0 ->
  separated A0 A1 B0 B1 C0 C1 D0 D1 ->
  0 < area4 A0 A1 B0 B1 C0 C1 D0 D1 ->
  let ds := split2D_row A0 A1 B0 B1 C0 C1 D0 D1 data bin0_min bin0_max bin1_min in
  map (@dbin0 Q) ds = zrange bin0_min (bin0_max + 1) /\
  (forall d, In d ds ->
     dbin1 d = bin1_min /\ 0 <= dcount2 d /\ ddata2 d == dcount2 d * data) /\
  Qsum (map (@dcount2 Q) ds) == 1 /\
  Qsum (map (@ddata2 Q) ds) == data.
Proof.
  intros n HA HB HC HD Hsep Harea ds.
  destruct (split1D_unity A0 A1 B0 B1 C0 C1 D0 D1 data bin0_min bin0_max
              HA HB HC HD Hsep Harea) as [Hnonneg Hsum].
  rewrite <- (split2D_row_weights A0 A1 B0 B1 C0 C1 D0 D1 data bin0_min bin0_max bin1_min)
    in Hnonneg, Hsum.
  fold ds in Hnonneg, Hsum.
  assert (Hdep : forall d, In d ds ->
                        dbin1 d = bin1_min /\ ddata2 d == dcount2 d * data).
  { intros d Hin. unfold ds, split2D_row in Hin. apply in_map_iff in Hin.
    destruct Hin as (u & <- & _). cbn [dbin1 ddata2 dcount2 mk_deposit2].
    split; reflexivity. }
  split; [| split; [| split]].
  - unfold ds, split2D_row. rewrite map_map. cbn [dbin0 mk_deposit2].
    rewrite zrange_0, (zrange_columns bin0_min). reflexivity.
  - intros d Hin. destruct (Hdep d Hin) as [E1 E2].
    split; [exact E1 |]. split; [| exact E2].
    apply Hnonneg. now apply in_map.
  - exact Hsum.
  - rewrite (Qsum_map_ext (@ddata2 Q) (fun d => dcount2 d * data)).
    + rewrite Qsum_map_scale, Hsum. ring.
    + intros d Hin. apply (Hdep d Hin).
Qed.

(** X5.  The single-column path of [fullSplit2D], the transpose of the 1D
    code: under the same conditions on the other axis it deposits once in
    every row from [bin1_min] to [bin1_max], all in column [bin0_min], with
    non-negative weights that add up to 1 and intensities that add up to
    the intensity of the pixel. *)
Theorem column_split_unity (A0 A1 B0 B1 C0 C1 D0 D1 data : Q)
    (bin0_min bin1_min bin1_max : Z) :
  let n := Z.to_nat (bin1_max + 1 - bin1_min) in
  within n A1 -> within n B1 -> within n C1 -> within n D1 ->
  separated A0 A1 B0 B1 C0 C1 D0 D1 ->
  0 < area4 A0 A1 B0 B1 C0 C1 D0 D1 ->
  let ds := split2D_column A0 A1 B0 B1 C0 C1 D0 D1 data bin0_min bin1_min bin1_max in
  map (@dbin1 Q) ds = zrange bin1_min (bin1_max + 1) /\
  (forall d, In d ds ->
     dbin0 d = bin0_min /\ 0 <= dcount2 d /\ ddata2 d == dcount2 d * data) /\
  Qsum (map (@dcount2 Q) ds) == 1 /\
  Qsum (map (@ddata2 Q) ds) == data.
Proof.
  intros n HA HB HC HD Hsep Harea ds.
  apply separated_transpose in Hsep. rewrite <- area4_transpose in Harea.
  destruct (split1D_unity A1 A0 B1 B0 C1 C0 D1 D0 data bin1_min bin1_max
              HA HB HC HD Hsep Harea) as [Hnonneg Hsum].
  pose proof (split2D_column_weights A0 A1 B0 B1 C0 C1 D0 D1 data bin0_min bin1_min bin1_max)
    as Hw. fold ds in Hw.
  rewrite <- (Qsum_Forall2 _ _ Hw) in Hsum.
  pose proof (Forall2_nonneg _ _ Hw Hnonneg) as Hnonneg'.
  assert (Hdep : forall d, In d ds ->
                        dbin0 d = bin0_min /\ ddata2 d == dcount2 d * data).
  { intros d Hin. unfold ds, split2D_column in Hin. apply in_map_iff in Hin.
    destruct Hin as (u & <- & _). cbn [dbin0 ddata2 dcount2 mk_deposit2].
    split; reflexivity. }
  split; [| split; [| split]].
  - unfold ds, split2D_column. rewrite map_map. cbn [dbin1 mk_deposit2].
    rewrite zrange_0, (zrange_columns bin1_min). reflexivity.
  - intros d Hin. destruct (Hdep d Hin) as [E1 E2].
    split; [exact E1 |]. split; [| exact E2].
    apply Hnonneg'. now apply in_map.
  - exact Hsum.
  - rewrite (Qsum_map_ext (@ddata2 Q) (fun d => dcount2 d * data)).
    + rewrite Qsum_map_scale, Hsum. ring.
    + intros d Hin. apply (Hdep d Hin).
Qed.

End SplitPaths.

(** The pixel [0.5, 1.5] x [0, 1] in row 5: half of it in column 0, half in
    column 1. *)
Lemma row_split_unity_witness :
  let ds := split2D_row (1 # 2) 0 (3 # 2) 0 (3 # 2) 1 (1 # 2) 1 10 0 1 5 in
  map (@dbin0 Q) ds = [0; 1]%Z /\
  Qsum (map (@dcount2 Q) ds) == 1 /\ Qsum (map (@ddata2 Q) ds) == 10.
Proof.
  intros ds.
  destruct (SplitPaths.row_split_unity (1 # 2) 0 (3 # 2) 0 (3 # 2) 1 (1 # 2) 1 10 0 1 5)
    as (Hbins & _ & Hsum & Hdata).
  - split; vm_compute; discriminate.
  - split; vm_compute; discriminate.
  - split; vm_compute; discriminate.
  - split; vm_compute; discriminate.
  - left. split; vm_compute; discriminate.
  - reflexivity.
  - split; [exact Hbins |]. split; [exact Hsum | exact Hdata].
Defined.

(** The pixel [0, 1] x [0.5, 1.5] in column 5: half of it in row 0, half in
    row 1. *)
Lemma column_split_unity_witness :
  let ds := split2D_column 0 (1 # 2) 1 (1 # 2) 1 (3 # 2) 0 (3 # 2) 10 5 0 1 in
  map (@dbin1 Q) ds = [0; 1]%Z /\
  Qsum (map (@dcount2 Q) ds) == 1 /\ Qsum (map (@ddata2 Q) ds) == 10.
Proof.
  intros ds.
  destruct (SplitPaths.column_split_unity 0 (1 # 2) 1 (1 # 2) 1 (3 # 2) 0 (3 # 2) 10 5 0 1)
    as (Hbins & _ & Hsum & Hdata).
  - split; vm_compute; discriminate.
  - split; vm_compute; discriminate.
  - split; vm_compute; discriminate.
  - split; vm_compute; discriminate.
  - left. split; vm_compute; discriminate.
  - reflexivity.
  - split; [exact Hbins |]. split; [exact Hsum | exact Hdata].
Defined.

(* ================================================================== *)
(** * The general path of [fullSplit2D]: the clipping *)
(* ================================================================== *)

(** A property kept by the body of a loop on the items it meets. *)
Lemma for_each_inv_In {I S : Type} (P : S -> Prop) (body : S -> I -> outcome S)
    (l : list I) :
  (forall s i s', In i l -> P s -> body s i = Ok s' -> P s') ->
  forall s s', P s -> for_each body l s = Ok s' -> P s'.
Proof.
  induction l as [| i l IH]; simpl; intros Hbody s s' Hs E.
  - injection E as <-. exact Hs.
  - inv_bind_as E s1 E1. eapply IH; [| | exact E].
    + intros s0 i0 s0' Hi0. apply Hbody. now right.
    + eapply Hbody; [left; reflexivity | exact Hs | exact E1].
Qed.

Lemma for_each_Ok_each {I S : Type} (body : S -> I -> outcome S) (l : list I) (s s' : S) :
  for_each body l s = Ok s' ->
  forall i, In i l -> exists s1 s2, body s1 i = Ok s2.
Proof.
  revert s. induction l as [| x l IH]; intros s E i Hi; [destruct Hi |].
  cbn [for_each] in E. inv_bind_as E s1 E1.
  destruct Hi as [<- | Hi]; [exists s, s1; exact E1 | eapply IH; eassumption].
Qed.

Section Clip.
Context {F : Type} `{Arith F}.

Lemma push_Ok (l : list (MyPoint F)) (p : MyPoint F) (l' : list (MyPoint F)) :
  push l p = Ok l' -> l' = l ++ [p].
Proof.
  unfold push. destruct (length l <? 8)%nat; [| discriminate].
  intros E. injection E as <-. reflexivity.
Qed.

Lemma last_In (l : list (MyPoint F)) (d : MyPoint F) : l <> [] -> In (last l d) l.
Proof.
  induction l as [| x l IH]; [congruence |]. intros _.
  destruct l as [| y l]; [now left |].
  right. apply IH. discriminate.
Qed.

(** A property of the kept vertices and of the intersections the pass
    computes holds of every vertex of its result. *)
Lemma clip_Forall (P : MyPoint F -> Prop) (inE outS inS : MyPoint F -> bool)
    (inter : MyPoint F -> MyPoint F -> MyPoint F) (l l' : list (MyPoint F)) :
  (forall E, In E l -> inE E = true -> P E) ->
  (forall S E, In S l -> In E l ->
     (inE E = true /\ outS S = true) \/ (inE E = false /\ inS S = true) ->
     P (inter S E)) ->
  clip inE outS inS inter l = Ok l' -> Forall P l'.
Proof.
  intros Hkeep Hinter E. unfold clip in E. inv_bind_as E st Hloop.
  injection E as <-.
  destruct l as [| x l0] eqn:El; [simpl in Hloop; injection Hloop as <-; constructor |].
  rewrite <- El in *.
  assert (Hne : l <> []) by (rewrite El; discriminate).
  refine (proj1 (for_each_inv_In
                   (fun st => Forall P (fst st) /\ In (snd st) l) _ l _ _ _ _ Hloop)).
  - intros [list2 S] E0 [list2' S'] HE0 [Hall HS] Hbody. cbn [fst snd] in *.
    inv_bind_as Hbody list3 Hpush. injection Hbody as <- <-.
    split; [| exact HE0].
    destruct (inE E0) eqn:HinE.
    + inv_bind_as Hpush list4 Hfirst. apply push_Ok in Hpush. subst list3.
      apply Forall_app. split.
      * destruct (outS S) eqn:Hout.
        -- apply push_Ok in Hfirst. subst list4. apply Forall_app.
           split; [exact Hall |]. constructor; [| constructor].
           apply Hinter; [exact HS | exact HE0 | left; split; assumption].
        -- injection Hfirst as <-. exact Hall.
      * constructor; [| constructor]. apply Hkeep; assumption.
    + destruct (inS S) eqn:Hin.
      * apply push_Ok in Hpush. subst list3. apply Forall_app.
        split; [exact Hall |]. constructor; [| constructor].
        apply Hinter; [exact HS | exact HE0 | right; split; assumption].
      * injection Hpush as <-. exact Hall.
  - cbn [fst snd]. split; [constructor | apply last_In; exact Hne].
Qed.

End Clip.

Module Clipping.

Import Unity.

(** The point where the segment from S to E meets a line lies between the
    two ends. *)
Lemma interpolation_between (xS yS xE yE c lo hi : Q) :
  (yE < c /\ c <= yS) \/ (c < yE /\ yS <= c) \/ (c <= yE /\ yS < c) \/ (yE <= c /\ c < yS) ->
  lo <= xS <= hi -> lo <= xE <= hi ->
  lo <= (xE - xS) * (c - yS) / (yE - yS) + xS <= hi.
Proof.
  intros Hc HS HE.
  assert (Hne : ~ yE - yS == 0) by (intros E0; lra).
  set (t := (c - yS) / (yE - yS)).
  assert (Ht : t * (yE - yS) == c - yS) by (unfold t; field; exact Hne).
  assert (Ht01 : 0 <= t <= 1).
  { destruct (Qlt_le_dec 0 (yE - yS)) as [Hpos | Hneg].
    - split.
      + unfold t. apply Qle_shift_div_l; [exact Hpos | lra].
      + unfold t. apply Qle_shift_div_r; [exact Hpos | lra].
    - assert (Hpos : 0 < yS - yE) by lra.
      setoid_replace t with ((yS - c) / (yS - yE)) by (unfold t; field; split; lra).
      split.
      + apply Qle_shift_div_l; [exact Hpos | lra].
      + apply Qle_shift_div_r; [exact Hpos | lra]. }
  setoid_replace ((xE - xS) * (c - yS) / (yE - yS) + xS) with (xS + t * (xE - xS))
    by (unfold t; field; exact Hne).
  clearbody t. split; nra.
Qed.

Lemma interpolation_ge (xS yS xE yE c lo : Q) :
  (yE < c /\ c <= yS) \/ (c < yE /\ yS <= c) \/ (c <= yE /\ yS < c) \/ (yE <= c /\ c < yS) ->
  lo <= xS -> lo <= xE -> lo <= (xE - xS) * (c - yS) / (yE - yS) + xS.
Proof.
  intros Hc HS HE. destruct (Qlt_le_dec xS xE).
  - apply (interpolation_between xS yS xE yE c lo xE); [exact Hc | lra | lra].
  - apply (interpolation_between xS yS xE yE c lo xS); [exact Hc | lra | lra].
Qed.

Lemma interpolation_le (xS yS xE yE c hi : Q) :
  (yE < c /\ c <= yS) \/ (c < yE /\ yS <= c) \/ (c <= yE /\ yS < c) \/ (yE <= c /\ c < yS) ->
  xS <= hi -> xE <= hi -> (xE - xS) * (c - yS) / (yE - yS) + xS <= hi.
Proof.
  intros Hc HS HE. destruct (Qlt_le_dec xS xE).
  - apply (interpolation_between xS yS xE yE c xS hi); [exact Hc | lra | lra].
  - apply (interpolation_between xS yS xE yE c xE hi); [exact Hc | lra | lra].
Qed.

Ltac cmp_hyps :=
  repeat match goal with
         | H : Qlt_bool _ _ = true |- _ => apply Qlt_bool_iff in H
         | H : Qlt_bool _ _ = false |- _ => apply Qlt_bool_false in H
         | H : Qle_bool _ _ = true |- _ => apply Qle_bool_iff in H
         | H : Qle_bool _ _ = false |- _ => apply Qle_bool_false in H
         end.

(** The four passes of [clip_cell], against the lines [x = c] and [y = c]:
    what each one adds to what holds of the vertices. *)
Lemma clip_right_of (c : Q) (l l' : list (MyPoint Q)) :
  clip (fun E => Qlt_bool c (i_ E)) (fun S => Qle_bool (i_ S) c)
       (fun S => Qlt_bool c (i_ S))
       (fun S E => ComputeIntersection0 S E c) l = Ok l' ->
  Forall (fun p => c <= i_ p) l'.
Proof.
  apply clip_Forall.
  - intros p _ Hp. cmp_hyps. lra.
  - intros S0 E0 _ _ _. cbn [i_ ComputeIntersection0]. apply Qle_refl.
Qed.

Lemma clip_below (c xlo : Q) (l l' : list (MyPoint Q)) :
  Forall (fun p => xlo <= i_ p) l ->
  clip (fun E => Qlt_bool (j_ E) c) (fun S => Qle_bool c (j_ S))
       (fun S => Qlt_bool (j_ S) c)
       (fun S E => ComputeIntersection1 S E c) l = Ok l' ->
  Forall (fun p => xlo <= i_ p /\ j_ p <= c) l'.
Proof.
  intros Hl. rewrite Forall_forall in Hl. apply clip_Forall.
  - intros p Hp Hin. cmp_hyps. split; [now apply Hl | lra].
  - intros S0 E0 HS HE Hc. pose proof (Hl _ HS) as H1. pose proof (Hl _ HE) as H2.
    simpl in H1, H2. cbn [i_ j_ ComputeIntersection1]. split; [| apply Qle_refl].
    cbv [add sub mul div ArithQ].
    apply interpolation_ge; [| exact H1 | exact H2].
    destruct Hc as [[Ha Hb] | [Ha Hb]]; cmp_hyps; tauto.
Qed.

Lemma clip_left_of (c xlo yhi : Q) (l l' : list (MyPoint Q)) :
  xlo <= c ->
  Forall (fun p => xlo <= i_ p /\ j_ p <= yhi) l ->
  clip (fun E => Qlt_bool (i_ E) c) (fun S => Qle_bool c (i_ S))
       (fun S => Qlt_bool (i_ S) c)
       (fun S E => ComputeIntersection0 S E c) l = Ok l' ->
  Forall (fun p => (xlo <= i_ p <= c) /\ j_ p <= yhi) l'.
Proof.
  intros Hord Hl. rewrite Forall_forall in Hl. apply clip_Forall.
  - intros p Hp Hin. cmp_hyps. destruct (Hl _ Hp). repeat split; lra.
  - intros S0 E0 HS HE Hc. destruct (Hl _ HS) as [_ H1]. destruct (Hl _ HE) as [_ H2].
    cbn [i_ j_ ComputeIntersection0]. split; [split; [exact Hord | apply Qle_refl] |].
    cbv [add sub mul div ArithQ].
    apply interpolation_le; [| exact H1 | exact H2].
    destruct Hc as [[Ha Hb] | [Ha Hb]]; cmp_hyps; tauto.
Qed.

Lemma clip_above (c xlo xhi yhi : Q) (l l' : list (MyPoint Q)) :
  c <= yhi ->
  Forall (fun p => (xlo <= i_ p <= xhi) /\ j_ p <= yhi) l ->
  clip (fun E => Qlt_bool c (j_ E)) (fun S => Qle_bool (j_ S) c)
       (fun S => Qlt_bool c (j_ S))
       (fun S E => ComputeIntersection1 S E c) l = Ok l' ->
  Forall (fun p => (xlo <= i_ p <= xhi) /\ (c <= j_ p <= yhi)) l'.
Proof.
  intros Hord Hl. rewrite Forall_forall in Hl. apply clip_Forall.
  - intros p Hp Hin. cmp_hyps. destruct (Hl _ Hp). repeat split; lra.
  - intros S0 E0 HS HE Hc. destruct (Hl _ HS) as [H1 _]. destruct (Hl _ HE) as [H2 _].
    assert (Hc' : (j_ E0 < c /\ c <= j_ S0) \/ (c < j_ E0 /\ j_ S0 <= c) \/
                  (c <= j_ E0 /\ j_ S0 < c) \/ (j_ E0 <= c /\ c < j_ S0))
      by (destruct Hc as [[Ha Hb] | [Ha Hb]]; cmp_hyps; tauto).
    cbn [i_ j_ ComputeIntersection1]. cbv [add sub mul div ArithQ].
    split; [split | split; [apply Qle_refl | exact Hord]].
    + apply interpolation_ge; [exact Hc' | apply H1 | apply H2].
    + apply interpolation_le; [exact Hc' | apply H1 | apply H2].
Qed.

Section ClipSize.
Context {F : Type} `{Arith F}.

Lemma push_length (l : list (MyPoint F)) (p : MyPoint F) (l' : list (MyPoint F)) :
  push l p = Ok l' -> (length l' <= 8)%nat.
Proof.
  unfold push. destruct (Nat.ltb_spec (length l) 8); [| discriminate].
  intros E. injection E as <-. rewrite length_app. simpl. lia.
Qed.

(** A polygon never holds more than the 8 points of a [MyPoly]. *)
Lemma clip_length (inE outS inS : MyPoint F -> bool)
    (inter : MyPoint F -> MyPoint F -> MyPoint F) (l l' : list (MyPoint F)) :
  clip inE outS inS inter l = Ok l' -> (length l' <= 8)%nat.
Proof.
  intros E. unfold clip in E. inv_bind_as E st Hloop. injection E as <-.
  refine (for_each_inv (fun st => (length (fst st) <= 8)%nat) _ _ l _ _ _ Hloop);
    [| simpl; lia].
  intros [list2 S] E0 [list2' S'] Hlen Hbody. cbn [fst snd] in *.
  inv_bind_as Hbody list3 Hpush. injection Hbody as <- <-.
  destruct (inE E0).
  - inv_bind_as Hpush list4 Hfirst. now apply push_length in Hpush.
  - destruct (inS S); [now apply push_length in Hpush | injection Hpush as <-; exact Hlen].
Qed.

End ClipSize.

(** X6.  The four clipping passes of the general path of [fullSplit2D]
    against the cell [i, i+1] x [j, j+1], in exact arithmetic: when they
    return a polygon, it has at most the 8 points a [MyPoly] holds, and every
    one of its vertices lies in the closed cell. *)
Theorem clip_cell_in_cell (A B C D : MyPoint Q) (i j : Z) (poly : list (MyPoint Q)) :
  clip_cell A B C D i j = Ok poly ->
  (length poly <= 8)%nat /\ forall p, In p poly -> in_cell i j p.
Proof.
  unfold clip_cell. intros E.
  inv_bind_as E l1 E1. inv_bind_as E l2 E2. inv_bind_as E l3 E3.
  split; [exact (clip_length _ _ _ _ _ _ E) |].
  apply clip_right_of in E1.
  apply (clip_below _ _ _ _ E1) in E2.
  assert (Hx : of_int i <= of_int (i + 1))
    by (cbv [of_int ArithQ]; rewrite inject_Z_succ; lra).
  assert (Hy : of_int j <= of_int (j + 1))
    by (cbv [of_int ArithQ]; rewrite inject_Z_succ; lra).
  apply (clip_left_of _ _ _ _ _ Hx E2) in E3.
  apply (clip_above _ _ _ _ _ _ Hy E3) in E.
  rewrite Forall_forall in E. intros p Hp. destruct (E p Hp) as [[H1 H2] [H3 H4]].
  cbv [of_int ArithQ] in *. rewrite inject_Z_succ in *.
  unfold in_cell. repeat split; assumption.
Qed.

End Clipping.

(** The square [0.5, 1.5] x [0.5, 1.5] clipped to the cell [1, 2] x [1, 2]. *)
Lemma clip_cell_in_cell_witness :
  let A := {| i_ := 1 # 2; j_ := 1 # 2 |} in
  let B := {| i_ := 3 # 2; j_ := 1 # 2 |} in
  let C := {| i_ := 3 # 2; j_ := 3 # 2 |} in
  let D := {| i_ := 1 # 2; j_ := 3 # 2 |} in
  exists poly, clip_cell A B C D 1 1 = Ok poly /\
    length poly = 4%nat /\ forall p, In p poly -> in_cell 1 1 p.
Proof.
  intros A B C D.
  destruct (clip_cell A B C D 1 1) as [poly | e | u] eqn:E;
    [| vm_compute in E; discriminate ..].
  exists poly. split; [reflexivity |].
  split; [vm_compute in E; injection E as <-; reflexivity |].
  exact (proj2 (Clipping.clip_cell_in_cell A B C D 1 1 poly E)).
Defined.

(* ================================================================== *)
(** * The general path of [fullSplit2D]: the scratch array *)
(* ================================================================== *)

Section Arrays2.
Context {A : Type}.

Lemma get2_Ok (a : array2 A) (i j : Z) (d v : A) :
  get2 a i j d = Ok v <->
  in_bounds i (rows a) = true /\ in_bounds j (cols a) = true /\ v = item a i j d.
Proof.
  unfold get2, item.
  destruct (in_bounds i (rows a)), (in_bounds j (cols a)); simpl; split;
    try discriminate; try (intros (? & ? & ?); discriminate).
  - intros E. injection E as <-. repeat split.
  - intros (_ & _ & ->). reflexivity.
Qed.

Lemma set2_Ok (a : array2 A) (i j : Z) (v : A) (a' : array2 A) :
  set2 a i j v = Ok a' <->
  in_bounds i (rows a) = true /\ in_bounds j (cols a) = true /\
  a' = upd (Z.to_nat i) (upd (Z.to_nat j) v (nth (Z.to_nat i) a [])) a.
Proof.
  unfold set2.
  destruct (in_bounds i (rows a)), (in_bounds j (cols a)); simpl; split;
    try discriminate; try (intros (? & ? & ?); discriminate).
  - intros E. injection E as <-. repeat split.
  - intros (_ & _ & ->). reflexivity.
Qed.

Lemma in_bounds_iff (k n : Z) : in_bounds k n = true <-> (0 <= k < n)%Z.
Proof. unfold in_bounds. rewrite andb_true_iff, Z.leb_le, Z.ltb_lt. tauto. Qed.

Lemma cols_upd (a : array2 A) (n : nat) (r : list A) :
  length r = length (nth n a []) -> (n < length a)%nat -> cols (upd n r a) = cols a.
Proof.
  intros Hr Hn. destruct a as [| r0 a]; [simpl in Hn; lia |].
  destruct n as [| n]; simpl in *; [now rewrite Hr | reflexivity].
Qed.

(** One write keeps the shape of the array and changes one item. *)
Lemma set2_spec (a : array2 A) (i j : Z) (v : A) (a' : array2 A) (d : A) :
  rectangular a -> set2 a i j v = Ok a' ->
  rows a' = rows a /\ cols a' = cols a /\ rectangular a' /\
  forall i' j', in_bounds i' (rows a) = true -> in_bounds j' (cols a) = true ->
    item a' i' j' d = if ((i' =? i) && (j' =? j))%Z then v else item a i' j' d.
Proof.
  intros Hrect E. apply set2_Ok in E. destruct E as (Hi & Hj & ->).
  apply in_bounds_iff in Hi, Hj. unfold rows in *.
  assert (Hrow : Z.of_nat (length (nth (Z.to_nat i) a [])) = cols a)
    by (apply Hrect, nth_In; lia).
  assert (Hcols : cols (upd (Z.to_nat i) (upd (Z.to_nat j) v (nth (Z.to_nat i) a [])) a)
                  = cols a)
    by (apply cols_upd; [apply upd_length | lia]).
  split; [now rewrite upd_length |]. split; [exact Hcols |]. split.
  - intros r Hr. rewrite Hcols.
    apply In_nth with (d := []) in Hr. destruct Hr as (n & Hn & <-).
    rewrite upd_length in Hn.
    destruct (Nat.eq_dec (Z.to_nat i) n) as [<- | Hne].
    + rewrite nth_upd_same by lia. now rewrite upd_length.
    + rewrite nth_upd_other by exact Hne. apply Hrect, nth_In. exact Hn.
  - intros i' j' Hi' Hj'. apply in_bounds_iff in Hi', Hj'. unfold item.
    destruct (Z.eqb_spec i' i) as [-> | Hne]; cbn [andb].
    + rewrite nth_upd_same by lia.
      destruct (Z.eqb_spec j' j) as [-> | Hne'].
      * apply nth_upd_same. lia.
      * apply nth_upd_other. lia.
    + rewrite nth_upd_other by lia. reflexivity.
Qed.

(** A loop of writes in row [i], at the columns of [l]. *)
Lemma set_row (f : Z -> A) (i : Z) (d : A) (l : list Z) (a a' : array2 A) :
  rectangular a ->
  for_each (fun a j => set2 a i j (f j)) l a = Ok a' ->
  rows a' = rows a /\ cols a' = cols a /\ rectangular a' /\
  (forall j, In j l -> in_bounds i (rows a) = true /\ in_bounds j (cols a) = true) /\
  forall i' j', in_bounds i' (rows a) = true -> in_bounds j' (cols a) = true ->
    item a' i' j' d = if ((i' =? i) && existsb (Z.eqb j') l)%Z then f j' else item a i' j' d.
Proof.
  revert a. induction l as [| j l IH]; intros a Hrect E.
  - simpl in E. injection E as <-.
    split; [reflexivity |]. split; [reflexivity |]. split; [exact Hrect |]. split.
    + intros j [].
    + intros i' j' _ _. cbn [existsb]. now rewrite andb_false_r.
  - cbn [for_each] in E. inv_bind_as E a1 E1.
    pose proof (proj1 (set2_Ok _ _ _ _ _) E1) as (Hi & Hj & _).
    destruct (set2_spec a i j (f j) a1 d Hrect E1) as (R1 & C1 & Hrect1 & V1).
    destruct (IH a1 Hrect1 E) as (R2 & C2 & Hrect2 & B2 & V2).
    rewrite R1 in R2, B2, V2. rewrite C1 in C2, B2, V2.
    split; [exact R2 |]. split; [exact C2 |]. split; [exact Hrect2 |]. split.
    + intros j0 [<- | Hj0]; [split; assumption | now apply B2].
    + intros i' j' Hi' Hj'. rewrite (V2 i' j' Hi' Hj'), (V1 i' j' Hi' Hj').
      cbn [existsb].
      destruct (Z.eqb_spec i' i) as [-> | Hne]; cbn [andb]; [| reflexivity].
      destruct (existsb (Z.eqb j') l); [now rewrite orb_true_r |].
      rewrite orb_false_r. destruct (Z.eqb_spec j' j) as [-> | Hne]; reflexivity.
Qed.

(** The double loop of writes, over the rows of [l0] and the columns of
    [l1]. *)
Lemma set_block (f : Z -> Z -> A) (d : A) (l0 l1 : list Z) (a a' : array2 A) :
  rectangular a ->
  for_each (fun a i => for_each (fun a j => set2 a i j (f i j)) l1 a) l0 a = Ok a' ->
  rows a' = rows a /\ cols a' = cols a /\ rectangular a' /\
  (forall i j, In i l0 -> In j l1 ->
     in_bounds i (rows a) = true /\ in_bounds j (cols a) = true) /\
  forall i' j', in_bounds i' (rows a) = true -> in_bounds j' (cols a) = true ->
    item a' i' j' d
    = if (existsb (Z.eqb i') l0 && existsb (Z.eqb j') l1)%Z then f i' j'
      else item a i' j' d.
Proof.
  revert a. induction l0 as [| i l0 IH]; intros a Hrect E.
  - simpl in E. injection E as <-.
    split; [reflexivity |]. split; [reflexivity |]. split; [exact Hrect |]. split.
    + intros i j [].
    + intros i' j' _ _. reflexivity.
  - cbn [for_each] in E. inv_bind_as E a1 E1.
    destruct (set_row (f i) i d l1 a a1 Hrect E1) as (R1 & C1 & Hrect1 & B1 & V1).
    destruct (IH a1 Hrect1 E) as (R2 & C2 & Hrect2 & B2 & V2).
    rewrite R1 in R2, B2, V2. rewrite C1 in C2, B2, V2.
    split; [exact R2 |]. split; [exact C2 |]. split; [exact Hrect2 |]. split.
    + intros i0 j0 [<- | Hi0] Hj0; [now apply B1 | now apply B2].
    + intros i' j' Hi' Hj'. rewrite (V2 i' j' Hi' Hj'), (V1 i' j' Hi' Hj').
      cbn [existsb].
      destruct (Z.eqb_spec i' i) as [-> | Hne]; cbn [orb andb].
      * destruct (existsb (Z.eqb j') l1); [| now rewrite andb_false_r].
        rewrite andb_true_r. now destruct (existsb (Z.eqb i) l0).
      * reflexivity.
Qed.

End Arrays2.

Lemma existsb_zrange (k lo hi : Z) :
  existsb (Z.eqb k) (zrange lo hi) = ((lo <=? k) && (k <? hi))%Z.
Proof.
  destruct (existsb (Z.eqb k) (zrange lo hi)) eqn:E.
  - apply existsb_exists in E. destruct E as (x & Hx & Hk).
    apply Z.eqb_eq in Hk. subst x. apply zrange_In in Hx.
    symmetry. apply andb_true_iff. rewrite Z.leb_le, Z.ltb_lt. exact Hx.
  - destruct ((lo <=? k) && (k <? hi))%Z eqn:E'; [| reflexivity].
    apply andb_true_iff in E'. rewrite Z.leb_le, Z.ltb_lt in E'.
    assert (Hin : existsb (Z.eqb k) (zrange lo hi) = true).
    { apply existsb_exists. exists k. split; [now apply zrange_In | apply Z.eqb_refl]. }
    congruence.
Qed.

Section Marks.
Context {F : Type} `{Arith F}.

Lemma point_and_line_sign (x0 y0 x1 y1 x y : F) :
  point_and_line x0 y0 x1 y1 x y = (-1)%Z \/ point_and_line x0 y0 x1 y1 x y = 0%Z \/
  point_and_line x0 y0 x1 y1 x y = 1%Z.
Proof.
  unfold point_and_line. cbv zeta.
  destruct (lt zero _), (lt _ zero); simpl; tauto.
Qed.

(** The mark of a lattice point is 1 when it lies strictly on one side of
    the four edges, the same for all, and 0 otherwise. *)
Lemma mark_value (s1 s2 s3 s4 : Z) :
  (s1 = -1 \/ s1 = 0 \/ s1 = 1)%Z -> (s2 = -1 \/ s2 = 0 \/ s2 = 1)%Z ->
  (s3 = -1 \/ s3 = 0 \/ s3 = 1)%Z -> (s4 = -1 \/ s4 = 0 \/ s4 = 1)%Z ->
  Z.quot (Z.abs (s1 + s2 + s3 + s4)) 4
  = if ((s1 =? 1) && (s2 =? 1) && (s3 =? 1) && (s4 =? 1)
        || (s1 =? -1) && (s2 =? -1) && (s3 =? -1) && (s4 =? -1))%Z
    then 1%Z else 0%Z.
Proof.
  intros [-> | [-> | ->]] [-> | [-> | ->]] [-> | [-> | ->]] [-> | [-> | ->]]; reflexivity.
Qed.

(** X7.  The first double loop of the general path of [fullSplit2D], on a
    scratch array whose rows have one length: when it returns, the array has
    kept its shape; every entry (i, j) with [1 <= i < bins0] and
    [1 <= j < bins1] holds 1 when the lattice point (i, j) lies strictly on
    the same side of the four edges AB, BC, CD and DA, and 0 otherwise; every
    other entry holds what it held before, whatever an earlier pixel left
    there; and a footprint of more than one row and one column is marked
    only in an array of at least [bins0] rows and [bins1] columns. *)
Theorem mark_inside_spec (A0 A1 B0 B1 C0 C1 D0 D1 : F) (bins0 bins1 : Z)
    (is_inside marked : array2 Z) :
  rectangular is_inside ->
  mark_inside A0 A1 B0 B1 C0 C1 D0 D1 bins0 bins1 is_inside = Ok marked ->
  rows marked = rows is_inside /\ cols marked = cols is_inside /\
  ((1 < bins0)%Z -> (1 < bins1)%Z ->
   (bins0 <= rows is_inside)%Z /\ (bins1 <= cols is_inside)%Z) /\
  forall i j, (0 <= i < rows is_inside)%Z -> (0 <= j < cols is_inside)%Z ->
    get2 marked i j 0%Z
    = Ok (if ((1 <=? i) && (i <? bins0) && ((1 <=? j) && (j <? bins1)))%Z
          then
            let a := point_and_line A0 A1 B0 B1 (of_int i) (of_int j) in
            let b := point_and_line B0 B1 C0 C1 (of_int i) (of_int j) in
            let c := point_and_line C0 C1 D0 D1 (of_int i) (of_int j) in
            let d := point_and_line D0 D1 A0 A1 (of_int i) (of_int j) in
            if ((a =? 1) && (b =? 1) && (c =? 1) && (d =? 1)
                || (a =? -1) && (b =? -1) && (c =? -1) && (d =? -1))%Z
            then 1%Z else 0%Z
          else item is_inside i j 0%Z).
Proof.
  intros Hrect E. unfold mark_inside in E.
  destruct (set_block
              (fun i j => Z.quot (Z.abs (sides A0 A1 B0 B1 C0 C1 D0 D1 i j)) 4) 0%Z
              (zrange 1 bins0) (zrange 1 bins1) is_inside marked Hrect E)
    as (R & C & _ & B & V).
  split; [exact R |]. split; [exact C |]. split.
  - intros H0 H1.
    destruct (B (bins0 - 1) (bins1 - 1))%Z as [Hi Hj];
      [apply zrange_In; lia | apply zrange_In; lia |].
    apply in_bounds_iff in Hi, Hj. lia.
  - intros i j Hi Hj.
    assert (Hi' : in_bounds i (rows is_inside) = true) by now apply in_bounds_iff.
    assert (Hj' : in_bounds j (cols is_inside) = true) by now apply in_bounds_iff.
    unfold get2. rewrite R, C, Hi', Hj'. cbn [andb]. f_equal.
    fold (item marked i j 0%Z). rewrite (V i j Hi' Hj'), !existsb_zrange.
    destruct ((1 <=? i) && (i <? bins0) && ((1 <=? j) && (j <? bins1)))%Z;
      [| reflexivity].
    cbv zeta. unfold sides. apply mark_value; apply point_and_line_sign.
Qed.

End Marks.

Lemma rectangular_full2 {A : Type} (n0 n1 : Z) (v : A) : rectangular (full2 n0 n1 v).
Proof.
  unfold rectangular, full2, cols. intros r Hr.
  destruct (Z.to_nat n0); [destruct Hr |].
  apply repeat_spec in Hr. subst r. reflexivity.
Qed.

Section Scratch.
Context {F : Type} `{Arith F}.

(** X8.  The general path of [fullSplit2D] on a footprint of [bins0] rows
    and [bins1] columns: when it returns, the scratch array has more than
    [bins0] rows and more than [bins1] columns (the second loop reads
    [is_inside[i+1, j+1]] up to [i = bins0 - 1], [j = bins1 - 1]), the array
    it leaves is the one the first loop computes, and every accumulation
    addresses a bin of the footprint. *)
Theorem general_path_scratch (A0 A1 B0 B1 C0 C1 D0 D1 data : F)
    (bin0_min bin1_min bins0 bins1 : Z) (is_inside : array2 Z)
    (ds : list (deposit2 F)) (marked : array2 Z) :
  rectangular is_inside -> (0 < bins0)%Z -> (0 < bins1)%Z ->
  split2D_general A0 A1 B0 B1 C0 C1 D0 D1 data bin0_min bin1_min bins0 bins1 is_inside
  = Ok (ds, marked) ->
  (bins0 < rows is_inside)%Z /\ (bins1 < cols is_inside)%Z /\
  mark_inside A0 A1 B0 B1 C0 C1 D0 D1 bins0 bins1 is_inside = Ok marked /\
  (forall d, In d ds ->
     (bin0_min <= dbin0 d < bin0_min + bins0)%Z /\
     (bin1_min <= dbin1 d < bin1_min + bins1)%Z).
Proof.
  intros Hrect H0 H1 E. unfold split2D_general in E. cbv zeta in E.
  inv_bind_as E ins Hmark. inv_bind_as E ds' Hloop. injection E as <- <-.
  pose proof Hmark as Hset. unfold mark_inside in Hset.
  destruct (set_block
              (fun i j => Z.quot (Z.abs (sides A0 A1 B0 B1 C0 C1 D0 D1 i j)) 4) 0%Z
              (zrange 1 bins0) (zrange 1 bins1) is_inside ins Hrect Hset)
    as (R & C & _).
  split; [| split; [| split; [exact Hmark |]]].
  - destruct (for_each_Ok_each _ _ _ _ Hloop (bins0 - 1)%Z) as (s1 & s2 & Hrow);
      [apply zrange_In; lia |].
    destruct (for_each_Ok_each _ _ _ _ Hrow (bins1 - 1)%Z) as (s3 & s4 & Hcell);
      [apply zrange_In; lia |].
    inv_bind_as Hcell t00 E00. inv_bind_as Hcell t01 E01. inv_bind_as Hcell t10 E10.
    apply get2_Ok in E10. destruct E10 as (Hi & _).
    apply in_bounds_iff in Hi. rewrite R in Hi. lia.
  - destruct (for_each_Ok_each _ _ _ _ Hloop (bins0 - 1)%Z) as (s1 & s2 & Hrow);
      [apply zrange_In; lia |].
    destruct (for_each_Ok_each _ _ _ _ Hrow (bins1 - 1)%Z) as (s3 & s4 & Hcell);
      [apply zrange_In; lia |].
    inv_bind_as Hcell t00 E00. inv_bind_as Hcell t01 E01.
    apply get2_Ok in E01. destruct E01 as (_ & Hj & _).
    apply in_bounds_iff in Hj. rewrite C in Hj. lia.
  - revert Hloop.
    apply (for_each_inv_In
             (fun ds => forall d, In d ds ->
                (bin0_min <= dbin0 d < bin0_min + bins0)%Z /\
                (bin1_min <= dbin1 d < bin1_min + bins1)%Z));
      [| intros d []].
    intros s i s' Hi Hs. apply zrange_In in Hi.
    apply (for_each_inv_In
             (fun ds => forall d, In d ds ->
                (bin0_min <= dbin0 d < bin0_min + bins0)%Z /\
                (bin1_min <= dbin1 d < bin1_min + bins1)%Z));
      [| exact Hs].
    intros s0 j s0' Hj Hs0 Hcell. apply zrange_In in Hj.
    inv_bind_as Hcell t00 E00. inv_bind_as Hcell t01 E01.
    inv_bind_as Hcell t10 E10. inv_bind_as Hcell t11 E11.
    destruct (_ =? 4)%Z.
    + injection Hcell as <-. intros d Hd. apply in_app_or in Hd.
      destruct Hd as [Hd | [<- | []]]; [now apply Hs0 |].
      cbn [dbin0 dbin1 mk_deposit2]. lia.
    + destruct (_ || _).
      * inv_bind_as Hcell poly Hclip. injection Hcell as <-.
        intros d Hd. apply in_app_or in Hd.
        destruct Hd as [Hd | [<- | []]]; [now apply Hs0 |].
        cbn [dbin0 dbin1 mk_deposit2]. lia.
      * injection Hcell as <-. exact Hs0.
Qed.

End Scratch.

(** The square [0.5, 2.5] x [0.5, 2.5] on a scratch array of 4 x 4 zeros: of
    the lattice points (1, 1), (1, 2), (2, 1) and (2, 2) that the loop
    visits, all lie inside. *)
Lemma mark_inside_spec_witness :
  exists marked,
    mark_inside (1 # 2) (1 # 2) (5 # 2) (1 # 2) (5 # 2) (5 # 2) (1 # 2) (5 # 2) 3 3
                (full2 4 4 0%Z) = Ok marked /\
    get2 marked 1 2 0%Z = Ok 1%Z /\ get2 marked 0 2 0%Z = Ok 0%Z /\
    get2 marked 3 3 0%Z = Ok 0%Z.
Proof.
  destruct (mark_inside (1 # 2) (1 # 2) (5 # 2) (1 # 2) (5 # 2) (5 # 2) (1 # 2) (5 # 2) 3 3
              (full2 4 4 0%Z)) as [marked | e | u] eqn:E;
    [| vm_compute in E; discriminate ..].
  exists marked. split; [reflexivity |].
  destruct (mark_inside_spec _ _ _ _ _ _ _ _ _ _ _ _ (rectangular_full2 4 4 0%Z) E)
    as (_ & _ & _ & Hget).
  split; [| split].
  - rewrite (Hget 1 2)%Z by (vm_compute; intuition discriminate). reflexivity.
  - rewrite (Hget 0 2)%Z by (vm_compute; intuition discriminate). reflexivity.
  - rewrite (Hget 3 3)%Z by (vm_compute; intuition discriminate). reflexivity.
Defined.

(** The same square over a footprint of 3 x 3 bins from bin (4, 7). *)
Lemma general_path_scratch_witness :
  exists ds marked,
    split2D_general (1 # 2) (1 # 2) (5 # 2) (1 # 2) (5 # 2) (5 # 2) (1 # 2) (5 # 2) 10
                    4 7 3 3 (full2 4 4 0%Z) = Ok (ds, marked) /\
    length ds = 9%nat /\
    forall d, In d ds -> (4 <= dbin0 d < 7)%Z /\ (7 <= dbin1 d < 10)%Z.
Proof.
  destruct (split2D_general (1 # 2) (1 # 2) (5 # 2) (1 # 2) (5 # 2) (5 # 2) (1 # 2) (5 # 2)
              10 4 7 3 3 (full2 4 4 0%Z)) as [[ds marked] | e | u] eqn:E;
    [| vm_compute in E; discriminate ..].
  exists ds, marked. split; [reflexivity |].
  split; [vm_compute in E; injection E as <- _; reflexivity |].
  refine (proj2 (proj2 (proj2 (general_path_scratch _ _ _ _ _ _ _ _ _ _ _ _ _ _ _ _
                                 (rectangular_full2 4 4 0%Z) _ _ E)))); reflexivity.
Defined.

(* ================================================================== *)
(** * The bin of a point, the columns of a pixel, the area formulas *)
(* ================================================================== *)

Module Points.

Import Unity.

Lemma Qfloor_unique (x : Q) (k : Z) :
  inject_Z k <= x -> x < inject_Z k + 1 -> Qfloor x = k.
Proof.
  intros Hlo Hhi.
  assert (H1 : (k <= Qfloor x)%Z).
  { rewrite <- (Qfloor_Z k). apply Qfloor_resp_le. exact Hlo. }
  assert (H2 : (Qfloor x < k + 1)%Z).
  { apply inject_Z_lt. rewrite inject_Z_succ.
    apply Qle_lt_trans with x; [apply Qfloor_le | exact Hhi]. }
  lia.
Qed.

Lemma to_int_iff (x : Q) (k : Z) :
  to_int x = Ok k <-> (inject_Z k <= x /\ x < inject_Z k + 1) /\ fits_int k = true.
Proof.
  split.
  - intros E. split; [now apply to_int_floor |].
    unfold to_int in E. cbn [floor_int ArithQ] in E. unfold Qfloor_int in E.
    destruct (fits_int (Qfloor x)) eqn:Hf; [| discriminate].
    injection E as <-. exact Hf.
  - intros [[Hlo Hhi] Hf]. unfold to_int. cbn [floor_int ArithQ]. unfold Qfloor_int.
    rewrite (Qfloor_unique x k Hlo Hhi), Hf. reflexivity.
Qed.

Lemma scaled_interval (x lo d a : Q) :
  0 < d -> (a <= (x - lo) / d <-> lo + a * d <= x) /\ ((x - lo) / d < a <-> x < lo + a * d).
Proof.
  intros Hd.
  assert (E : (x - lo) / d * d == x - lo) by (field; lra).
  split; split; intros Hx.
  - apply Qmult_le_compat_r with (z := d) in Hx; [| lra]. rewrite E in Hx. lra.
  - apply Qle_shift_div_l; [exact Hd | lra].
  - apply Qmult_lt_compat_r with (z := d) in Hx; [| exact Hd]. rewrite E in Hx. lra.
  - apply Qlt_shift_div_r; [exact Hd | lra].
Qed.

(** X9.  [getBinNr] followed by [<int> floor], in exact arithmetic and for
    a positive bin width: a point is given bin [k] exactly when it lies in
    [pos0_min + k * dpos, pos0_min + (k + 1) * dpos) and [k] fits a C int.
    The bins are half-open intervals of width [dpos], counted from
    [pos0_min]. *)
Theorem bin_of_point (x pos0_min dpos : Q) (k : Z) :
  0 < dpos ->
  (to_int (getBinNr x pos0_min dpos) = Ok k <->
   (pos0_min + inject_Z k * dpos <= x /\ x < pos0_min + (inject_Z k + 1) * dpos) /\
   fits_int k = true).
Proof.
  intros Hd. rewrite to_int_iff. unfold getBinNr. cbv [sub div ArithQ].
  destruct (scaled_interval x pos0_min dpos (inject_Z k) Hd) as [H1 _].
  destruct (scaled_interval x pos0_min dpos (inject_Z k + 1) Hd) as [_ H2].
  rewrite H1, H2. reflexivity.
Qed.

(** X10.  The line integrals of the split path over a column that the
    pixel does not reach: when the four translated corners lie left of
    column [u], or right of it, the partial area of the column is 0, in
    exact arithmetic. *)
Theorem untouched_column (A0 A1 B0 B1 C0 C1 D0 D1 : Q) (u : Z) :
  (A0 <= inject_Z u /\ B0 <= inject_Z u /\ C0 <= inject_Z u /\ D0 <= inject_Z u) \/
  (inject_Z u + 1 <= A0 /\ inject_Z u + 1 <= B0 /\
   inject_Z u + 1 <= C0 /\ inject_Z u + 1 <= D0) ->
  partial_area A0 B0 C0 D0
    (line_through A0 A1 B0 B1) (line_through B0 B1 C0 C1)
    (line_through C0 C1 D0 D1) (line_through D0 D1 A0 A1) u == 0.
Proof.
  intros Hout. rewrite partial_area_edges.
  assert (Hflat : lim A0 u == lim B0 u /\ lim B0 u == lim C0 u /\
                  lim C0 u == lim D0 u /\ lim D0 u == lim A0 u).
  { destruct Hout as [(HA & HB & HC & HD) | (HA & HB & HC & HD)].
    - rewrite (lim_low A0 u HA), (lim_low B0 u HB), (lim_low C0 u HC), (lim_low D0 u HD).
      repeat split; reflexivity.
    - rewrite (lim_high A0 u HA), (lim_high B0 u HB), (lim_high C0 u HC),
        (lim_high D0 u HD).
      repeat split; reflexivity. }
  destruct Hflat as (E1 & E2 & E3 & E4).
  rewrite (edge_flat _ _ _ _ _ E1), (edge_flat _ _ _ _ _ E2),
    (edge_flat _ _ _ _ _ E3), (edge_flat _ _ _ _ _ E4).
  ring.
Qed.

(** X11.  The two area formulas, in exact arithmetic: [area_n] of the four
    points A, B, C, D is [area4] of the same corners; of three points it is
    half the absolute value of their cross product; it is never negative,
    and it depends neither on the vertex the polygon starts from nor on its
    orientation. *)
Theorem area_n_quadrilateral (A B C D : MyPoint Q) :
  area_n [A; B; C; D]
  == area4 (i_ A) (j_ A) (i_ B) (j_ B) (i_ C) (j_ C) (i_ D) (j_ D) /\
  area_n [A; B; C]
  == (1 # 2) * Qabs (turn (i_ A) (j_ A) (i_ B) (j_ B) (i_ C) (j_ C)) /\
  0 <= area_n [A; B; C; D] /\
  area_n [B; C; D; A] == area_n [A; B; C; D] /\
  area_n [D; C; B; A] == area_n [A; B; C; D].
Proof.
  assert (Hopp : forall x y, x == - y -> (1 # 2) * Qabs x == (1 # 2) * Qabs y).
  { intros x y E. rewrite E, Qabs_opp. reflexivity. }
  assert (Heq : forall x y, x == y -> (1 # 2) * Qabs x == (1 # 2) * Qabs y).
  { intros x y E. rewrite E. reflexivity. }
  cbv [area_n length Nat.leb andb combine tl hd app fold_left fst snd area4 turn
       add sub mul fabs half ArithQ].
  repeat split.
  - apply Heq. ring.
  - apply Heq. ring.
  - apply Qmult_le_0_compat; [discriminate | apply Qabs_nonneg].
  - apply Heq. ring.
  - apply Hopp. ring.
Qed.

End Points.

(** With bins of width 1/2 from 1, the point 7/2 falls in bin 5. *)
Lemma bin_of_point_witness : to_int (getBinNr (7 # 2) 1 (1 # 2)) = Ok 5%Z.
Proof.
  apply (Points.bin_of_point (7 # 2) 1 (1 # 2) 5); [reflexivity |].
  split; [split; vm_compute; [discriminate | reflexivity] | reflexivity].
Defined.

(** The pixel [0.5, 1.5] x [0, 1] leaves nothing in column 3. *)
Lemma untouched_column_witness :
  partial_area (1 # 2) (3 # 2) (3 # 2) (1 # 2)
    (line_through (1 # 2) 0 (3 # 2) 0) (line_through (3 # 2) 0 (3 # 2) 1)
    (line_through (3 # 2) 1 (1 # 2) 1) (line_through (1 # 2) 1 (1 # 2) 0) 3 == 0.
Proof.
  apply (Points.untouched_column (1 # 2) 0 (3 # 2) 0 (3 # 2) 1 (1 # 2) 1 3).
  left. repeat split; vm_compute; discriminate.
Defined.

(* ================================================================== *)
(** * Masked and skipped pixels *)
(* ================================================================== *)

(** Loops with bodies that agree on the items agree. *)
Lemma for_each_ext {I S : Type} (body body' : S -> I -> outcome S) (l : list I) :
  (forall s i, In i l -> body s i = body' s i) ->
  forall s, for_each body l s = for_each body' l s.
Proof.
  induction l as [| i l IH]; intros Hext s; [reflexivity |].
  cbn [for_each]. rewrite (Hext s i (or_introl Logic.eq_refl)).
  destruct (body' s i) as [s1 | e | u]; [| reflexivity ..].
  cbn [bind]. apply IH. intros; apply Hext; now right.
Qed.

Lemma bind_ext {A B : Type} (m : outcome A) (f g : A -> outcome B) :
  (forall a, f a = g a) -> bind m f = bind m g.
Proof. intros E. destruct m; cbn [bind]; [apply E | reflexivity ..]. Qed.

(** A loop whose body leaves the state as it is leaves it as it is. *)
Lemma for_each_idle {I S : Type} (body : S -> I -> outcome S) (l : list I) (s : S) :
  (forall i, In i l -> body s i = Ok s) -> for_each body l s = Ok s.
Proof.
  induction l as [| i l IH]; intros Hbody; [reflexivity |].
  cbn [for_each]. rewrite (Hbody i (or_introl Logic.eq_refl)). cbn [bind].
  apply IH. intros; apply Hbody; now right.
Qed.

Section Masked.
Context {F : Type} `{Arith F} {M : Memory}.

(** A range argument of two entries or more is used whatever the data. *)
Lemma axis_range_given (l : list F) (sel : corner F -> F) (pos pos' : list (pixel F)) :
  (1 < length l)%nat -> axis_range (Some l) sel pos = axis_range (Some l) sel pos'.
Proof.
  intros Hl. unfold axis_range. apply Nat.ltb_lt in Hl. rewrite Hl. reflexivity.
Qed.

Lemma ranges_given (eps : F) (o : options F) (r0 r1 : list F) (pos pos' : list (pixel F)) :
  pos0Range o = Some r0 -> pos1Range o = Some r1 ->
  (1 < length r0)%nat -> (1 < length r1)%nat ->
  ranges eps pos o = ranges eps pos' o.
Proof.
  intros E0 E1 H0 H1. unfold ranges. rewrite E0, E1.
  rewrite (axis_range_given r0 _ pos pos' H0), (axis_range_given r1 _ pos pos' H1).
  reflexivity.
Qed.

Lemma skip1D_masked (o : options F) (cdata : list F) (idx : nat) :
  masked o idx = true -> skip1D o cdata idx = true.
Proof. unfold skip1D. intros ->. reflexivity. Qed.

Lemma skip2D_masked (o : options F) (cdata : list F) (idx : nat) :
  masked o idx = true -> skip2D o cdata idx = true.
Proof. unfold skip2D. intros ->. now destruct (dummy_match _ _). Qed.

Lemma skip1D_other (o : options F) (cdata : list F) (idx k : nat) (w : F) :
  idx <> k -> skip1D o (upd idx w cdata) k = skip1D o cdata k.
Proof. intros Hk. unfold skip1D. now rewrite nth_upd_other. Qed.

Lemma skip2D_other (o : options F) (cdata : list F) (idx k : nat) (w : F) :
  idx <> k -> skip2D o (upd idx w cdata) k = skip2D o cdata k.
Proof. intros Hk. unfold skip2D. now rewrite nth_upd_other. Qed.

(** The loop body does not depend on the position and the intensity of a
    masked pixel. *)
Lemma pixel1D_masked (o : options F) (cdata : list F) (cpos : list (pixel F))
    (idx : nat) (p' : pixel F) (w' : F) bins lo d chk lo1 hi1 (k : nat) :
  masked o idx = true ->
  pixel1D o (upd idx w' cdata) (upd idx p' cpos) bins lo d chk lo1 hi1 k
  = pixel1D o cdata cpos bins lo d chk lo1 hi1 k.
Proof.
  intros Hm. unfold pixel1D. destruct (Nat.eq_dec idx k) as [<- | Hk].
  - now rewrite !skip1D_masked.
  - rewrite (skip1D_other o cdata idx k w' Hk), !nth_upd_other by exact Hk.
    reflexivity.
Qed.

Lemma pixel2D_masked (o : options F) (cdata : list F) (cpos : list (pixel F))
    (idx : nat) (p' : pixel F) (w' : F) b0 b1 lo0 d0 lo1 d1 ins (k : nat) :
  masked o idx = true ->
  pixel2D o (upd idx w' cdata) (upd idx p' cpos) b0 b1 lo0 d0 lo1 d1 ins k
  = pixel2D o cdata cpos b0 b1 lo0 d0 lo1 d1 ins k.
Proof.
  intros Hm. unfold pixel2D. destruct (Nat.eq_dec idx k) as [<- | Hk].
  - now rewrite !skip2D_masked.
  - rewrite (skip2D_other o cdata idx k w' Hk), !nth_upd_other by exact Hk.
    reflexivity.
Qed.

(** X12.  A masked pixel does not contribute.  With both ranges given (two
    entries or more each, so that no bound is read from [pos]), the corners
    and the intensity of a pixel whose mask entry is nonzero have no
    influence on a run of [fullSplit1D] or of [fullSplit2D]: with any other
    corners and any other intensity at that index the run ends the same way,
    with the same arrays, the same exception or the same undefined
    behaviour. *)
Theorem masked_pixel_ignored (pos : list (pixel F)) (weights : list F) (o : options F)
    (r0 r1 : list F) (idx : nat) (p' : pixel F) (w' : F) :
  pos0Range o = Some r0 -> pos1Range o = Some r1 ->
  (1 < length r0)%nat -> (1 < length r1)%nat ->
  masked o idx = true ->
  (forall bins,
     fullSplit1D (upd idx p' pos) (upd idx w' weights) bins o
     = fullSplit1D pos weights bins o) /\
  (forall bins,
     fullSplit2D (upd idx p' pos) (upd idx w' weights) bins o
     = fullSplit2D pos weights bins o).
Proof.
  intros E0 E1 H0 H1 Hm. split; intros bins.
  - unfold fullSplit1D. rewrite !upd_length.
    rewrite (ranges_given eps32 o r0 r1 (upd idx p' pos) pos E0 E1 H0 H1).
    destruct ((bins <? 0) || (2 ^ 64 <=? bins))%Z; [reflexivity |].
    do 5 (apply bind_ext; intros ?). apply bind_ext; intros r.
    destruct (dummy_setup o) as [[cd d] dd].
    do 5 (apply bind_ext; intros ?).
    rewrite (for_each_ext _
               (fun acc k =>
                  bind (pixel1D o weights pos bins (pos0_min r)
                          (bin_width (pos0_min r) (pos0_max r) bins) false
                          (pos1_min r) (pos1_maxin r) k)
                       (fun ds => for_each accumulate ds acc))).
    + reflexivity.
    + intros s k _. rewrite (pixel1D_masked o weights pos idx p' w' _ _ _ _ _ _ k Hm).
      reflexivity.
  - unfold fullSplit2D. rewrite !upd_length.
    rewrite (ranges_given eps64 o r0 r1 (upd idx p' pos) pos E0 E1 H0 H1).
    apply bind_ext; intros ?. apply bind_ext; intros [b0 b1].
    do 5 (apply bind_ext; intros ?). apply bind_ext; intros r.
    apply bind_ext; intros ?.
    destruct (dummy_setup o) as [[cd d] dd].
    do 5 (apply bind_ext; intros ?).
    rewrite (for_each_ext _
               (fun (st : array2 F * array2 F * array2 Z) k =>
                  let '(outCount, outData, is_inside) := st in
                  bind (pixel2D o weights pos (at_least_one b0) (at_least_one b1)
                          (pos0_min r)
                          (bin_width (pos0_min r) (pos0_max r) (at_least_one b0))
                          (pos1_min r)
                          (bin_width (pos1_min r) (pos1_max r) (at_least_one b1))
                          is_inside k)
                       (fun '(ds, is_inside) =>
                          bind (for_each accumulate2 ds (outCount, outData))
                               (fun '(outCount, outData) =>
                                  Ok (outCount, outData, is_inside))))).
    + reflexivity.
    + intros [[oc od] ins] k _.
      rewrite (pixel2D_masked o weights pos idx p' w' _ _ _ _ _ _ ins k Hm).
      reflexivity.
Qed.

End Masked.

Section Skipped.

Context {F : Type} `{Arith F} {M : Memory}.

Lemma assert_size_Ok {A : Type} (a : option (list A)) (n : nat) :
  no_raise (assert_size a n) -> assert_size a n = Ok tt.
Proof.
  unfold assert_size, assert. destruct a as [l |]; [| reflexivity].
  destruct (length l =? n)%nat; [reflexivity |].
  intros Hno. exfalso. exact (Hno _ Logic.eq_refl).
Qed.

(** The final loop on accumulators that nothing was added to. *)
Lemma merge_blank (bins : Z) (cdummy : F) :
  (zero >? epsilon)%A = false ->
  merge bins (full bins zero) (full bins zero) cdummy (full bins zero) = full bins cdummy.
Proof.
  intros Heps. apply (nth_ext _ _ zero zero).
  - rewrite merge_length, !full_length; [reflexivity | rewrite full_length; lia].
  - intros n Hn. rewrite merge_length, full_length in Hn by (rewrite full_length; lia).
    rewrite merge_nth; [| rewrite full_length; lia | exact Hn].
    unfold merged, full. rewrite nth_repeat, Heps.
    symmetry. apply nth_repeat_lt. exact Hn.
Qed.

Lemma merge2_length (b0 b1 : Z) (outData outCount : array2 F) (cdummy : F)
    (m : array2 F) :
  length (merge2 b0 b1 outData outCount cdummy m) = length m.
Proof.
  unfold merge2. generalize (seq 0 (Z.to_nat b0)) as l. intros l. revert m.
  induction l as [| i l IH]; intros m; [reflexivity |].
  cbn [fold_left]. rewrite IH. apply upd_length.
Qed.

Lemma merge2_blank (b0 b1 : Z) (cdummy : F) :
  (zero >? epsilon)%A = false ->
  merge2 b0 b1 (full2 b0 b1 zero) (full2 b0 b1 zero) cdummy (full2 b0 b1 zero)
  = full2 b0 b1 cdummy.
Proof.
  intros Heps. apply (nth_ext _ _ [] []).
  - rewrite merge2_length, !full2_length. reflexivity.
  - intros i Hi. rewrite merge2_length, full2_length in Hi.
    rewrite merge2_nth; [| rewrite full2_length; lia | exact Hi].
    rewrite !full2_row by exact Hi.
    pose proof (merge_blank b1 cdummy Heps) as Hrow. unfold full in Hrow.
    exact Hrow.
Qed.

(** X13.  A run in which every pixel is skipped, masked or matched by the
    dummy, among them the run on no pixel at all: with well-formed arguments
    and arrays that can be allocated, [fullSplit1D] and [fullSplit2D] return,
    [outData] and [outCount] are zero everywhere and every bin of [outMerge]
    holds the dummy value, 0 when none was supplied.  The arithmetic is any
    in which 0 does not exceed [epsilon = 1e-10]. *)
Theorem all_skipped (pos : list (pixel F)) (weights : list F) (o : options F) :
  (zero >? epsilon)%A = false ->
  (forall idx, (idx < length weights)%nat -> skip_pixel o weights idx = true) ->
  (forall bins, (2 <= bins < 2 ^ 64)%Z -> well_shaped eps32 pos weights o ->
     room1D bins ->
     exists outPos,
       fullSplit1D pos weights bins o
       = Ok (outPos, full bins (cdummy_of o), full bins zero, full bins zero)) /\
  (forall bins b0 b1, parse_bins bins = Ok (b0, b1) ->
     well_shaped eps64 pos weights o ->
     room2D (length weights) (at_least_one b0) (at_least_one b1) ->
     exists edges0 edges1,
       fullSplit2D pos weights bins o
       = Ok (full2 (at_least_one b0) (at_least_one b1) (cdummy_of o), edges0, edges1,
             full2 (at_least_one b0) (at_least_one b1) zero,
             full2 (at_least_one b0) (at_least_one b1) zero)).
Proof.
  intros Heps Hskip. split.
  - intros bins Hb (Hlen & (r & Hr) & Hm & Hd & Hf & Hp & Hs) Hroom.
    unfold room1D in Hroom. unfold fullSplit1D.
    destruct (Z.ltb_spec bins 0); [lia |]. destruct (Z.leb_spec (2 ^ 64) bins); [lia |].
    cbn [orb]. rewrite Hlen, Nat.eqb_refl. simpl bind.
    destruct (Z.ltb_spec 1 bins); [| lia]. simpl bind.
    rewrite (zeros_room _ Hroom). simpl bind. rewrite Hr. simpl bind.
    pose proof (dummy_setup_cdummy o) as Hcd.
    destruct (dummy_setup o) as [[check_dummy cdummy] cddummy]. simpl in Hcd. subst cdummy.
    rewrite (assert_size_Ok _ _ Hm), (assert_size_Ok _ _ Hd), (assert_size_Ok _ _ Hf),
      (assert_size_Ok _ _ Hp), (assert_size_Ok _ _ Hs). simpl bind.
    rewrite for_each_idle.
    + simpl bind. rewrite (merge_blank bins _ Heps). eexists. reflexivity.
    + intros idx Hidx. apply in_seq in Hidx.
      rewrite pixel1D_skipped by (apply Hskip; lia). reflexivity.
  - intros bins b0 b1 Hb (Hlen & (r & Hr) & Hm & Hd & Hf & Hp & Hs) (R1 & R2 & R3 & R4).
    unfold fullSplit2D. rewrite Hlen, Nat.eqb_refl. simpl bind.
    rewrite Hb. simpl bind.
    rewrite (zeros2_room _ _ R1). simpl bind.
    rewrite (zeros_room _ R2), (zeros_room _ R3). simpl bind.
    rewrite Hr. simpl bind.
    rewrite (zeros2_int8_room _ _ R4). simpl bind.
    pose proof (dummy_setup_cdummy o) as Hcd.
    destruct (dummy_setup o) as [[check_dummy cdummy] cddummy]. simpl in Hcd. subst cdummy.
    rewrite (assert_size_Ok _ _ Hm), (assert_size_Ok _ _ Hd), (assert_size_Ok _ _ Hf),
      (assert_size_Ok _ _ Hp), (assert_size_Ok _ _ Hs). simpl bind.
    rewrite for_each_idle.
    + simpl bind. rewrite (merge2_blank _ _ _ Heps). eexists. eexists. reflexivity.
    + intros idx Hidx. apply in_seq in Hidx.
      rewrite pixel2D_skipped by (apply Hskip; lia). reflexivity.
Qed.

End Skipped.

(** Two pixels, the second masked: its corners and its intensity can be
    anything. *)
Lemma masked_pixel_ignored_witness :
  let p := quad (1 # 2) 0 (3 # 2) 0 (3 # 2) 1 (1 # 2) 1 in
  let q := quad 2 0 3 0 3 1 2 1 in
  let q' := quad 0 0 1 0 1 1 0 1 in
  let o := {| pos0Range := Some [0; 3]; pos1Range := Some [0; 1]; dummy := None;
              delta_dummy := None; mask := Some [0; 1]%Z; dark := None;
              flat := None; solidangle := None; polarization := None |} in
  fullSplit1D [p; q'] [10; 99] 3 o = fullSplit1D [p; q] [10; 7] 3 o /\
  fullSplit2D [p; q'] [10; 99] (BinsPair 3 1) o
  = fullSplit2D [p; q] [10; 7] (BinsPair 3 1) o.
Proof.
  intros p q q' o.
  destruct (masked_pixel_ignored [p; q] [10; 7] o [0; 3] [0; 1] 1 q' 99
              Logic.eq_refl Logic.eq_refl) as [H1 H2].
  - simpl. lia.
  - simpl. lia.
  - reflexivity.
  - split; [exact (H1 3%Z) | exact (H2 (BinsPair 3 1))].
Defined.

(** Two pixels, the first masked and the second equal to the dummy value 7. *)
Lemma all_skipped_witness :
  let p := quad 0 0 1 0 1 1 0 1 in
  let o := {| pos0Range := Some [0; 4]; pos1Range := None; dummy := Some 7;
              delta_dummy := None; mask := Some [1; 0]%Z; dark := None;
              flat := None; solidangle := None; polarization := None |} in
  exists outPos,
    fullSplit1D [p; p] [3; 7] 2 o = Ok (outPos, [7; 7], [0; 0], [0; 0]).
Proof.
  intros p o.
  destruct (all_skipped [p; p] [3; 7] o) as [H1 _].
  - reflexivity.
  - intros [| [| idx]] Hidx; [reflexivity | reflexivity | simpl in Hidx; lia].
  - apply (H1 2%Z); [lia | | reflexivity].
    repeat split; try (intros e; discriminate). eexists. reflexivity.
Defined.

(* ================================================================== *)
(** * The bounds of the axes *)
(* ================================================================== *)

Module RangeArguments.

Import Unity.

Lemma fold_min2_least (l : list Q) (x : Q) : least (fold_left min2 l x) (x :: l).
Proof.
  revert x. induction l as [| y l IH]; intros x.
  - split; [now left | intros z [<- | []]; apply Qle_refl].
  - cbn [fold_left]. destruct (IH (min2 x y)) as [Hin Hle].
    destruct (min2_cases x y) as [[E Hxy] | [E Hxy]]; rewrite E in *.
    + split.
      * destruct Hin as [<- | Hin]; [now left | right; now right].
      * intros z [<- | [<- | Hz]].
        -- apply Hle. now left.
        -- apply Qle_trans with x; [apply Hle; now left | exact Hxy].
        -- apply Hle. now right.
    + split.
      * right. exact Hin.
      * intros z [<- | [<- | Hz]].
        -- apply Qle_trans with y; [apply Hle; now left | exact Hxy].
        -- apply Hle. now left.
        -- apply Hle. now right.
Qed.

Lemma fold_max2_greatest (l : list Q) (x : Q) : greatest (fold_left max2 l x) (x :: l).
Proof.
  revert x. induction l as [| y l IH]; intros x.
  - split; [now left | intros z [<- | []]; apply Qle_refl].
  - cbn [fold_left]. destruct (IH (max2 x y)) as [Hin Hle].
    destruct (max2_cases x y) as [[E Hxy] | [E Hxy]]; rewrite E in *.
    + split.
      * destruct Hin as [<- | Hin]; [now left | right; now right].
      * intros z [<- | [<- | Hz]].
        -- apply Hle. now left.
        -- apply Qle_trans with x; [exact Hxy | apply Hle; now left].
        -- apply Hle. now right.
    + split.
      * right. exact Hin.
      * intros z [<- | [<- | Hz]].
        -- apply Qle_trans with y; [exact Hxy | apply Hle; now left].
        -- apply Hle. now left.
        -- apply Hle. now right.
Qed.

Lemma axis_range_source (r : option (list Q)) (sel : corner Q -> Q) (pos : list (pixel Q)) :
  axis_range r sel pos =
  match seq_min (range_source r sel pos), seq_max (range_source r sel pos) with
  | Some lo, Some hi => Ok (lo, hi, range_given r)
  | _, _ => Raise ValueError
  end.
Proof.
  unfold axis_range, range_source, range_given.
  destruct r as [l |]; [destruct (1 <? length l)%nat |]; reflexivity.
Qed.

Lemma axis_range_cases (r : option (list Q)) (sel : corner Q -> Q) (pos : list (pixel Q)) :
  let s := range_source r sel pos in
  (s = [] /\ axis_range r sel pos = Raise ValueError) \/
  (s <> [] /\ exists lo hi, axis_range r sel pos = Ok (lo, hi, range_given r) /\
                            least lo s /\ greatest hi s).
Proof.
  intros s. rewrite axis_range_source. fold s.
  destruct s as [| x l]; [left; split; reflexivity | right].
  split; [discriminate |]. cbn [seq_min seq_max].
  exists (fold_left min2 l x), (fold_left max2 l x).
  split; [reflexivity |]. split; [apply fold_min2_least | apply fold_max2_greatest].
Qed.

(** X14.  The bounds of the two axes, in exact arithmetic.  An axis takes
    its minimum and its inclusive maximum from the range argument when that
    has two entries or more (the least and the greatest of all its entries,
    not the first two), and from the coordinates of all the corners of [pos]
    otherwise: a range of one entry is ignored.  The exclusive maximum is
    the inclusive one times [1 + eps], and [do_pos1] tells whether the
    azimuthal range was used.  With nothing to take a bound from (no usable
    range and no pixel) the minimum of an empty array raises [ValueError]. *)
Theorem ranges_spec (eps : Q) (pos : list (pixel Q)) (o : options Q) :
  let s0 := range_source (pos0Range o) (@c0 Q) pos in
  let s1 := range_source (pos1Range o) (@c1 Q) pos in
  (s0 = [] \/ s1 = [] -> ranges eps pos o = Raise ValueError) /\
  (s0 <> [] -> s1 <> [] ->
   exists r, ranges eps pos o = Ok r /\
     least (pos0_min r) s0 /\ greatest (pos0_maxin r) s0 /\
     pos0_max r = pos0_maxin r * (1 + eps) /\
     least (pos1_min r) s1 /\ greatest (pos1_maxin r) s1 /\
     pos1_max r = pos1_maxin r * (1 + eps) /\
     do_pos1 r = range_given (pos1Range o)) /\
  (forall l, (length l <= 1)%nat -> range_source (Some l) (@c0 Q) pos = column (@c0 Q) pos) /\
  (pos = [] <-> column (@c0 Q) pos = []).
Proof.
  intros s0 s1. unfold ranges.
  destruct (axis_range_cases (pos0Range o) (@c0 Q) pos) as [[E0 R0] | [E0 (lo0 & hi0 & R0 & Hlo0 & Hhi0)]];
    destruct (axis_range_cases (pos1Range o) (@c1 Q) pos) as [[E1 R1] | [E1 (lo1 & hi1 & R1 & Hlo1 & Hhi1)]];
    fold s0 in E0; fold s1 in E1; rewrite R0; cbn [bind]; try rewrite R1; cbn [bind];
    (split; [| split; [| split]]).
  all: try (intros _; reflexivity).
  all: try (intros H0 H1; contradiction).
  all: try (intros [H | H]; contradiction).
  all: try (intros l Hl; unfold range_source;
            destruct (Nat.ltb_spec 1 (length l)); [lia | reflexivity]).
  all: try (destruct pos as [| p pos]; cbn; split; intros; [reflexivity | reflexivity | discriminate | discriminate]).
  intros _ _. eexists. split; [reflexivity |]. cbn.
  repeat split; try assumption; try apply Hlo0; try apply Hhi0; try apply Hlo1; try apply Hhi1.
Qed.

End RangeArguments.

(** A radial range of three entries and an azimuthal range of one: the
    radial bounds are 1 and 5, the azimuthal ones come from the pixel. *)
Lemma ranges_spec_witness :
  let p := quad 2 (1 # 4) 3 (1 # 4) 3 (3 # 4) 2 (3 # 4) in
  let o := with_ranges (Some [5; 1; 3]) (Some [9]) in
  exists r, ranges eps32 [p] o = Ok r /\
    pos0_min r = 1 /\ pos0_maxin r = 5 /\
    pos1_min r = 1 # 4 /\ pos1_maxin r = 3 # 4 /\ do_pos1 r = false.
Proof.
  intros p o.
  destruct (RangeArguments.ranges_spec eps32 [p] o) as (_ & Hok & _).
  destruct Hok as (r & Hr & _); [discriminate | discriminate |].
  exists r. split; [exact Hr |].
  vm_compute in Hr. injection Hr as <-. repeat split.
Defined.

(* ================================================================== *)
(** * The shape of the results *)
(* ================================================================== *)

Lemma shaped_full2 {A : Type} (n0 n1 : Z) (v : A) :
  (0 <= n0)%Z -> (0 <= n1)%Z -> shaped n0 n1 (full2 n0 n1 v).
Proof.
  intros H0 H1. unfold shaped, rows, full2. rewrite repeat_length. split; [lia |].
  intros r Hr. apply repeat_spec in Hr. subst r. rewrite repeat_length. lia.
Qed.

Lemma shaped_set2 {A : Type} (n0 n1 : Z) (a a' : array2 A) (i j : Z) (v : A) :
  shaped n0 n1 a -> set2 a i j v = Ok a' -> shaped n0 n1 a'.
Proof.
  intros [Hrows Hrow] E. unfold set2 in E.
  destruct (in_bounds i (rows a)) eqn:Hi; [| discriminate].
  destruct (in_bounds j (cols a)); [| discriminate].
  cbn [andb] in E. injection E as <-.
  unfold in_bounds in Hi. apply andb_true_iff in Hi. destruct Hi as [Hi0 Hi1].
  apply Z.leb_le in Hi0. apply Z.ltb_lt in Hi1. unfold rows in *.
  split; [unfold rows; now rewrite upd_length |].
  intros r Hr. apply In_nth with (d := []) in Hr. destruct Hr as (n & Hn & <-).
  rewrite upd_length in Hn.
  destruct (Nat.eq_dec (Z.to_nat i) n) as [<- | Hne].
  - rewrite nth_upd_same by lia. rewrite upd_length. apply Hrow, nth_In. lia.
  - rewrite nth_upd_other by exact Hne. apply Hrow, nth_In. exact Hn.
Qed.

Section Shapes.

Context {F : Type} `{Arith F} {M : Memory}.

Lemma shaped_add_at2 (n0 n1 : Z) (a a' : array2 F) (i j : Z) (v : F) :
  shaped n0 n1 a -> add_at2 a i j v = Ok a' -> shaped n0 n1 a'.
Proof.
  intros Ha E. unfold add_at2 in E. inv_bind_as E x Ex.
  exact (shaped_set2 n0 n1 a a' i j _ Ha E).
Qed.

Lemma shaped_accumulate2 (n0 n1 : Z) (ds : list (deposit2 F)) (oc od oc' od' : array2 F) :
  shaped n0 n1 oc -> shaped n0 n1 od ->
  for_each accumulate2 ds (oc, od) = Ok (oc', od') ->
  shaped n0 n1 oc' /\ shaped n0 n1 od'.
Proof.
  intros Hoc Hod.
  apply (for_each_inv (fun acc : array2 F * array2 F =>
                         shaped n0 n1 (fst acc) /\ shaped n0 n1 (snd acc)));
    [| split; assumption].
  intros [c d] dep [c' d'] [Hc Hd] Ed. unfold accumulate2 in Ed.
  inv_bind_as Ed cnew E1. inv_bind_as Ed dnew E2. injection Ed as <- <-.
  split; [exact (shaped_add_at2 _ _ _ _ _ _ _ Hc E1)
         | exact (shaped_add_at2 _ _ _ _ _ _ _ Hd E2)].
Qed.

Lemma linspace_length (start stop : F) (num : Z) :
  length (linspace start stop num) = Z.to_nat num.
Proof. unfold linspace. rewrite length_map, zrange_length. f_equal. lia. Qed.

Lemma length_accumulate (ds : list (deposit F)) (oc od oc' od' : list F) :
  for_each accumulate ds (oc, od) = Ok (oc', od') ->
  length oc' = length oc /\ length od' = length od.
Proof.
  apply (for_each_inv (fun acc : list F * list F =>
                         length (fst acc) = length oc /\ length (snd acc) = length od));
    [| split; reflexivity].
  intros [c d] dep [c' d'] [Hc Hd] Ed. apply accumulate_Ok in Ed.
  destruct Ed as (_ & _ & -> & ->). cbn [fst snd] in *. now rewrite !upd_length.
Qed.

Lemma at_least_one_pos (b : Z) : (0 < at_least_one b)%Z.
Proof. unfold at_least_one. destruct (Z.leb_spec b 0); lia. Qed.

(** The pixel loop of [fullSplit2D], from a run that returns. *)
Lemma fullSplit2D_loop (pos : list (pixel F)) (weights : list F) (bins : bins_arg)
    (o : options F) outMerge edges0 edges1 outData outCount :
  fullSplit2D pos weights bins o = Ok (outMerge, edges0, edges1, outData, outCount) ->
  exists b0 b1 r ins,
    parse_bins bins = Ok (b0, b1) /\ ranges eps64 pos o = Ok r /\
    let n0 := at_least_one b0 in
    let n1 := at_least_one b1 in
    for_each
      (fun (st : array2 F * array2 F * array2 Z) idx =>
         let '(outCount, outData, is_inside) := st in
         bind (pixel2D o weights pos n0 n1 (pos0_min r)
                 (bin_width (pos0_min r) (pos0_max r) n0) (pos1_min r)
                 (bin_width (pos1_min r) (pos1_max r) n1) is_inside idx)
              (fun '(ds, is_inside) =>
                 bind (for_each accumulate2 ds (outCount, outData))
                      (fun '(outCount, outData) => Ok (outCount, outData, is_inside))))
      (seq 0 (length weights))
      (full2 n0 n1 zero, full2 n0 n1 zero,
       full2 (scratch_dim (Z.of_nat (length weights)) n0)
             (scratch_dim (Z.of_nat (length weights)) n1) 0%Z)
    = Ok (outCount, outData, ins).
Proof.
  unfold fullSplit2D. intros E.
  inv_bind_as E u1 Hlen. inv_bind_as E b Hb. destruct b as [b0 b1].
  inv_bind_as E od0 Hod. inv_bind_as E oc0 Hoc. inv_bind_as E om0 Hom.
  apply zeros2_Ok in Hod, Hoc. destruct Hod as [_ ->]. destruct Hoc as [_ ->].
  inv_bind_as E e0 He0. inv_bind_as E e1 He1.
  inv_bind_as E r Hr.
  inv_bind_as E ins0 Hins. apply zeros2_int8_Ok in Hins. destruct Hins as [_ ->].
  destruct (dummy_setup o) as [[check_dummy cdummy] cddummy].
  do 5 inv_bind E. inv_bind_as E acc Hloop. destruct acc as [[oc od] ins].
  injection E as <- <- <- <- <-.
  exists b0, b1, r, ins. split; [exact Hb |]. split; [exact Hr |]. exact Hloop.
Qed.

(** X15.  The shape of what a run returns.  [fullSplit1D] returns four
    arrays of [bins] entries; [fullSplit2D] returns [outMerge], [outData] and
    [outCount] of [all_bins0] rows and [all_bins1] columns, the counts it
    was given with every non-positive one replaced by 1, and [edges0] and
    [edges1] of [all_bins0] and [all_bins1] entries: no accumulation changes
    the shape of an array. *)
Theorem output_shapes (pos : list (pixel F)) (weights : list F) (o : options F) :
  (forall bins outPos outMerge outData outCount,
     fullSplit1D pos weights bins o = Ok (outPos, outMerge, outData, outCount) ->
     length outPos = Z.to_nat bins /\ length outMerge = Z.to_nat bins /\
     length outData = Z.to_nat bins /\ length outCount = Z.to_nat bins) /\
  (forall bins b0 b1 outMerge edges0 edges1 outData outCount,
     fullSplit2D pos weights bins o = Ok (outMerge, edges0, edges1, outData, outCount) ->
     parse_bins bins = Ok (b0, b1) ->
     let n0 := at_least_one b0 in
     let n1 := at_least_one b1 in
     shaped n0 n1 outMerge /\ shaped n0 n1 outData /\ shaped n0 n1 outCount /\
     length edges0 = Z.to_nat n0 /\ length edges1 = Z.to_nat n1).
Proof.
  split.
  - intros bins outPos outMerge outData outCount E.
    pose proof (fullSplit1D_Ok _ _ _ _ _ _ _ _ E) as (Hb & r & Hr & -> & ->).
    apply Conservation.fullSplit1D_loop in E.
    destruct E as (_ & _ & r' & _ & Hloop).
    assert (Hlen : length outCount = Z.to_nat bins /\ length outData = Z.to_nat bins).
    { revert Hloop.
      apply (for_each_inv (fun acc : list F * list F =>
                             length (fst acc) = Z.to_nat bins /\
                             length (snd acc) = Z.to_nat bins)).
      - intros [c d] idx [c' d'] [Hc Hd] Ed. unfold step1D in Ed.
        inv_bind_as Ed ds Eds. apply length_accumulate in Ed. cbn [fst snd] in *.
        destruct Ed as [-> ->]. split; assumption.
      - cbn [fst snd]. rewrite full_length. split; reflexivity. }
    destruct Hlen as [Hc Hd].
    split; [unfold centers; apply linspace_length |].
    split; [| split; assumption].
    rewrite merge_length; rewrite full_length; [reflexivity | lia].
  - intros bins b0 b1 outMerge edges0 edges1 outData outCount E Hb n0 n1.
    pose proof (fullSplit2D_Ok _ _ _ _ _ _ _ _ _ E)
      as (b0' & b1' & r & Hb' & Hr & -> & -> & ->).
    rewrite Hb in Hb'. injection Hb' as <- <-. fold n0 n1.
    apply fullSplit2D_loop in E. destruct E as (b0' & b1' & r' & ins & Hb' & _ & Hloop).
    rewrite Hb in Hb'. injection Hb' as <- <-. cbv zeta in Hloop. fold n0 n1 in Hloop.
    pose proof (at_least_one_pos b0) as Hn0. pose proof (at_least_one_pos b1) as Hn1.
    fold n0 in Hn0. fold n1 in Hn1.
    assert (Hsh : shaped n0 n1 outCount /\ shaped n0 n1 outData).
    { revert Hloop.
      apply (for_each_inv (fun st : array2 F * array2 F * array2 Z =>
                             shaped n0 n1 (fst (fst st)) /\ shaped n0 n1 (snd (fst st)))).
      - intros [[c d] i0] idx [[c' d'] i1] [Hc Hd] Ed. cbn [fst snd] in *.
        inv_bind_as Ed x Ex. destruct x as [ds i2].
        inv_bind_as Ed acc Eacc. destruct acc as [c2 d2]. injection Ed as <- <- <-.
        exact (shaped_accumulate2 _ _ _ _ _ _ _ Hc Hd Eacc).
      - cbn [fst snd]. split; apply shaped_full2; lia. }
    destruct Hsh as [Hc Hd].
    split; [| split; [exact Hd | split; [exact Hc |]]].
    + split.
      * unfold rows. rewrite merge2_length, full2_length. lia.
      * intros row Hrow. apply In_nth with (d := []) in Hrow.
        destruct Hrow as (i & Hi & <-).
        rewrite merge2_length, full2_length in Hi.
        rewrite merge2_nth; [| rewrite full2_length; lia | exact Hi].
        rewrite full2_row by exact Hi.
        rewrite merge_length; rewrite repeat_length; lia.
    + split; unfold centers; rewrite linspace_length; reflexivity.
Qed.

End Shapes.

(** A run of each function on one pixel. *)
Lemma output_shapes_witness :
  let p := quad (1 # 2) (1 # 4) (3 # 2) (1 # 4) (3 # 2) (3 # 4) (1 # 2) (3 # 4) in
  let o := with_ranges (Some [0; 3]) (Some [0; 1]) in
  (exists outPos outMerge outData outCount,
     fullSplit1D [p] [10] 3 o = Ok (outPos, outMerge, outData, outCount) /\
     length outMerge = 3%nat /\ length outData = 3%nat /\ length outCount = 3%nat) /\
  (exists outMerge edges0 edges1 outData outCount,
     fullSplit2D [p] [10] (BinsPair 3 0) o
     = Ok (outMerge, edges0, edges1, outData, outCount) /\
     shaped 3 1 outMerge /\ shaped 3 1 outData /\ shaped 3 1 outCount).
Proof.
  intros p o. destruct (output_shapes [p] [10] o) as [H1 H2]. split.
  - destruct (fullSplit1D [p] [10] 3 o) as [[[[outPos outMerge] outData] outCount] | e | u]
      eqn:E; [| vm_compute in E; discriminate ..].
    exists outPos, outMerge, outData, outCount. split; [reflexivity |].
    destruct (H1 _ _ _ _ _ E) as (_ & Hm & Hd & Hc).
    split; [exact Hm |]. split; [exact Hd | exact Hc].
  - destruct (fullSplit2D [p] [10] (BinsPair 3 0) o)
      as [[[[[outMerge edges0] edges1] outData] outCount] | e | u] eqn:E;
      [| vm_compute in E; discriminate ..].
    exists outMerge, edges0, edges1, outData, outCount. split; [reflexivity |].
    destruct (H2 (BinsPair 3 0) 3%Z 0%Z _ _ _ _ _ E Logic.eq_refl) as (Hm & Hd & Hc & _).
    split; [exact Hm |]. split; [exact Hd | exact Hc].
Defined.
